(** * Basement Renovator: the room geometry, placement and autotiling core

    A shallow embedding of the parts of [BasementRenovator.py] that decide
    where things sit in a room: the shape table of [Room.Info], the scene's
    placement bookkeeping ([Entity.updateCoords], [Entity.remove],
    [RoomEditorWidget.tryToPaint]), the blocked-door counter
    ([Entity.updateBlockedDoor]), the neighbour query
    ([RoomScene.getAdjacentEnts]) and the two tile resolvers
    ([Entity.getPitFrame], [Entity.setRockFrame]).

    Python integers are [Z]; Python lists are [list]; attributes of the Qt
    objects that the source reads and writes (parent item, z value) are
    record fields. *)

From Stdlib Require Import ZArith List Bool String Lia Permutation Sorted.
Import ListNotations.
Local Open Scope Z_scope.

(** ** Room.Info: shapes, walls and doors *)

Module RoomInfo.

(** A wall is the tuple [(min, max, level, dir)] of the source:
    "min, max on axis, cross axis coord, normal direction along cross axis". *)
Record Wall := mkWall { wMin : Z; wMax : Z; wLvl : Z; wDir : Z }.

Inductive Axis := AxisX | AxisY.

(** A door is the list [[x, y]], extended to [[x, y, exists]] when the
    class body runs [door.append(True)]. *)
Record DoorItem := mkDoorItem { doorX : Z; doorY : Z; doorExists : bool }.

Record Shape := mkShape {
  Doors : list (Z * Z);
  WallsX : list Wall;
  WallsY : list Wall;
  TopLeft : option Z;
  BaseShape : option Z;
  MirrorX : option Z;
  MirrorY : option Z;
  Dims : Z * Z
}.

Definition W (a b c d : Z) : Wall := mkWall a b c d.

(** The dictionary [Room.Info.Shapes], in its declared order. *)
Definition Shapes : list (Z * Shape) :=
  [ (1, mkShape [(7,0); (0,4); (14,4); (7,8)]
          [W 0 14 0 1; W 0 14 8 (-1)]
          [W 0 8 0 1; W 0 8 14 (-1)]
          None None None None (15, 9));
    (2, mkShape [(0,4); (14,4)]
          [W 0 14 2 1; W 0 14 6 (-1)]
          [W 2 6 0 1; W 2 6 14 (-1)]
          (Some 30) (Some 1) None None (15, 5));
    (3, mkShape [(7,0); (7,8)]
          [W 4 10 0 1; W 4 10 8 (-1)]
          [W 0 8 4 1; W 0 8 10 (-1)]
          (Some 4) (Some 1) None None (7, 9));
    (4, mkShape [(7,0); (14,4); (0,4); (14,11); (0,11); (7,15)]
          [W 0 14 0 1; W 0 14 15 (-1)]
          [W 0 15 0 1; W 0 15 14 (-1)]
          None None None None (15, 16));
    (5, mkShape [(7,0); (7,15)]
          [W 4 10 0 1; W 4 10 15 (-1)]
          [W 0 15 4 1; W 0 15 10 (-1)]
          (Some 4) (Some 4) None None (7, 16));
    (6, mkShape [(7,0); (0,4); (7,8); (20,8); (27,4); (20,0)]
          [W 0 27 0 1; W 0 27 8 (-1)]
          [W 0 8 0 1; W 0 8 27 (-1)]
          None None None None (28, 9));
    (7, mkShape [(0,4); (27,4)]
          [W 0 27 2 1; W 0 27 6 (-1)]
          [W 2 6 0 1; W 2 6 27 (-1)]
          (Some 56) (Some 6) None None (28, 5));
    (8, mkShape [(7,0); (0,4); (0,11); (20,0); (7,15); (20,15); (27,4); (27,11)]
          [W 0 27 0 1; W 0 27 15 (-1)]
          [W 0 15 0 1; W 0 15 27 (-1)]
          None None None None (28, 16));
    (9, mkShape [(20,0); (27,4); (7,15); (20,15); (13,4); (0,11); (27,11); (7,7)]
          [W 0 13 7 1; W 13 27 0 1; W 0 27 15 (-1)]
          [W 7 15 0 1; W 0 7 13 1; W 0 15 27 (-1)]
          None (Some 8) (Some 10) (Some 11) (28, 16));
    (10, mkShape [(0,4); (14,4); (7,0); (20,7); (7,15); (20,15); (0,11); (27,11)]
          [W 0 14 0 1; W 14 27 7 1; W 0 27 15 (-1)]
          [W 0 15 0 1; W 0 7 14 (-1); W 7 15 27 (-1)]
          None (Some 8) (Some 9) (Some 12) (28, 16));
    (11, mkShape [(0,4); (7,8); (7,0); (13,11); (20,0); (27,4); (20,15); (27,11)]
          [W 0 27 0 1; W 0 13 8 (-1); W 13 27 15 (-1)]
          [W 0 8 0 1; W 8 15 13 1; W 0 15 27 (-1)]
          None (Some 8) (Some 12) (Some 9) (28, 16));
    (12, mkShape [(0,4); (7,0); (20,0); (14,11); (27,4); (7,15); (0,11); (20,8)]
          [W 0 27 0 1; W 14 27 8 (-1); W 0 14 15 (-1)]
          [W 0 15 0 1; W 8 15 14 (-1); W 0 8 27 (-1)]
          None (Some 8) (Some 11) (Some 10) (28, 16)) ].

(** [Room.Info.Shapes[id]]; [None] stands for the [KeyError]. *)
Fixpoint lookupShape (tbl : list (Z * Shape)) (id : Z) : option Shape :=
  match tbl with
  | [] => None
  | (k, sh) :: rest => if k =? id then Some sh else lookupShape rest id
  end.

Definition shapeOf (id : Z) : option Shape := lookupShape Shapes id.

(** The doors of a shape once [door.append(True)] has run. *)
Definition shapeDoors (sh : Shape) : list DoorItem :=
  map (fun d => mkDoorItem (fst d) (snd d) true) (Doors sh).

(** The guards of the two inner loops of the class body. *)
Definition onWallX (door : DoorItem) (wall : Wall) : bool :=
  (doorX door >=? wMin wall) && (doorX door <=? wMax wall)
    && (doorY door =? wLvl wall).

Definition onWallY (door : DoorItem) (wall : Wall) : bool :=
  (doorY door >=? wMin wall) && (doorY door <=? wMax wall)
    && (doorX door =? wLvl wall).

(** One pass of the outer loop: the X loop appends at its first match and
    breaks, the Y loop appends at every match. *)
Definition doorWallsOf (sh : Shape) (door : DoorItem)
  : list (DoorItem * Wall * Axis) :=
  (match find (onWallX door) (WallsX sh) with
   | Some wall => [(door, wall, AxisX)]
   | None => []
   end)
  ++ map (fun wall => (door, wall, AxisY)) (filter (onWallY door) (WallsY sh)).

(** [shape["DoorWalls"]] as the class body leaves it. *)
Definition DoorWalls (sh : Shape) : list (DoorItem * Wall * Axis) :=
  flat_map (doorWallsOf sh) (shapeDoors sh).

(** An instance of [Room.Info]: the shape setter stores [shapeData] and
    [baseShapeData] and [makeNewDoors] copies the doors. *)
Record Info := mkInfo {
  shape : Z;
  shapeData : Shape;
  baseShapeData : option Shape;
  doors : list DoorItem
}.

Definition makeNewDoors (sh : Shape) : list DoorItem := shapeDoors sh.

Definition newInfo (id : Z) : option Info :=
  match shapeOf id with
  | None => None
  | Some sh =>
      let bs := match BaseShape sh with
                | Some b => shapeOf b
                | None => None
                end in
      Some (mkInfo id sh bs (makeNewDoors sh))
  end.

Definition dims (info : Info) : Z * Z :=
  match baseShapeData info with
  | Some b => Dims b
  | None => Dims (shapeData info)
  end.

Definition gridLen (info : Info) : Z := fst (dims info) * snd (dims info).

Definition gridIndex (x y w : Z) : Z := y * w + x.

Fixpoint inFrontOfDoorIn (dws : list (DoorItem * Wall * Axis)) (x y : Z)
  : option DoorItem :=
  match dws with
  | [] => None
  | (door, wall, axis) :: rest =>
      match axis with
      | AxisX =>
          if (doorX door =? x) && (y - doorY door =? wDir wall)
          then Some door else inFrontOfDoorIn rest x y
      | AxisY =>
          if (doorY door =? y) && (x - doorX door =? wDir wall)
          then Some door else inFrontOfDoorIn rest x y
      end
  end.

Definition inFrontOfDoor (info : Info) (x y : Z) : option DoorItem :=
  inFrontOfDoorIn (DoorWalls (shapeData info)) x y.

(** [(c > wLvl) - (c < wLvl)], with Python's booleans as 0 and 1. *)
Definition cmpSign (c lvl : Z) : Z := Z.b2z (c >? lvl) - Z.b2z (c <? lvl).

Definition _axisBounds (a c : Z) (w : Wall) : bool :=
  (a <? wMin w) || (a >? wMax w) || (cmpSign c (wLvl w) =? wDir w).

Definition isInBounds (info : Info) (x y : Z) : bool :=
  forallb (fun w => _axisBounds x y w) (WallsX (shapeData info))
  && forallb (fun w => _axisBounds y x w) (WallsY (shapeData info)).

(** The first loop of [snapToBounds]: [y] is reassigned in place, so a
    later wall is tested against the [y] an earlier wall has left. *)
Fixpoint snapX (x y dist : Z) (ws : list Wall) : Z :=
  match ws with
  | [] => y
  | w :: rest =>
      if negb (_axisBounds x y w)
      then snapX x (wLvl w + wDir w * dist) dist rest
      else snapX x y dist rest
  end.

(** The second loop, which runs with the [y] the first loop produced. *)
Fixpoint snapY (x y dist : Z) (ws : list Wall) : Z :=
  match ws with
  | [] => x
  | w :: rest =>
      if negb (_axisBounds y x w)
      then snapY (wLvl w + wDir w * dist) y dist rest
      else snapY x y dist rest
  end.

Definition snapToBounds (info : Info) (x y dist : Z) : Z * Z :=
  let y' := snapX x y dist (WallsX (shapeData info)) in
  let x' := snapY x y' dist (WallsY (shapeData info)) in
  (x', y').

End RoomInfo.

(** ** The scene: entities, doors and the placement bookkeeping *)

Module Scene.
Import RoomInfo.

(** What [Entity.Info.getEntityInfo] reads from the entity registry for a
    (type, variant, subtype) key, as far as the code below looks at it. *)
Record EntityConfig := mkConfig {
  cfgIsGridEnt : bool;      (* IsGrid == "1" *)
  cfgBlocksDoor : bool;     (* NoBlockDoors != "1" *)
  cfgRenderRock : bool;     (* UseRockTiling == "1" *)
  cfgImg : string           (* the image getCurrentImg() answers *)
}.

(** An [Entity] graphics item together with its [Entity.Info].  [uid] is
    the identity of the Python object ([e is not self]); [parentItem] is
    the index of its row in [scene.roomRows], [None] while it has no
    parent; [zValue] is the item's z value, which starts at 0;
    [stackDepth] and [respawning] are the attributes of these names. *)
Record Entity := mkEntity {
  uid : nat;
  entX : Z;
  entY : Z;
  entType : Z;
  isGridEnt : bool;
  blocksDoor : bool;
  renderRock : bool;
  currentImg : string;
  rockFrame : option Z;
  parentItem : option Z;
  zValue : Z;
  stackDepth : Z;
  respawning : bool
}.

Definition setZValue (e : Entity) (z : Z) : Entity :=
  mkEntity (uid e) (entX e) (entY e) (entType e) (isGridEnt e) (blocksDoor e)
    (renderRock e) (currentImg e) (rockFrame e) (parentItem e) z (stackDepth e) (respawning e).

Definition setParentItem (e : Entity) (p : option Z) : Entity :=
  mkEntity (uid e) (entX e) (entY e) (entType e) (isGridEnt e) (blocksDoor e)
    (renderRock e) (currentImg e) (rockFrame e) p (zValue e) (stackDepth e) (respawning e).

Definition setXY (e : Entity) (x y : Z) : Entity :=
  mkEntity (uid e) x y (entType e) (isGridEnt e) (blocksDoor e)
    (renderRock e) (currentImg e) (rockFrame e) (parentItem e) (zValue e)
    (stackDepth e) (respawning e).

Definition setStackDepth (e : Entity) (d : Z) : Entity :=
  mkEntity (uid e) (entX e) (entY e) (entType e) (isGridEnt e) (blocksDoor e)
    (renderRock e) (currentImg e) (rockFrame e) (parentItem e) (zValue e) d (respawning e).

Definition setRespawning (e : Entity) (b : bool) : Entity :=
  mkEntity (uid e) (entX e) (entY e) (entType e) (isGridEnt e) (blocksDoor e)
    (renderRock e) (currentImg e) (rockFrame e) (parentItem e) (zValue e)
    (stackDepth e) b.

Definition setRockFrameOf (e : Entity) (f : option Z) : Entity :=
  mkEntity (uid e) (entX e) (entY e) (entType e) (isGridEnt e) (blocksDoor e)
    (renderRock e) (currentImg e) f (parentItem e) (zValue e) (stackDepth e) (respawning e).

(** A [Door] item: [doorItem] is the [[x, y, exists]] list it was built
    from, and the [exists] property reads and writes its third slot. *)
Record Door := mkDoor { doorItem : DoorItem; blockingCount : Z }.

Definition exists_ (d : Door) : bool := doorExists (doorItem d).

Definition setExists (d : Door) (val : bool) : Door :=
  mkDoor (mkDoorItem (doorX (doorItem d)) (doorY (doorItem d)) val)
         (blockingCount d).

Definition setBlockingCount (d : Door) (n : Z) : Door :=
  mkDoor (doorItem d) n.

(** [RoomScene].  [objects] holds every live [Entity] in creation order;
    the children of row [r] are the objects whose parent is [r], and the
    scene's entities are the objects that have a parent.  [doorItems] is
    [roomDoorRoot.childItems()].  [entCache] holds references, kept here
    as uids and read back through [objects]. *)
Record RoomScene := mkScene {
  roomInfo : Info;
  roomWidth : Z;
  roomHeight : Z;
  objects : list Entity;
  doorItems : list Door;
  entCache : list (list nat)
}.

Definition setObjects (s : RoomScene) (os : list Entity) : RoomScene :=
  mkScene (roomInfo s) (roomWidth s) (roomHeight s) os (doorItems s) (entCache s).

Definition setDoorItems (s : RoomScene) (ds : list Door) : RoomScene :=
  mkScene (roomInfo s) (roomWidth s) (roomHeight s) (objects s) ds (entCache s).

Definition setEntCache (s : RoomScene) (c : list (list nat)) : RoomScene :=
  mkScene (roomInfo s) (roomWidth s) (roomHeight s) (objects s) (doorItems s) c.

(** [RoomScene.newRoomSize] followed by [Room.clearDoors]: an empty scene
    of the given shape with one [Door] per door of the room. *)
Definition newRoomSize (shapeId : Z) : option RoomScene :=
  match newInfo shapeId with
  | None => None
  | Some info =>
      let '(w, h) := dims info in
      Some (mkScene info w h []
              (map (fun d => mkDoor d 0) (doors info))
              (repeat [] (Z.to_nat (w * h))))
  end.

Definition findEnt (s : RoomScene) (u : nat) : option Entity :=
  find (fun e => Nat.eqb (uid e) u) (objects s).

(** Apply [f] to the object [u], in place. *)
Definition updateEnt (u : nat) (f : Entity -> Entity) (os : list Entity)
  : list Entity :=
  map (fun e => if Nat.eqb (uid e) u then f e else e) os.

(** Apply [f] to every object that satisfies [p], in place. *)
Definition updateWhere (p : Entity -> bool) (f : Entity -> Entity)
  (os : list Entity) : list Entity :=
  map (fun e => if p e then f e else e) os.

(** [scene.items()] restricted to [Entity] instances. *)
Definition sceneEntities (s : RoomScene) : list Entity :=
  filter (fun e => match parentItem e with Some _ => true | None => false end)
         (objects s).

(** [scene.roomRows[y]].  The rows are indexed 0 .. roomHeight-1; for an
    index outside that range Python raises IndexError (above) or wraps
    around (below), and the model stops with [None] in both cases: every
    caller clamps the coordinates first. *)
Definition roomRow (s : RoomScene) (y : Z) : option Z :=
  if (0 <=? y) && (y <? roomHeight s) then Some y else None.

Definition isChildOf (r : Z) (e : Entity) : bool :=
  match parentItem e with
  | Some p => p =? r
  | None => false
  end.

Definition childItems (s : RoomScene) (r : Z) : list Entity :=
  filter (isChildOf r) (objects s).

(** The filter of the local function [entsInCoord] of [updateCoords],
    once the row is known. *)
Definition inCoord (self : nat) (x r : Z) (e : Entity) : bool :=
  isChildOf r e && (entX e =? x) && negb (Nat.eqb (uid e) self).

Definition entsInCoord (s : RoomScene) (self : nat) (x r : Z) : list Entity :=
  filter (inCoord self x r) (objects s).

(** *** Entity.updateBlockedDoor *)

(** The body of the loop for the door that matches. *)
Definition blockDoor (val countOnly : bool) (door : Door) : Door :=
  let doorFollowsBlockRule := Bool.eqb (blockingCount door =? 0) (exists_ door) in
  let door1 := setBlockingCount door
                 (blockingCount door + (if val then -1 else 1)) in
  if doorFollowsBlockRule && exists_ door1 && negb countOnly
  then setExists door1 (blockingCount door1 =? 0)
  else door1.

Definition sameXY (a b : DoorItem) : bool :=
  (doorX a =? doorX b) && (doorY a =? doorY b).

(** The loop over [roomDoorRoot.childItems()], left at the first match. *)
Fixpoint updateDoors (blockedDoor : DoorItem) (val countOnly : bool)
  (ds : list Door) : list Door :=
  match ds with
  | [] => []
  | door :: rest =>
      if sameXY (doorItem door) blockedDoor
      then blockDoor val countOnly door :: rest
      else door :: updateDoors blockedDoor val countOnly rest
  end.

Definition updateBlockedDoor (s : RoomScene) (self : Entity)
  (val countOnly : bool) : RoomScene :=
  if blocksDoor self then
    match inFrontOfDoor (roomInfo s) (entX self) (entY self) with
    | Some blockedDoor =>
        setDoorItems s (updateDoors blockedDoor val countOnly (doorItems s))
    | None => s
    end
  else s.

(** The doors [updateBlockedDoor] leaves, from what it reads: the room, the
    [blocksDoor] flag and the cell of the entity. *)
Definition doorsAfter (s : RoomScene) (blocks : bool) (x y : Z)
  (val countOnly : bool) : list Door :=
  if blocks then
    match inFrontOfDoor (roomInfo s) x y with
    | Some blockedDoor => updateDoors blockedDoor val countOnly (doorItems s)
    | None => doorItems s
    end
  else doorItems s.

(** [Door.mouseDoubleClickEvent] on the [i]-th door. *)
Fixpoint mouseDoubleClickEvent (i : nat) (ds : list Door) : list Door :=
  match ds, i with
  | [], _ => []
  | d :: rest, O => setExists d (negb (exists_ d)) :: rest
  | d :: rest, S i' => d :: mouseDoubleClickEvent i' rest
  end.

Definition toggleDoor (s : RoomScene) (i : nat) : RoomScene :=
  setDoorItems s (mouseDoubleClickEvent i (doorItems s)).

(** *** Entity.updateCoords *)

Definition updateCoords (s : RoomScene) (self : nat) (x y depth : Z)
  : option RoomScene :=
  match findEnt s self with
  | None => None
  | Some me =>
      match parentItem me with
      | None =>
          (* adding = self.parentItem() is None *)
          match roomRow s y with
          | None => None
          | Some r =>
              let s1 := setObjects s
                          (updateEnt self (fun e => setParentItem e (Some r))
                                     (objects s)) in
              Some (updateBlockedDoor s1 me false (respawning me))
          end
      | Some _ =>
          let z := zValue me in
          let moving := negb (entX me =? x) || negb (entY me =? y) in
          let restacked :=
            if ((depth <? 0) && moving) || negb (depth =? z) then
              match roomRow s y with
              | None => None
              | Some r =>
                  let topOfStack := depth <? 0 in
                  let depth' :=
                    if depth <? 0
                    then Z.of_nat (List.length (entsInCoord s self x r))
                    else depth in
                  let os1 :=
                    if negb topOfStack
                    then updateWhere
                           (fun e => inCoord self x r e && (zValue e >=? depth'))
                           (fun e => setZValue e (zValue e + 1)) (objects s)
                    else objects s in
                  let os2 :=
                    if moving then
                      match roomRow s (entY me) with
                      | None => None
                      | Some r0 =>
                          Some (updateWhere
                                  (fun e => inCoord self (entX me) r0 e
                                            && (zValue e >? z))
                                  (fun e => setZValue e (zValue e - 1)) os1)
                      end
                    else Some os1 in
                  match os2 with
                  | None => None
                  | Some os2 =>
                      Some (setObjects s
                              (updateEnt self
                                 (fun e => setZValue (setParentItem e (Some r)) depth')
                                 os2))
                  end
              end
            else Some s in
          match restacked with
          | None => None
          | Some s1 =>
              let s2 := if moving then updateBlockedDoor s1 me true false else s1 in
              let s3 := setObjects s2
                          (updateEnt self (fun e => setXY e x y) (objects s2)) in
              Some (if moving
                    then updateBlockedDoor s3 (setXY me x y) false false
                    else s3)
          end
      end
  end.

(** *** Entity.remove *)

Definition remove (s : RoomScene) (self : nat) : option RoomScene :=
  match findEnt s self with
  | None => None
  | Some me =>
      let s1 := updateBlockedDoor s me true false in
      Some (setObjects s1
              (filter (fun e => negb (Nat.eqb (uid e) self)) (objects s1)))
  end.

End Scene.

(** ** Creating entities and painting them into the room *)

Module Editor.
Import RoomInfo Scene.

(** [EntityStack.MAX_STACK_DEPTH] *)
Definition MAX_STACK_DEPTH : Z := 25.

(** The object picked in the palette; [ID], [variant] and [subtype] are
    the numbers [int(...)] makes of its fields. *)
Record PaintItem := mkPaint { ID : Z; variant : Z; subtype : Z }.

Section WithCollaborators.

(** The entity registry behind [Entity.Info.getEntityInfo]. *)
Variable getEntityInfo : Z -> Z -> Z -> EntityConfig.

(** Qt's [collidingItems(Qt.IntersectsItemBoundingRect)] for an item of
    the scene, already restricted to [Entity] instances. *)
Variable collidingItems : RoomScene -> Entity -> list Entity.

(** [Entity.getStack]: the one place that assigns [stackDepth] after
    construction; it refreshes the attribute of [self] only. *)
Definition getStack (s : RoomScene) (self : nat) : RoomScene :=
  match findEnt s self with
  | None => s
  | Some me =>
      let stack := collidingItems s me ++ [me] in
      setObjects s
        (updateEnt self
           (fun e => setStackDepth e (Z.of_nat (List.length stack)))
           (objects s))
  end.

(** A uid no live object has: the identity of a newly made object. *)
Definition freshUid (s : RoomScene) : nat :=
  S (fold_right Nat.max O (map uid (objects s))).

(** [Entity.__init__] for a position inside the room: [stackDepth = 1],
    [updateCoords(x, y)] (which takes the adding branch),
    [updatePosition()] (whose [setPos] makes Qt call [itemChange], which
    for an unchanged cell only runs [getStack]) and, last,
    [respawning = False].  Outside the room [itemChange] would move the
    entity again; the model stops there with [None]. *)
Definition Entity_init (s : RoomScene) (x y myType v st : Z)
  (resp : bool) : option (RoomScene * nat) :=
  if (0 <=? x) && (x <? roomWidth s) && (0 <=? y) && (y <? roomHeight s)
  then
    let cfg := getEntityInfo myType v st in
    let u := freshUid s in
    let me := mkEntity u x y myType (cfgIsGridEnt cfg) (cfgBlocksDoor cfg)
                (cfgRenderRock cfg) (cfgImg cfg) None None 0 1 resp in
    match updateCoords (setObjects s (objects s ++ [me])) u x y (-1) with
    | None => None
    | Some s1 =>
        let s2 := getStack s1 u in
        Some (setObjects s2
                (updateEnt u (fun e => setRespawning e false) (objects s2)),
              u)
    end
  else None.

(** The entity [Entity.__init__] leaves in the scene, with the
    [stackDepth] that [getStack] gave it. *)
Definition created (s : RoomScene) (x y t v st sd : Z) : Entity :=
  let cfg := getEntityInfo t v st in
  mkEntity (freshUid s) x y t (cfgIsGridEnt cfg) (cfgBlocksDoor cfg)
    (cfgRenderRock cfg) (cfgImg cfg) None (Some y) 0 sd false.

(** The loop of [tryToPaint] over [scene.items()]: [true] when one of
    its two [return] statements is reached. *)
Fixpoint paintRefused (items : list Entity) (x y paintID : Z) : bool :=
  match items with
  | [] => false
  | i :: rest =>
      if (entX i =? x) && (entY i =? y) then
        if stackDepth i =? MAX_STACK_DEPTH then true
        else if (entType i >? 999) && (paintID >? 999) then true
        else paintRefused rest x y paintID
      else paintRefused rest x y paintID
  end.

Definition inLastTile (x y : Z) (lastTile : list (Z * Z)) : bool :=
  existsb (fun t => (fst t =? x) && (snd t =? y)) lastTile.

(** [RoomEditorWidget.tryToPaint].  [cx], [cy] are [int(x / 26)] and
    [int(y / 26)] of the clicked scene point, [snap] is the
    "SnapToBounds" setting, and the result carries the new [lastTile]. *)
Definition tryToPaint (s : RoomScene) (objectToPaint : option PaintItem)
  (cx cy : Z) (snap : bool) (lastTile : list (Z * Z))
  : option (RoomScene * list (Z * Z)) :=
  match objectToPaint with
  | None => Some (s, lastTile)
  | Some paint =>
      let x := Z.min (Z.max cx 0) (roomWidth s - 1) in
      let y := Z.min (Z.max cy 0) (roomHeight s - 1) in
      let '(x, y) := if snap then snapToBounds (roomInfo s) x y 1 else (x, y) in
      if paintRefused (sceneEntities s) x y (ID paint) then Some (s, lastTile)
      else if inLastTile x y lastTile then Some (s, lastTile)
      else
        match Entity_init s x y (ID paint) (variant paint) (subtype paint) false with
        | None => None
        | Some (s1, en) =>
            let s2 :=
              match findEnt s1 en with
              | Some e => if isGridEnt e then updateCoords s1 en x y 0 else Some s1
              | None => Some s1
              end in
            match s2 with
            | None => None
            | Some s2 => Some (s2, (x, y) :: lastTile)
            end
        end
  end.

(** [Entity.itemChange] for [ItemPositionChange]; [cx], [cy] are the
    [int(xc / GRID_SIZE + 0.5)] and [int(yc / GRID_SIZE + 0.5)] of the
    proposed position. *)
Definition itemChange (s : RoomScene) (self : nat) (cx cy : Z)
  (snap : bool) : option RoomScene :=
  match findEnt s self with
  | None => None
  | Some me =>
      let x := Z.min (Z.max cx 0) (roomWidth s - 1) in
      let y := Z.min (Z.max cy 0) (roomHeight s - 1) in
      let moved :=
        if negb (x =? entX me) || negb (y =? entY me) then
          let '(x, y) :=
            if snap then snapToBounds (roomInfo s) x y 1 else (x, y) in
          updateCoords s self x y (-1)
        else Some s in
      match moved with
      | None => None
      | Some s1 => Some (getStack s1 self)
      end
  end.

(** The edits that reach the blocked-door counter: a new entity
    (respawned or not), a removal, and a call of [updateCoords] on an
    entity of the scene. *)
Inductive Mutation :=
| Insert (x y myType v st : Z) (resp : bool)
| Remove (self : nat)
| Move (self : nat) (x y depth : Z).

Definition applyMutation (s : RoomScene) (m : Mutation) : option RoomScene :=
  match m with
  | Insert x y t v st resp =>
      match Entity_init s x y t v st resp with
      | Some (s', _) => Some s'
      | None => None
      end
  | Remove self => remove s self
  | Move self x y depth => updateCoords s self x y depth
  end.

End WithCollaborators.

End Editor.

(** ** RoomScene.getAdjacentEnts and the entity cache *)

Module Neighbours.
Import RoomInfo Scene.

(** The dictionary [lookup]: [ L, R, U, D, UL, DL, UR, DR ]. *)
Definition lookup (i : Z) : list (option nat) :=
  match i with
  | (-1) => [Some 4%nat; Some 2%nat; Some 6%nat]
  | 0 => [Some 0%nat; None; Some 1%nat]
  | 1 => [Some 5%nat; Some 3%nat; Some 7%nat]
  | _ => []
  end.

Definition spotOf (i k : Z) : option nat :=
  if k <? 0 then None else nth (Z.to_nat k) (lookup i) None.

(** [res[spot] = v] and [res[spot].append(item)] *)
Fixpoint setSpot {A} (spot : nat) (v : A) (res : list A) : list A :=
  match res, spot with
  | [], _ => []
  | _ :: rest, O => v :: rest
  | r :: rest, S n => r :: setSpot n v rest
  end.

Fixpoint appendSpot {A} (spot : nat) (item : A) (res : list (list A))
  : list (list A) :=
  match res, spot with
  | [], _ => []
  | r :: rest, O => (r ++ [item]) :: rest
  | r :: rest, S n => r :: appendSpot n item rest
  end.

(** Reading a cache entry: the entities its references point at now. *)
Definition deref (s : RoomScene) (us : list nat) : list Entity :=
  flat_map (fun u => match findEnt s u with Some e => [e] | None => [] end) us.

Definition cacheAt (s : RoomScene) (idx : Z) : list Entity :=
  deref s (nth (Z.to_nat idx) (entCache s) []).

(** The nine [(i, j)] of the two nested [range(-1, 2)] loops. *)
Definition offsets : list (Z * Z) :=
  [(-1,-1); (-1,0); (-1,1); (0,-1); (0,0); (0,1); (1,-1); (1,0); (1,1)].

Definition cachedStep (s : RoomScene) (x y : Z) (res : list (list Entity))
  (ij : Z * Z) : list (list Entity) :=
  let '(i, j) := ij in
  match spotOf i (j + 1) with
  | None => res
  | Some spot =>
      let idx := gridIndex (x + j) (y + i) (roomWidth s) in
      if (idx <? 0) || (idx >=? roomWidth s * roomHeight s) then res
      else setSpot spot (cacheAt s idx) res
  end.

Definition directItem (x y yc : Z) (res : list (list Entity)) (item : Entity)
  : list (list Entity) :=
  let xc := entX item in
  let i := (xc - x) + 1 in
  if (i >? -1) && (i <? 3) then
    match spotOf (yc - y) i with
    | Some spot => appendSpot spot item res
    | None => res
    end
  else res.

Definition directRow (s : RoomScene) (x y : Z) (res : list (list Entity))
  (yc : Z) : list (list Entity) :=
  if (yc <? 0) || (yc >=? roomHeight s) then res
  else fold_left (directItem x y yc) (childItems s yc) res.

Definition getAdjacentEnts (s : RoomScene) (x y : Z) (useCache : bool)
  : list (list Entity) :=
  let res := repeat [] 8 in
  if useCache then fold_left (cachedStep s x y) offsets res
  else fold_left (directRow s x y) [y - 1; y; y + 1] res.

(** [entCache[idx].append(item)].  An index at or above the length is an
    IndexError; a negative one would wrap around in Python and is not
    followed here (the entities of a room have coordinates inside it). *)
Definition cacheAppend (idx : Z) (u : nat) (c : list (list nat))
  : option (list (list nat)) :=
  if (0 <=? idx) && (idx <? Z.of_nat (List.length c))
  then Some (appendSpot (Z.to_nat idx) u c)
  else None.

Fixpoint fillCache (w : Z) (items : list Entity) (c : list (list nat))
  : option (list (list nat)) :=
  match items with
  | [] => Some c
  | item :: rest =>
      match cacheAppend (gridIndex (entX item) (entY item) w) (uid item) c with
      | Some c' => fillCache w rest c'
      | None => None
      end
  end.

(** The start of [RoomScene.drawBackground]: every stack is cleared and
    every entity of the scene is appended to the stack of its cell. *)
Definition rebuildEntCache (s : RoomScene) : option RoomScene :=
  match fillCache (roomWidth s) (sceneEntities s)
          (map (fun _ => []) (entCache s)) with
  | Some c => Some (setEntCache s c)
  | None => None
  end.

End Neighbours.

(** ** The tile resolvers: Entity.getPitFrame and Entity.setRockFrame *)

Module Autotile.
Import RoomInfo Scene Neighbours.

(** The local function [matchInStack] of [getPitFrame]. *)
Fixpoint matchInStack (pitImg : string) (stack : list Entity) : bool :=
  match stack with
  | [] => false
  | ent :: rest =>
      if String.eqb (currentImg ent) pitImg then true
      else matchInStack pitImg rest
  end.

(** One line [if guard: F = v] of the rule list. *)
Definition rule (guard : bool) (v : Z) (F : Z) : Z := if guard then v else F.

(** The body of [getPitFrame] after the neighbours have been read. *)
Definition pitFrame (L R U D UL DL UR DR hasExtraFrames : bool) : Z :=
  let n := negb in
  let F := 0 in
  let F := if L then Z.lor F 1 else F in
  let F := if U then Z.lor F 2 else F in
  let F := if R then Z.lor F 4 else F in
  let F := if D then Z.lor F 8 else F in
  let F := rule (U && L && n UL && n R && n D) 17 F in
  let F := rule (U && R && n UR && n L && n D) 18 F in
  let F := rule (L && D && n DL && n U && n R) 19 F in
  let F := rule (R && D && n DR && n L && n U) 20 F in
  let F := rule (L && U && R && D && n UL) 21 F in
  let F := rule (L && U && R && D && n UR) 22 F in
  let F := rule (U && R && D && n L && n UR) 25 F in
  let F := rule (L && U && D && n R && n UL) 26 F in
  let F := rule (hasExtraFrames && (U && L && D && UL && n DL)) 35 F in
  let F := rule (hasExtraFrames && (U && R && D && UR && n DR)) 36 F in
  let F := rule (L && U && R && D && n DL && n DR) 24 F in
  let F := rule (L && U && R && D && n UR && n UL) 23 F in
  let F := rule (L && U && R && UL && n UR && n D) 27 F in
  let F := rule (L && U && R && UR && n UL && n D) 28 F in
  let F := rule (L && U && R && n D && n UR && n UL) 29 F in
  let F := rule (L && R && D && DL && n U && n DR) 30 F in
  let F := rule (L && R && D && DR && n U && n DL) 31 F in
  let F := rule (L && R && D && n U && n DL && n DR) 32 F in
  let x := hasExtraFrames in
  let F := rule (x && (U && R && D && n L && n UR && n DR)) 33 F in
  let F := rule (x && (U && L && D && n R && n UL && n DL)) 34 F in
  let F := rule (x && (U && R && D && L && UL && UR && DL && n DR)) 37 F in
  let F := rule (x && (U && R && D && L && UL && UR && DR && n DL)) 38 F in
  let F := rule (x && (U && R && D && L && n UL && n UR && n DR && n DL)) 39 F in
  let F := rule (x && (U && R && D && L && DL && DR && n UL && n UR)) 40 F in
  let F := rule (x && (U && R && D && L && DL && UR && n UL && n DR)) 41 F in
  let F := rule (x && (U && R && D && L && UL && DR && n DL && n UR)) 42 F in
  let F := rule (x && (U && R && D && L && UL && n DL && n UR && n DR)) 43 F in
  let F := rule (x && (U && R && D && L && UR && n UL && n DL && n DR)) 44 F in
  let F := rule (x && (U && R && D && L && DL && n UL && n UR && n DR)) 45 F in
  let F := rule (x && (U && R && D && L && DR && n UL && n UR && n DL)) 46 F in
  let F := rule (x && (U && R && D && L && DL && DR && n UL && n UR)) 47 F in
  let F := rule (x && (U && R && D && L && DL && UL && n UR && n DR)) 48 F in
  let F := rule (x && (U && R && D && L && DR && UR && n UL && n DL)) 49 F in
  F.

(** [Entity.getPitFrame]; [hasExtraFrames] is
    [self.entity.pixmap.height() > 260]. *)
Definition getPitFrame (s : RoomScene) (self : Entity) (pitImg : string)
  (hasExtraFrames : bool) : Z :=
  let adjEnts := getAdjacentEnts s (entX self) (entY self) true in
  let m k := matchInStack pitImg (nth k adjEnts []) in
  pitFrame (m 0%nat) (m 1%nat) (m 2%nat) (m 3%nat)
           (m 4%nat) (m 5%nat) (m 6%nat) (m 7%nat) hasExtraFrames.

(** The local function [findMatchInStack] of [setRockFrame]. *)
Fixpoint findMatchInStack (rockImg : string) (stack : list Entity)
  : option Entity :=
  match stack with
  | [] => None
  | ent :: rest =>
      if String.eqb (currentImg ent) rockImg then Some ent
      else findMatchInStack rockImg rest
  end.

(** [X is not None and X.entity.rockFrame is None] *)
Definition unassigned (X : option Entity) : bool :=
  match X with
  | Some e => match rockFrame e with None => true | Some _ => false end
  | None => false
  end.

(** The list [candidates] as [setRockFrame] builds it. *)
Definition rockCandidates (rockImg : string)
  (right down downRight : list Entity) : list string :=
  let candidates := [] in
  let R := findMatchInStack rockImg right in
  let candidates :=
    if unassigned R then candidates ++ ["2x1"%string] else candidates in
  let D := findMatchInStack rockImg down in
  let candidates :=
    if unassigned D then candidates ++ ["1x2"%string] else candidates in
  if Nat.eqb (List.length candidates) 2 then
    let DR := findMatchInStack rockImg downRight in
    if unassigned DR then candidates ++ ["2x2"%string] else candidates
  else candidates.

Definition assignFrame (u : nat) (f : Z) (s : RoomScene) : RoomScene :=
  setObjects s (updateEnt u (fun e => setRockFrameOf e (Some f)) (objects s)).

Definition assignPartner (X : option Entity) (f : Z) (s : RoomScene)
  : RoomScene :=
  match X with
  | Some e => assignFrame (uid e) f s
  | None => s
  end.

Section WithRandom.

(** What [random.randint(0, 2)] answers right after
    [random.seed(seed)], and what the [random.choice(candidates)] that
    follows it answers. *)
Variable randint : Z -> Z.
Variable choice : Z -> list string -> string.

(** [Entity.setRockFrame]; the [placeVisual] offsets, which are
    floating-point pairs, are left out. *)
Definition setRockFrame (s : RoomScene) (self : nat) (seed : Z) : RoomScene :=
  match findEnt s self with
  | None => s
  | Some me =>
      let s := assignFrame self (randint seed) s in
      if negb (Z.land seed 3 =? 0) then s
      else
        let rockImg := currentImg me in
        let adj := getAdjacentEnts s (entX me) (entY me) true in
        let right := nth 1 adj [] in
        let down := nth 3 adj [] in
        let downRight := nth 7 adj [] in
        let candidates := rockCandidates rockImg right down downRight in
        let R := findMatchInStack rockImg right in
        let D := findMatchInStack rockImg down in
        let DR := findMatchInStack rockImg downRight in
        match candidates with
        | [] => s
        | _ =>
            let c := choice seed candidates in
            if String.eqb c "2x1"%string then
              assignPartner R 4 (assignFrame self 3 s)
            else if String.eqb c "1x2"%string then
              assignPartner D 6 (assignFrame self 5 s)
            else if String.eqb c "2x2"%string then
              assignPartner DR 10
                (assignPartner D 9
                   (assignPartner R 8 (assignFrame self 7 s)))
            else s
        end
  end.

(** The rock pass of [RoomScene.drawBackground]: the cache entries in
    index order, each stack in order, every rock that has no frame yet. *)
Definition rockVisit (seed : Z) (i : Z) (s : RoomScene) (u : nat)
  : RoomScene :=
  match findEnt s u with
  | Some ent =>
      if renderRock ent && (match rockFrame ent with
                            | None => true
                            | Some _ => false
                            end)
      then setRockFrame s u (seed + i)
      else s
  | None => s
  end.

Fixpoint rockSweepFrom (seed : Z) (i : Z) (stacks : list (list nat))
  (s : RoomScene) : RoomScene :=
  match stacks with
  | [] => s
  | stack :: rest =>
      rockSweepFrom seed (i + 1) rest
        (fold_left (rockVisit seed i) stack s)
  end.

Definition rockSweep (s : RoomScene) (seed : Z) : RoomScene :=
  rockSweepFrom seed 0 (entCache s) s.

End WithRandom.

End Autotile.

(** ** Vocabulary of the properties *)

Module Props.
Import RoomInfo Scene Editor Neighbours Autotile.

Definition doorItem_eqb (a b : DoorItem) : bool :=
  (doorX a =? doorX b) && (doorY a =? doorY b)
    && Bool.eqb (doorExists a) (doorExists b).

(** The entries of [DoorWalls] recorded for one door. *)
Definition assocsOf (sh : Shape) (door : DoorItem)
  : list (DoorItem * Wall * Axis) :=
  filter (fun t => doorItem_eqb (fst (fst t)) door) (DoorWalls sh).

(** A door lies on a wall of the given axis: its span coordinate is inside
    [[wMin, wMax]] and its cross coordinate is the wall's level. *)
Definition liesOn (sh : Shape) (door : DoorItem) (wall : Wall) (axis : Axis)
  : Prop :=
  match axis with
  | AxisX => In wall (WallsX sh)
             /\ wMin wall <= doorX door <= wMax wall
             /\ doorY door = wLvl wall
  | AxisY => In wall (WallsY sh)
             /\ wMin wall <= doorY door <= wMax wall
             /\ doorX door = wLvl wall
  end.

Definition axis_eqb (a b : Axis) : bool :=
  match a, b with
  | AxisX, AxisX | AxisY, AxisY => true
  | _, _ => false
  end.

Definition wall_eqb (a b : Wall) : bool :=
  (wMin a =? wMin b) && (wMax a =? wMax b) && (wLvl a =? wLvl b)
    && (wDir a =? wDir b).

Definition liesOnb (sh : Shape) (door : DoorItem) (wall : Wall) (axis : Axis)
  : bool :=
  match axis with
  | AxisX => existsb (wall_eqb wall) (WallsX sh)
             && (wMin wall <=? doorX door) && (doorX door <=? wMax wall)
             && (doorY door =? wLvl wall)
  | AxisY => existsb (wall_eqb wall) (WallsY sh)
             && (wMin wall <=? doorY door) && (doorY door <=? wMax wall)
             && (doorX door =? wLvl wall)
  end.

(** The check of one door, as a computation. *)
Definition doorOk (sh : Shape) (door : DoorItem) : bool :=
  match assocsOf sh door with
  | [(d, wall, axis)] => doorItem_eqb d door && liesOnb sh door wall axis
  | _ => false
  end.

Definition shapeOk (sh : Shape) : bool := forallb (doorOk sh) (shapeDoors sh).

(** [snapToBounds] read as "every segment is judged against the point that
    was passed in, and the last violated segment of an axis wins". *)
Definition snapIndependent (info : Info) (x y dist : Z) : Z * Z :=
  let y' := fold_left
              (fun acc w => if negb (_axisBounds x y w)
                            then wLvl w + wDir w * dist else acc)
              (WallsX (shapeData info)) y in
  let x' := fold_left
              (fun acc w => if negb (_axisBounds y x w)
                            then wLvl w + wDir w * dist else acc)
              (WallsY (shapeData info)) x in
  (x', y').

(** [c'] is what a run over [ws] leaves of [c]: either no segment is
    violated and [c' = c], or [c'] is the assignment of the last segment
    that was violated at the value the segments before it had left, and no
    later segment is violated at [c']. *)
Definition lastViolatedWins (run : Z -> list Wall -> Z)
  (violated : Z -> Wall -> bool) (dist : Z) (ws : list Wall) (c c' : Z)
  : Prop :=
  (c' = c /\ Forall (fun w => violated c w = false) ws)
  \/ exists pre w post,
       ws = pre ++ w :: post
       /\ violated (run c pre) w = true
       /\ c' = wLvl w + wDir w * dist
       /\ Forall (fun w' => violated c' w' = false) post.

(** The placements of one cell and their depths. *)
Definition atCell (x y : Z) (e : Entity) : bool :=
  (entX e =? x) && (entY e =? y).

Definition cellEntities (s : RoomScene) (x y : Z) : list Entity :=
  filter (atCell x y) (sceneEntities s).

Definition depthsAt (s : RoomScene) (x y : Z) : list Z :=
  map zValue (cellEntities s x y).

(** The depths are exactly the set {0, ..., N-1}. *)
Definition denseDepths (ds : list Z) : Prop :=
  Permutation ds (map Z.of_nat (seq 0 (List.length ds))).

(** A scene as the editor keeps it: distinct objects, each a child of the
    row of its [y] and inside the room, and one cache entry per cell. *)
Definition wellFormed (s : RoomScene) : Prop :=
  NoDup (map uid (objects s))
  /\ Forall (fun e => parentItem e = Some (entY e)
                       /\ 0 <= entX e < roomWidth s
                       /\ 0 <= entY e < roomHeight s) (objects s)
  /\ Z.of_nat (List.length (entCache s)) = roomWidth s * roomHeight s.


(** A stack holds a placement with the given image and no rock frame. *)
Definition holdsUnassignedMatch (rockImg : string) (stack : list Entity)
  : Prop :=
  exists e, In e stack /\ currentImg e = rockImg /\ rockFrame e = None.

(** The first placement of the stack with the given image has no rock
    frame yet. *)
Definition firstMatchUnassigned (rockImg : string) (stack : list Entity)
  : bool :=
  unassigned (findMatchInStack rockImg stack).

(** Door by door: the position is kept and a closed door is still
    closed. *)
Definition closedStayClosed (before after : list Door) : Prop :=
  Forall2 (fun d d' => doorX (doorItem d) = doorX (doorItem d')
                       /\ doorY (doorItem d) = doorY (doorItem d')
                       /\ (exists_ d = false -> exists_ d' = false))
          before after.

End Props.

(** ** Sample collaborators and rooms *)

Module Examples.
Import RoomInfo Scene Editor Neighbours Autotile Props.

(** A registry in which every type above 999 is a grid entity, type 1000 is
    a rock, and every entity blocks doors. *)
Definition registry (t v st : Z) : EntityConfig :=
  mkConfig (999 <? t) true (t =? 1000)
           (if t =? 1000 then "rocks.png"%string else "entity.png"%string).

(** Collision read as "the other entities of the same cell". *)
Definition sameCellItems (s : RoomScene) (e : Entity) : list Entity :=
  filter (fun o => atCell (entX e) (entY e) o
                   && negb (Nat.eqb (uid o) (uid e)))
         (sceneEntities s).

Definition emptyScene : RoomScene :=
  mkScene (mkInfo 0 (mkShape [] [] [] None None None None (0, 0)) None [])
          0 0 [] [] [].

(** The empty scene of a shape, with its doors. *)
Definition sceneOf (shapeId : Z) : RoomScene :=
  match newRoomSize shapeId with
  | Some s => s
  | None => emptyScene
  end.

Definition andThen {A B} (o : option A) (f : A -> option B) : option B :=
  match o with
  | Some a => f a
  | None => None
  end.

(** One right click at a cell: [mousePressEvent] empties [lastTile] and
    calls [tryToPaint]. *)
Definition paintAt (x y t : Z) (s : RoomScene) : option RoomScene :=
  andThen (tryToPaint registry sameCellItems s (Some (mkPaint t 0 0)) x y false [])
          (fun r => Some (fst r)).

(** An entity made by [Entity(x, y, t, 0, 0, ...)]. *)
Definition spawnAt (x y t : Z) (s : RoomScene) : option RoomScene :=
  andThen (Entity_init registry sameCellItems s x y t 0 0 false)
          (fun r => Some (fst r)).

(** The entity [u] dragged to a cell. *)
Definition dragTo (u : nat) (x y : Z) (s : RoomScene) : option RoomScene :=
  itemChange sameCellItems s u x y false.

Fixpoint times {A} (n : nat) (f : A -> option A) (a : A) : option A :=
  match n with
  | O => Some a
  | S n' => andThen (f a) (times n' f)
  end.

(** A rock as the scene holds it. *)
Definition rockAt (u : nat) (x y : Z) (frame : option Z) : Entity :=
  mkEntity u x y 1000 true true true "rocks.png"%string frame (Some y) 0 1 false.

(** A plain entity with a given [stackDepth]. *)
Definition plainAt (u : nat) (x y sd : Z) : Entity :=
  mkEntity u x y 10 false true false "entity.png"%string None (Some y) 0 sd false.

(** Two right clicks on the empty cell (3, 3) of a 1x1 room. *)
Definition twoPaints : option RoomScene :=
  andThen (paintAt 3 3 10 (sceneOf 1)) (paintAt 3 3 10).

(** Cell (3, 3) filled by moves: an entity is created there, and two more
    are created next to it and dragged in, one after the other. *)
Definition threeDeep : option RoomScene :=
  andThen (andThen (andThen (andThen (spawnAt 3 3 10 (sceneOf 1))
    (spawnAt 4 3 10)) (dragTo 2 3 3)) (spawnAt 4 3 10)) (dragTo 3 3 3).

(** Twenty-five right clicks on cell (3, 3). *)
Definition fullCell : option RoomScene :=
  times 25 (paintAt 3 3 10) (sceneOf 1).

(** After them, one entity is painted next to the cell and dragged into it,
    and the entity painted 25th is deleted: the cell holds 25 entities. *)
Definition staleCell : option RoomScene :=
  andThen (andThen (andThen fullCell (paintAt 4 3 10)) (dragTo 26 3 3))
          (fun s => remove s 25).

(** A 1x1 room with one entity in the last column of row 3, drawn once. *)
Definition edgeScene : option RoomScene :=
  andThen (spawnAt 14 3 10 (sceneOf 1)) rebuildEntCache.

(** Two rocks stacked on (3, 3) and two on (4, 3), drawn once. *)
Definition stackedRocks : option RoomScene :=
  andThen (andThen (andThen (andThen (spawnAt 3 3 1000 (sceneOf 1))
    (spawnAt 3 3 1000)) (spawnAt 4 3 1000)) (spawnAt 4 3 1000))
    rebuildEntCache.

(** A [random.choice] that answers the first candidate. *)
Definition firstChoice (seed : Z) (candidates : list string) : string :=
  hd ""%string candidates.

Definition orEmpty (o : option RoomScene) : RoomScene :=
  match o with
  | Some s => s
  | None => emptyScene
  end.

(** A 1x1 room with one entity in front of its top door. *)
Definition blockedScene : RoomScene := orEmpty (spawnAt 7 1 10 (sceneOf 1)).

(** The doors of a 1x1 room after the one at (7, 0). *)
Definition otherDoors : list Door :=
  [mkDoor (mkDoorItem 0 4 true) 0; mkDoor (mkDoorItem 14 4 true) 0;
   mkDoor (mkDoorItem 7 8 true) 0].

End Examples.

(** ** Door items on screen *)

Module DoorSprite.
Import RoomInfo.

(** [Door.__init__]: the rotation given to the door image, chosen from the
    door's coordinates alone. *)
Definition doorRotation (doorItem : DoorItem) : Z :=
  if (doorX doorItem =? 0) || (doorX doorItem =? 13) then 270
  else if (doorX doorItem =? 14) || (doorX doorItem =? 27) then 90
  else if (doorY doorItem =? 8) || (doorY doorItem =? 15) then 180
  else 0.

(** The position [setPos] and [moveBy] leave the item at. *)
Definition doorPos (doorItem : DoorItem) : Z * Z :=
  let px := doorX doorItem * 26 - 13 in
  let py := doorY doorItem * 26 - 13 in
  if (doorX doorItem =? 0) || (doorX doorItem =? 13) then (px - 13, py)
  else if (doorX doorItem =? 14) || (doorX doorItem =? 27) then (px + 13, py)
  else if (doorY doorItem =? 8) || (doorY doorItem =? 15) then (px, py + 13)
  else (px, py - 13).

End DoorSprite.

(** ** More vocabulary *)

Module Terms.
Import RoomInfo Scene Editor Neighbours Autotile Props.

(** [range(n)] *)
Definition zrange (n : Z) : list Z := map Z.of_nat (seq 0 (Z.to_nat n)).

(** A cell of the room grid, whose size is [dims]. *)
Definition inGrid (info : Info) (x y : Z) : bool :=
  (0 <=? x) && (x <? fst (dims info)) && (0 <=? y) && (y <? snd (dims info)).

Definition gridCells (info : Info) : list (Z * Z) :=
  flat_map (fun y => map (fun x => (x, y)) (zrange (fst (dims info))))
           (zrange (snd (dims info))).

(** The cell one step from a door along the normal of its wall. *)
Definition frontCell (door : DoorItem) (wall : Wall) (axis : Axis) : Z * Z :=
  match axis with
  | AxisX => (doorX door, doorY door + wDir wall)
  | AxisY => (doorX door + wDir wall, doorY door)
  end.

(** The rotation that turns the door image towards the inside of a wall:
    none for a top wall, 180 for a bottom wall, 270 for a left wall and 90
    for a right wall. *)
Definition facing (wall : Wall) (axis : Axis) : Z :=
  match axis with
  | AxisX => if wDir wall =? 1 then 0 else 180
  | AxisY => if wDir wall =? 1 then 270 else 90
  end.

(** The cell [tryToPaint] aims at. *)
Definition paintTarget (s : RoomScene) (cx cy : Z) (snap : bool) : Z * Z :=
  let x := Z.min (Z.max cx 0) (roomWidth s - 1) in
  let y := Z.min (Z.max cy 0) (roomHeight s - 1) in
  if snap then snapToBounds (roomInfo s) x y 1 else (x, y).

(** No cell holds two entities of a type above 999. *)
Definition gridExclusive (s : RoomScene) : Prop :=
  forall x y,
    (List.length (filter (fun e => entType e >? 999) (cellEntities s x y)) <= 1)%nat.

(** The position of a door. *)
Definition doorXY (d : Door) : Z * Z := (doorX (doorItem d), doorY (doorItem d)).

(** The entity counts against the door: it blocks doors and [inFrontOfDoor]
    answers the door's position for its cell. *)
Definition blocksThis (info : Info) (d : Door) (blocks : bool) (x y : Z) : bool :=
  blocks
  && match inFrontOfDoor info x y with
     | Some blockedDoor => sameXY (doorItem d) blockedDoor
     | None => false
     end.

Definition blockers (s : RoomScene) (d : Door) : Z :=
  Z.of_nat
    (List.length
       (filter (fun e => blocksThis (roomInfo s) d (blocksDoor e) (entX e) (entY e))
               (sceneEntities s))).

(** Every door counts exactly the entities that stand against it, and no
    two doors share a position. *)
Definition countsExact (s : RoomScene) : Prop :=
  NoDup (map doorXY (doorItems s))
  /\ Forall (fun d => blockingCount d = blockers s d) (doorItems s).

(** The scene shows a room of the shape table, at its size. *)
Definition tableRoom (s : RoomScene) : Prop :=
  (exists id, newInfo id = Some (roomInfo s))
  /\ dims (roomInfo s) = (roomWidth s, roomHeight s).

(** What the bookkeeping of a scene depends on in an entity. *)
Record Skeleton := mkSkeleton {
  kUid : nat; kX : Z; kY : Z; kParent : option Z; kBlocks : bool
}.

Definition skeleton (e : Entity) : Skeleton :=
  mkSkeleton (uid e) (entX e) (entY e) (parentItem e) (blocksDoor e).

Definition skeletons (s : RoomScene) : list Skeleton := map skeleton (objects s).

(** The checks of one cell and of one door, and of the whole table, as
    computations. *)
Definition snapOk (info : Info) (c : Z * Z) : bool :=
  let p := snapToBounds info (fst c) (snd c) 1 in
  let q := snapToBounds info (fst p) (snd p) 1 in
  inGrid info (fst p) (snd p)
  && isInBounds info (fst q) (snd q)
  && ((shape info =? 3) || (shape info =? 5) || isInBounds info (fst p) (snd p)).

Definition tableCheck (check : Info -> bool) : bool :=
  forallb (fun p => match newInfo (fst p) with
                    | Some info => check info
                    | None => false
                    end) Shapes.

Definition doorFrontOk (info : Info) (t : DoorItem * Wall * Axis) : bool :=
  let '(door, wall, axis) := t in
  let c := frontCell door wall axis in
  negb (isInBounds info (doorX door) (doorY door))
  && isInBounds info (fst c) (snd c)
  && match inFrontOfDoor info (fst c) (snd c) with
     | Some d => doorItem_eqb d door
     | None => false
     end
  && (DoorSprite.doorRotation door =? facing wall axis).

(** The [Room.Info] of a shape of the table. *)
Definition infoOf (shapeId : Z) : Info :=
  match newInfo shapeId with
  | Some info => info
  | None => mkInfo 0 (mkShape [] [] [] None None None None (0, 0)) None []
  end.

(** An entity's skeleton once the entity [self] has been put at [(x, y)]
    under the row [r]. *)
Definition relocate (self : nat) (x y : Z) (r : Z) (k : Skeleton) : Skeleton :=
  if Nat.eqb (kUid k) self
  then mkSkeleton (kUid k) x y (Some r) (kBlocks k)
  else k.

(** The room of the scene and its cache are the same. *)
Definition sameRoom (s s' : RoomScene) : Prop :=
  roomInfo s' = roomInfo s /\ roomWidth s' = roomWidth s
  /\ roomHeight s' = roomHeight s /\ entCache s' = entCache s.

Definition wfSkeleton (w h : Z) (k : Skeleton) : Prop :=
  kParent k = Some (kY k) /\ 0 <= kX k < w /\ 0 <= kY k < h.

(** The entity is in the scene and counts against the door. *)
Definition counted (info : Info) (d : Door) (k : Skeleton) : bool :=
  match kParent k with Some _ => true | None => false end
  && blocksThis info d (kBlocks k) (kX k) (kY k).

(** A door before and after one call of [updateBlockedDoor]. *)
Definition stepped (info : Info) (blocks : bool) (x y : Z) (val : bool)
  (d d' : Door) : Prop :=
  doorXY d' = doorXY d
  /\ blockingCount d'
     = blockingCount d
       + (if val then -1 else 1) * Z.b2z (blocksThis info d blocks x y).

Fixpoint distinctb (l : list (Z * Z)) : bool :=
  match l with
  | [] => true
  | p :: rest =>
      negb (existsb (fun q => (fst p =? fst q) && (snd p =? snd q)) rest)
      && distinctb rest
  end.

(** What a new scene needs of its shape: a size that is not negative and no
    two doors at one position. *)
Definition newRoomOk (info : Info) : bool :=
  (0 <=? fst (dims info) * snd (dims info))
  && distinctb (map (fun d => (doorX d, doorY d)) (doors info)).

(** The bookkeeping of a scene is sound: it is well formed, its doors count
    exactly, and it shows a room of the shape table. *)
Definition tracked (s : RoomScene) : Prop :=
  wellFormed s /\ countsExact s /\ tableRoom s.

(** A depth once the depth [z] has left its stack. *)
Definition closeGap (z v : Z) : Z := if v >? z then v - 1 else v.

(** An object once the entity [self], which stood at [(x0, y0)] with depth
    [z], has been moved to [(x, y)] with depth [m]. *)
Definition afterMove (self : nat) (x0 y0 z x y m : Z) (e : Entity) : Entity :=
  if Nat.eqb (uid e) self
  then setXY (setZValue (setParentItem e (Some y)) m) x y
  else if inCoord self x0 y0 e && (zValue e >? z)
       then setZValue e (zValue e - 1)
       else e.

(** An entity before and after frames have been given to the entities
    [U]: nothing but the frame changes, it changes for the entities of [U]
    only, and a frame that was set is still set. *)
Definition frameStep (U : list nat) (e e' : Entity) : Prop :=
  e' = setRockFrameOf e (rockFrame e')
  /\ (~ In (uid e) U -> rockFrame e' = rockFrame e)
  /\ (rockFrame e <> None -> rockFrame e' <> None).

Definition sameExcept (U : list nat) (s s' : RoomScene) : Prop :=
  entCache s' = entCache s
  /\ roomWidth s' = roomWidth s /\ roomHeight s' = roomHeight s
  /\ Forall2 (frameStep U) (objects s) (objects s').

(** Every frame that was set is kept as it was. *)
Definition framesKept (s s' : RoomScene) : Prop :=
  entCache s' = entCache s
  /\ Forall2 (fun e e' => e' = setRockFrameOf e (rockFrame e')
                          /\ forall f, rockFrame e = Some f -> rockFrame e' = Some f)
             (objects s) (objects s').

(** The entities the pairing writes to, besides the rock itself. *)
Definition optUid (X : option Entity) : list nat :=
  match X with
  | Some e => [uid e]
  | None => []
  end.

Definition partnersOf (c : string) (R D DR : option Entity) : list nat :=
  if String.eqb c "2x1" then optUid R
  else if String.eqb c "1x2" then optUid D
  else if String.eqb c "2x2" then optUid R ++ optUid D ++ optUid DR
  else [].

(** The entity [u] of the scene is a rock to render. *)
Definition isRock (s : RoomScene) (u : nat) : Prop :=
  exists e, findEnt s u = Some e /\ renderRock e = true.

(** The entity [u] of the scene has a rock frame. *)
Definition framed (s : RoomScene) (u : nat) : Prop :=
  exists e f, findEnt s u = Some e /\ rockFrame e = Some f.

(** The partners [setRockFrame] writes to, read on the scene its first
    assignment has left. *)
Definition rockPartners (choice : Z -> list string -> string)
  (s1 : RoomScene) (me : Entity) (seed : Z) : list nat :=
  if negb (Z.land seed 3 =? 0) then []
  else
    let img := currentImg me in
    let adj := getAdjacentEnts s1 (entX me) (entY me) true in
    match rockCandidates img (nth 1 adj []) (nth 3 adj []) (nth 7 adj []) with
    | [] => []
    | c0 :: cs =>
        partnersOf (choice seed (c0 :: cs))
          (findMatchInStack img (nth 1 adj []))
          (findMatchInStack img (nth 3 adj []))
          (findMatchInStack img (nth 7 adj []))
    end.

End Terms.

(** ** Editing sessions *)

Module Edits.
Import RoomInfo Scene Editor.

Section WithCollaborators.
Variable getEntityInfo : Z -> Z -> Z -> EntityConfig.
Variable collidingItems : RoomScene -> Entity -> list Entity.

(** What a user does to the entities of the open room: a right click that
    paints ([mousePressEvent], so with an empty [lastTile]); an entity
    dragged to a cell ([itemChange]); an entity deleted ([keyPressEvent],
    [cut]); an entity created outright ([paste], or the respawning loop of
    [handleSelectedRoomChanged] and [changeSize]). *)
Inductive Edit :=
| Paint (paint : PaintItem) (cx cy : Z) (snap : bool)
| Drag (self : nat) (cx cy : Z) (snap : bool)
| Delete (self : nat)
| Spawn (x y myType v st : Z) (resp : bool)
| Toggle (door : nat).

Definition applyEdit (s : RoomScene) (e : Edit) : option RoomScene :=
  match e with
  | Paint paint cx cy snap =>
      match tryToPaint getEntityInfo collidingItems s (Some paint) cx cy snap [] with
      | Some (s', _) => Some s'
      | None => None
      end
  | Drag self cx cy snap => itemChange collidingItems s self cx cy snap
  | Delete self => remove s self
  | Spawn x y t v st resp =>
      match Entity_init getEntityInfo collidingItems s x y t v st resp with
      | Some (s', _) => Some s'
      | None => None
      end
  | Toggle door => Some (toggleDoor s door)
  end.

Fixpoint applyEdits (s : RoomScene) (es : list Edit) : option RoomScene :=
  match es with
  | [] => Some s
  | e :: rest =>
      match applyEdit s e with
      | Some s' => applyEdits s' rest
      | None => None
      end
  end.

End WithCollaborators.

End Edits.

(** ** The rooms of the list: spawns, reshaping, mirroring *)

Module Rooms.
Import RoomInfo Neighbours Terms.

(** A spawn, [[Type, Variant, Subtype, weight]]. *)
Record Spawn (Weight : Type) := mkSpawn {
  sType : Z; sVariant : Z; sSubtype : Z; sWeight : Weight
}.
Arguments mkSpawn {Weight}.
Arguments sType {Weight}.
Arguments sVariant {Weight}.
Arguments sSubtype {Weight}.
Arguments sWeight {Weight}.

(** A [Room]: its [info] and its [gridSpawns], one stack per cell. *)
Record Room (A : Type) := mkRoom {
  info : Info;
  gridSpawns : list (list A)
}.
Arguments mkRoom {A}.
Arguments info {A}.
Arguments gridSpawns {A}.

(** The position a Python list of length [len] reads or writes for the
    index [idx]: negative indices count from the end, anything else out of
    range raises IndexError. *)
Definition pyIndex (len idx : Z) : option nat :=
  if (0 <=? idx) && (idx <? len) then Some (Z.to_nat idx)
  else if (idx <? 0) && (0 <=? idx + len) then Some (Z.to_nat (idx + len))
  else None.

(** [l[idx]] *)
Definition getItem {A} (l : list A) (idx : Z) : option A :=
  match pyIndex (Z.of_nat (List.length l)) idx with
  | Some i => nth_error l i
  | None => None
  end.

(** [l[idx] = v] *)
Definition setItem {A} (l : list A) (idx : Z) (v : A) : option (list A) :=
  match pyIndex (Z.of_nat (List.length l)) idx with
  | Some i => Some (setSpot i v l)
  | None => None
  end.

(** [if stack:] *)
Definition nonEmpty {A} (stack : list A) : bool :=
  match stack with
  | [] => false
  | _ :: _ => true
  end.

(** The stack of the cell [(x, y)] of a grid of width [w], empty when the
    list has no such entry. *)
Definition stackAt {A} (g : list (list A)) (w x y : Z) : list A :=
  match getItem g (gridIndex x y w) with
  | Some stack => stack
  | None => []
  end.

(** [Room._SpawnIter], from the index [idx] on: the cells are visited in
    order until [idx >= width * height] or the list ends, and the stacks
    that are not empty are answered with [int(idx % width)] and
    [int(idx / width)]. *)
Fixpoint spawnsFrom {A} (w h idx : Z) (g : list (list A))
  : list (list A * Z * Z) :=
  match g with
  | [] => []
  | stack :: rest =>
      if idx >=? w * h then []
      else (if nonEmpty stack then [(stack, idx mod w, Z.quot idx w)] else [])
           ++ spawnsFrom w h (idx + 1) rest
  end.

(** [Room.spawns] *)
Definition spawns {A} (room : Room A) : list (list A * Z * Z) :=
  spawnsFrom (fst (dims (info room))) (snd (dims (info room))) 0
             (gridSpawns room).

Definition setDoors (i : Info) (ds : list DoorItem) : Info :=
  mkInfo (shape i) (shapeData i) (baseShapeData i) ds.

(** The body of the loop of [reshape]. *)
Definition reshapeStep {A} (realWidth gridLen : Z)
  (acc : option (list (list A))) (t : list A * Z * Z)
  : option (list (list A)) :=
  match acc with
  | None => None
  | Some newGridSpawns =>
      let '(stack, x, y) := t in
      let idx := gridIndex x y realWidth in
      if idx <? gridLen then setItem newGridSpawns idx stack
      else Some newGridSpawns
  end.

(** [Room.reshape(shape, doors)].  The iterator is made before the shape is
    set, so it walks the old grid with the old dimensions; the shape setter
    fails on a shape that is not in the table; [doors] replaces the doors of
    the new shape when it is given and not empty. *)
Definition reshape {A} (room : Room A) (shape : Z)
  (doors : option (list DoorItem)) : option (Room A) :=
  let spawnIter := spawns room in
  match newInfo shape with
  | None => None
  | Some info1 =>
      let info2 := match doors with
                   | Some (d :: ds) => setDoors info1 (d :: ds)
                   | _ => info1
                   end in
      let realWidth := fst (dims info2) in
      let gridLen := gridLen info2 in
      let newGridSpawns := repeat [] (Z.to_nat gridLen) in
      match fold_left (reshapeStep realWidth gridLen) spawnIter
                      (Some newGridSpawns) with
      | None => None
      | Some g => Some (mkRoom info2 g)
      end
  end.

(** The three statements that swap two cells. *)
Definition swapItems {A} (g : list A) (o m : Z) : option (list A) :=
  match getItem g o with
  | None => None
  | Some os =>
      match getItem g m with
      | None => None
      | Some ms =>
          match setItem g o ms with
          | None => None
          | Some g1 => setItem g1 m os
          end
      end
  end.

Definition swapStep {A} (o m : Z) (acc : option (list A)) : option (list A) :=
  match acc with
  | None => None
  | Some g => swapItems g o m
  end.

(** "Flip Spawns" of [mirrorX]: for each row, the columns of the left half
    are swapped with their mirror images. *)
Definition flipSpawnsX {A} (width height : Z) (g : list (list A))
  : option (list (list A)) :=
  fold_left
    (fun acc y =>
       fold_left
         (fun acc x =>
            swapStep (gridIndex x y width) (gridIndex (width - x - 1) y width) acc)
         (zrange (Z.quot width 2)) acc)
    (zrange height) (Some g).

(** "Flip Spawns" of [mirrorY]: for each column, the rows of the upper half
    are swapped with their mirror images. *)
Definition flipSpawnsY {A} (width height : Z) (g : list (list A))
  : option (list (list A)) :=
  fold_left
    (fun acc x =>
       fold_left
         (fun acc y =>
            swapStep (gridIndex x y width) (gridIndex x (height - y - 1) width) acc)
         (zrange (Z.quot height 2)) acc)
    (zrange width) (Some g).

(** "Flip Directional Entities": every spawn of every stack the iterator
    visits is rewritten in place. *)
Fixpoint flipFrom {A} (f : A -> A) (w h idx : Z) (g : list (list A))
  : list (list A) :=
  match g with
  | [] => []
  | stack :: rest =>
      if idx >=? w * h then g
      else map f stack :: flipFrom f w h (idx + 1) rest
  end.

(** The spawn once its first three entries are those of its mirror image,
    if the registry names one. *)
Definition flipSpawn {Weight} (mirrorOf : Z -> Z -> Z -> option (Z * Z * Z))
  (spawn : Spawn Weight) : Spawn Weight :=
  match mirrorOf (sType spawn) (sVariant spawn) (sSubtype spawn) with
  | Some (t, v, s) => mkSpawn t v s (sWeight spawn)
  | None => spawn
  end.

Definition setDoorX (door : DoorItem) (x : Z) : DoorItem :=
  mkDoorItem x (doorY door) (doorExists door).

Definition setDoorY (door : DoorItem) (y : Z) : DoorItem :=
  mkDoorItem (doorX door) y (doorExists door).

(** What mirroring needs of a shape of the table: a size that is positive,
    and mirror shapes that are in the table with the same size. *)
Definition mirrorTarget (info : Info) (m : option Z) : bool :=
  match m with
  | None => true
  | Some sh =>
      negb (sh =? 0)
      && match newInfo sh with
         | Some info1 =>
             (fst (dims info1) =? fst (dims info))
             && (snd (dims info1) =? snd (dims info))
         | None => false
         end
  end.

Definition mirrorOk (info : Info) : bool :=
  (0 <? fst (dims info)) && (0 <? snd (dims info))
  && mirrorTarget info (MirrorX (shapeData info))
  && mirrorTarget info (MirrorY (shapeData info)).

(** The mirror shape of a mirror shape is the shape itself. *)
Definition mirrorsBack (info : Info) (pick : Shape -> option Z) : bool :=
  match pick (shapeData info) with
  | None => true
  | Some sh =>
      match shapeOf sh with
      | Some data =>
          match pick data with
          | Some back => back =? shape info
          | None => false
          end
      | None => false
      end
  end.

Definition mirrorBackOk (info : Info) : bool :=
  mirrorsBack info MirrorX && mirrorsBack info MirrorY.

Section WithRegistry.
Context {Weight : Type}.

(** [info.mirrorX] and [info.mirrorY] after [info.changeTo(t, v, s)]. *)
Variable mirrorXOf : Z -> Z -> Z -> option (Z * Z * Z).
Variable mirrorYOf : Z -> Z -> Z -> option (Z * Z * Z).

(** [Room.mirrorX] *)
Definition mirrorX (room : Room (Spawn Weight)) : option (Room (Spawn Weight)) :=
  let '(width, height) := dims (info room) in
  match flipSpawnsX width height (gridSpawns room) with
  | None => None
  | Some g =>
      let doors1 := map (fun door => setDoorX door (width - doorX door - 1))
                        (doors (info room)) in
      let g1 := flipFrom (flipSpawn mirrorXOf) width height 0 g in
      let room1 := mkRoom (setDoors (info room) doors1) g1 in
      match MirrorX (shapeData (info room)) with
      | Some shape =>
          if shape =? 0 then Some room1 else reshape room1 shape (Some doors1)
      | None => Some room1
      end
  end.

(** [Room.mirrorY] *)
Definition mirrorY (room : Room (Spawn Weight)) : option (Room (Spawn Weight)) :=
  let '(width, height) := dims (info room) in
  match flipSpawnsY width height (gridSpawns room) with
  | None => None
  | Some g =>
      let doors1 := map (fun door => setDoorY door (height - doorY door - 1))
                        (doors (info room)) in
      let g1 := flipFrom (flipSpawn mirrorYOf) width height 0 g in
      let room1 := mkRoom (setDoors (info room) doors1) g1 in
      match MirrorY (shapeData (info room)) with
      | Some shape =>
          if shape =? 0 then Some room1 else reshape room1 shape (Some doors1)
      | None => Some room1
      end
  end.

End WithRegistry.

End Rooms.

(** ** Opening a room in the scene *)

Module Opening.
Import RoomInfo Scene Editor Terms Rooms.

Section WithCollaborators.
Context {Weight : Type}.
Variable getEntityInfo : Z -> Z -> Z -> EntityConfig.
Variable collidingItems : RoomScene -> Entity -> list Entity.

(** [Entity(x, y, ent[0], ent[1], ent[2], ent[3], respawning=True)] *)
Definition spawnEntity (x y : Z) (acc : option RoomScene) (ent : Spawn Weight)
  : option RoomScene :=
  match acc with
  | None => None
  | Some s =>
      match Entity_init getEntityInfo collidingItems s x y
              (sType ent) (sVariant ent) (sSubtype ent) true with
      | Some (s', _) => Some s'
      | None => None
      end
  end.

Definition spawnStack (acc : option RoomScene) (t : list (Spawn Weight) * Z * Z)
  : option RoomScene :=
  let '(stack, x, y) := t in fold_left (spawnEntity x y) stack acc.

(** [MainWindow.handleSelectedRoomChanged(current, prev)] on the scene: the
    scene is cleared and sized for the shape of the room, [Room.clearDoors]
    makes one [Door] per door of the room, and the spawns of the room are
    created as respawns, stack by stack. *)
Definition handleSelectedRoomChanged (current : Room (Spawn Weight))
  : option RoomScene :=
  match newRoomSize (shape (info current)) with
  | None => None
  | Some s0 =>
      let s1 := setDoorItems s0 (map (fun d => mkDoor d 0)
                                     (doors (info current))) in
      fold_left spawnStack (spawns current) (Some s1)
  end.

End WithCollaborators.

(** The types of the entities of a cell, in the order of the scene. *)
Definition typesAt (s : RoomScene) (x y : Z) : list Z :=
  map entType (Props.cellEntities s x y).

(** What a list of stacks puts on a cell. *)
Definition stackedAt {Weight} (L : list (list (Spawn Weight) * Z * Z)) (x y : Z)
  : list Z :=
  flat_map (fun t => if (snd (fst t) =? x) && (snd t =? y)
                     then map sType (fst (fst t)) else []) L.

(** The scene shows the room [i0] with the doors [ds], and its bookkeeping
    is sound. *)
Definition shows (i0 : Info) (ds : list DoorItem) (s : RoomScene) : Prop :=
  tracked s /\ roomInfo s = i0
  /\ roomWidth s = fst (dims i0) /\ roomHeight s = snd (dims i0)
  /\ map doorItem (doorItems s) = ds.

End Opening.

(** ** The room list: numbering and sorting *)

Module RoomList.

(** What the numbering reads and writes in a room of the list:
    [room.info.type] and [room.info.variant]; [listed] is the rest of the
    room. *)
Record Listed (A : Type) := mkListed {
  rType : Z;
  rVariant : Z;
  listed : A
}.
Arguments mkListed {A}.
Arguments rType {A}.
Arguments rVariant {A}.
Arguments listed {A}.

(** The dictionary [roomsByType]. *)
Fixpoint lookupType (d : list (Z * Z)) (t : Z) : option Z :=
  match d with
  | [] => None
  | (k, v) :: rest => if k =? t then Some v else lookupType rest t
  end.

Fixpoint storeType (d : list (Z * Z)) (t v : Z) : list (Z * Z) :=
  match d with
  | [] => [(t, v)]
  | (k, w) :: rest => if k =? t then (k, v) :: rest else (k, w) :: storeType rest t v
  end.

(** The body of the loop of [recomputeRoomIDs]. *)
Definition renumber {A} (roomsByType : list (Z * Z)) (room : Listed A)
  : list (Z * Z) * Listed A :=
  let roomsByType :=
    match lookupType roomsByType (rType room) with
    | None => storeType roomsByType (rType room) (rVariant room)
    | Some _ => roomsByType
    end in
  let v := match lookupType roomsByType (rType room) with
           | Some v => v
           | None => rVariant room
           end in
  (storeType roomsByType (rType room) (v + 1),
   mkListed (rType room) v (listed room)).

Fixpoint recomputeFrom {A} (roomsByType : list (Z * Z)) (rooms : list (Listed A))
  : list (Listed A) :=
  match rooms with
  | [] => []
  | room :: rest =>
      let '(d, room') := renumber roomsByType room in
      room' :: recomputeFrom d rest
  end.

(** [MainWindow.recomputeRoomIDs] on the rooms of the list, in order. *)
Definition recomputeRoomIDs {A} (rooms : list (Listed A)) : list (Listed A) :=
  recomputeFrom [] rooms.

(** The rooms of the type [t]. *)
Definition ofType {A} (t : Z) (rooms : list (Listed A)) : list (Listed A) :=
  filter (fun room => rType room =? t) rooms.

Section Sorting.
Context {A K : Type}.

(** The key function and Python's [<] on the keys. *)
Variable key : A -> K.
Variable ltb : K -> K -> bool.

(** Python's [sorted] is stable: an element goes after the elements that
    are smaller and before those that are not. *)
Fixpoint insertSorted (a : A) (l : list A) : list A :=
  match l with
  | [] => [a]
  | b :: rest =>
      if ltb (key b) (key a) then b :: insertSorted a rest else a :: b :: rest
  end.

Fixpoint sorted (l : list A) : list A :=
  match l with
  | [] => []
  | a :: rest => insertSorted a (sorted rest)
  end.

(** [MainWindow.sortRoomsByKey]: the rooms are taken from the end of the
    list one by one, sorted, and added back in that order. *)
Definition sortRoomsByKey (rooms : list A) : list A := sorted (rev rooms).

(** Neither key is smaller than the other. *)
Definition sameKey (k : K) (a : A) : bool :=
  negb (ltb (key a) k) && negb (ltb k (key a)).

End Sorting.

(** [(t1, v1) < (t2, v2)] *)
Definition idLt (a b : Z * Z) : bool :=
  (fst a <? fst b) || ((fst a =? fst b) && (snd a <? snd b)).

Definition idOf {A} (room : Listed A) : Z * Z := (rType room, rVariant room).

(** [MainWindow.sortRoomIDs] *)
Definition sortRoomIDs {A} (rooms : list (Listed A)) : list (Listed A) :=
  sortRoomsByKey idOf idLt rooms.

(** [(t1, v1) <= (t2, v2)] *)
Definition idLe {A} (a b : Listed A) : Prop :=
  rType a < rType b \/ (rType a = rType b /\ rVariant a <= rVariant b).

End RoomList.

(** ** Rooms for the examples *)

Module RoomExamples.
Import RoomInfo Terms Rooms.

(** A registry in which the entities 1 and 2 are each other's mirror image
    and no other entity has one. *)
Definition swapRegistry (t v s : Z) : option (Z * Z * Z) :=
  if t =? 1 then Some (2, v, s)
  else if t =? 2 then Some (1, v, s)
  else None.

(** A grid of [n] cells whose only stack, two spawns, is on the fourth. *)
Definition sampleGrid (n : nat) : list (list (Spawn unit)) :=
  repeat [] 3 ++ [[mkSpawn 1 0 0 tt; mkSpawn 5 0 0 tt]] ++ repeat [] (n - 4).

Definition sampleRoom (shapeId : Z) : Room (Spawn unit) :=
  mkRoom (infoOf shapeId) (sampleGrid (Z.to_nat (gridLen (infoOf shapeId)))).

End RoomExamples.

(** * Properties *)

(** ** The shape table *)

Module ShapeFacts.
Import RoomInfo Props.

Lemma doorItem_eqb_eq (a b : DoorItem) : doorItem_eqb a b = true -> a = b.
Proof.
  destruct a as [ax ay ae], b as [bx b_y be]; unfold doorItem_eqb; simpl.
  rewrite !andb_true_iff, !Z.eqb_eq, Bool.eqb_true_iff.
  intros [[-> ->] ->]; reflexivity.
Qed.

Lemma wall_eqb_eq (a b : Wall) : wall_eqb a b = true -> a = b.
Proof.
  destruct a, b; unfold wall_eqb; simpl.
  rewrite !andb_true_iff, !Z.eqb_eq.
  intros [[[-> ->] ->] ->]; reflexivity.
Qed.

Lemma existsb_wall_In (w : Wall) (ws : list Wall) :
  existsb (wall_eqb w) ws = true -> In w ws.
Proof.
  rewrite existsb_exists. intros [w' [Hin Heq]].
  apply wall_eqb_eq in Heq. subst. exact Hin.
Qed.

Lemma liesOnb_sound sh door wall axis :
  liesOnb sh door wall axis = true -> liesOn sh door wall axis.
Proof.
  destruct axis; unfold liesOnb, liesOn;
    rewrite !andb_true_iff, !Z.leb_le, Z.eqb_eq;
    intros [[[Hin Hlo] Hhi] Hlvl];
    (split; [ apply existsb_wall_In; exact Hin | split; [ lia | exact Hlvl ] ]).
Qed.

Lemma doorOk_sound sh door :
  doorOk sh door = true ->
  exists wall axis,
    assocsOf sh door = [(door, wall, axis)] /\ liesOn sh door wall axis.
Proof.
  unfold doorOk.
  destruct (assocsOf sh door) as [| [[d wall] axis] [| t rest]];
    try discriminate.
  rewrite andb_true_iff. intros [Hd Hon].
  apply doorItem_eqb_eq in Hd. subst d.
  exists wall, axis. split; [ reflexivity | apply liesOnb_sound, Hon ].
Qed.

Lemma all_shapes_ok : forallb (fun p => shapeOk (snd p)) Shapes = true.
Proof. vm_compute. reflexivity. Qed.

Lemma shapeOf_in id sh : shapeOf id = Some sh -> In (id, sh) Shapes.
Proof.
  unfold shapeOf. induction Shapes as [| [k sh'] rest IH]; simpl.
  - discriminate.
  - destruct (k =? id) eqn:E.
    + intros H; injection H as ->. apply Z.eqb_eq in E. subst. now left.
    + intros H. right. apply IH, H.
Qed.

Lemma shapeOf_defined id : 1 <= id <= 12 -> exists sh, shapeOf id = Some sh.
Proof.
  intros H.
  assert (Hc : id = 1 \/ id = 2 \/ id = 3 \/ id = 4 \/ id = 5 \/ id = 6 \/
               id = 7 \/ id = 8 \/ id = 9 \/ id = 10 \/ id = 11 \/ id = 12)
    by lia.
  repeat (destruct Hc as [-> | Hc]; [ eexists; reflexivity | ]).
  subst; eexists; reflexivity.
Qed.

(** C8.  For every shape id from 1 to 12 the table has a shape, and for
    every door of that shape [DoorWalls] holds exactly one entry: it names a
    wall of the shape on the recorded axis, the door's span coordinate lies
    within the wall's [min, max] and its cross coordinate is the wall's
    level. *)
Theorem door_wall_association (id : Z) :
  1 <= id <= 12 ->
  exists sh,
    shapeOf id = Some sh
    /\ forall door, In door (shapeDoors sh) ->
         exists wall axis,
           assocsOf sh door = [(door, wall, axis)]
           /\ liesOn sh door wall axis.
Proof.
  intros Hid.
  destruct (shapeOf_defined id Hid) as [sh Hsh].
  exists sh. split; [ exact Hsh | ].
  intros door Hin. apply doorOk_sound.
  pose proof all_shapes_ok as Hall.
  rewrite forallb_forall in Hall.
  specialize (Hall (id, sh) (shapeOf_in _ _ Hsh)). simpl in Hall.
  unfold shapeOk in Hall. rewrite forallb_forall in Hall.
  apply Hall, Hin.
Qed.

Lemma door_wall_association_witness :
  1 <= 9 <= 12
  /\ exists sh,
       shapeOf 9 = Some sh
       /\ forall door, In door (shapeDoors sh) ->
            exists wall axis,
              assocsOf sh door = [(door, wall, axis)]
              /\ liesOn sh door wall axis.
Proof.
  split; [ lia | apply (door_wall_association 9); lia ].
Defined.

(** *** snapToBounds *)

Lemma snapX_app x dist a b : forall y,
  snapX x y dist (a ++ b) = snapX x (snapX x y dist a) dist b.
Proof.
  induction a as [| w a IH]; intros y; simpl.
  - reflexivity.
  - destruct (negb (_axisBounds x y w)); apply IH.
Qed.

Lemma snapY_app y dist a b : forall x,
  snapY x y dist (a ++ b) = snapY (snapY x y dist a) y dist b.
Proof.
  induction a as [| w a IH]; intros x; simpl.
  - reflexivity.
  - destruct (negb (_axisBounds y x w)); apply IH.
Qed.

Lemma Forall_snoc {A} (P : A -> Prop) l a :
  Forall P l -> P a -> Forall P (l ++ [a]).
Proof.
  intros Hl Ha. apply Forall_app. split; [ exact Hl | ].
  constructor; [ exact Ha | constructor ].
Qed.

Lemma snapX_last_wins x dist ws : forall y,
  lastViolatedWins (fun c pre => snapX x c dist pre)
    (fun c w => negb (_axisBounds x c w)) dist ws y (snapX x y dist ws).
Proof.
  induction ws as [| w ws IH] using rev_ind; intros y.
  - left. split; [ reflexivity | constructor ].
  - rewrite snapX_app. simpl.
    destruct (negb (_axisBounds x (snapX x y dist ws) w)) eqn:E.
    + right. exists ws, w, []. repeat split; try assumption. constructor.
    + destruct (IH y) as [[Heq Hall] | [pre [w0 [post [Hws [Hv [Hc Hpost]]]]]]].
      * left. split; [ exact Heq | ].
        apply Forall_snoc; [ exact Hall | ]. rewrite <- Heq. exact E.
      * right. exists pre, w0, (post ++ [w]).
        split; [ rewrite Hws, <- app_assoc; reflexivity | ].
        split; [ exact Hv | ]. split; [ exact Hc | ].
        apply Forall_snoc; [ exact Hpost | ]. exact E.
Qed.

Lemma snapY_last_wins y dist ws : forall x,
  lastViolatedWins (fun c pre => snapY c y dist pre)
    (fun c w => negb (_axisBounds y c w)) dist ws x (snapY x y dist ws).
Proof.
  induction ws as [| w ws IH] using rev_ind; intros x.
  - left. split; [ reflexivity | constructor ].
  - rewrite snapY_app. simpl.
    destruct (negb (_axisBounds y (snapY x y dist ws) w)) eqn:E.
    + right. exists ws, w, []. repeat split; try assumption. constructor.
    + destruct (IH x) as [[Heq Hall] | [pre [w0 [post [Hws [Hv [Hc Hpost]]]]]]].
      * left. split; [ exact Heq | ].
        apply Forall_snoc; [ exact Hall | ]. rewrite <- Heq. exact E.
      * right. exists pre, w0, (post ++ [w]).
        split; [ rewrite Hws, <- app_assoc; reflexivity | ].
        split; [ exact Hv | ]. split; [ exact Hc | ].
        apply Forall_snoc; [ exact Hpost | ]. exact E.
Qed.

(** C9, as the code has it.  [snapToBounds] walks the X segments in their
    declared order and then the Y segments in theirs.  A violated X segment
    sets [y = level + dir*dist] and a violated Y segment sets
    [x = level + dir*dist]; a segment is judged against the point as the
    segments before it have left it (the Y segments against the [y] the X
    segments produced), and on each axis the last assignment made wins. *)
Theorem snapToBounds_sequential (info : Info) (x y dist : Z) :
  let x' := fst (snapToBounds info x y dist) in
  let y' := snd (snapToBounds info x y dist) in
  lastViolatedWins (fun c pre => snapX x c dist pre)
    (fun c w => negb (_axisBounds x c w)) dist (WallsX (shapeData info)) y y'
  /\ lastViolatedWins (fun c pre => snapY c y' dist pre)
       (fun c w => negb (_axisBounds y' c w)) dist (WallsY (shapeData info)) x x'.
Proof.
  simpl. split; [ apply snapX_last_wins | apply snapY_last_wins ].
Qed.

(** C9, as the claim states it, fails: in the mirrored L room (shape 9) the
    point (5, 3) violates the first X segment, which moves it to y = 8; the
    Y segment (0, 7, 13, 1) is violated by the point that was passed in but
    not by the moved one, so the code answers (5, 8) where judging every
    segment against the input gives (14, 8). *)
Lemma snapToBounds_not_independent :
  ~ (forall info x y dist,
       snapToBounds info x y dist = snapIndependent info x y dist).
Proof.
  intros H.
  destruct (newInfo 9) as [info |] eqn:E; [ | discriminate E ].
  specialize (H info 5 3 1).
  vm_compute in E. injection E as <-.
  vm_compute in H. discriminate H.
Qed.

End ShapeFacts.

(** ** The tile resolvers *)

Module AutotileFacts.
Import RoomInfo Scene Neighbours Autotile Props.

(** C6.  Without extra frames, a pit whose only matching neighbour is the
    left one gets frame 1, and a pit with matching neighbours on all four
    sides and on both upper corners but on neither lower corner gets frame
    24: the rule "not DL and not DR" comes after the bit sum (15) and after
    the corner rules 21 and 22 and overwrites what they left. *)
Theorem pit_frame_vectors :
  pitFrame true false false false false false false false false = 1
  /\ pitFrame true true true true true false true false false = 24.
Proof. split; reflexivity. Qed.

Lemma pit_frame_lower_corners_open (hasExtraFrames : bool) :
  pitFrame true true true true true false true false hasExtraFrames = 24.
Proof. destruct hasExtraFrames; reflexivity. Qed.

Lemma rockCandidates_closed_form rockImg right down downRight :
  rockCandidates rockImg right down downRight
  = (if firstMatchUnassigned rockImg right then ["2x1"%string] else [])
    ++ (if firstMatchUnassigned rockImg down then ["1x2"%string] else [])
    ++ (if firstMatchUnassigned rockImg right
           && firstMatchUnassigned rockImg down
           && firstMatchUnassigned rockImg downRight
        then ["2x2"%string] else []).
Proof.
  unfold rockCandidates, firstMatchUnassigned.
  destruct (unassigned (findMatchInStack rockImg right));
    destruct (unassigned (findMatchInStack rockImg down));
    destruct (unassigned (findMatchInStack rockImg downRight));
    reflexivity.
Qed.

(** C7, as the code has it.  A neighbour stack offers a partner when its
    first placement with the rock's image has no frame yet.  If the right
    stack offers one and the down stack does not, the candidates are exactly
    "2x1"; if the right, down and down-right stacks all offer one, they are
    "2x1", "1x2", "2x2"; "2x2" is a candidate only together with "2x1" and
    "1x2"; and when [seed & 3] is not 0 the entity only receives its base
    variant, no pairing being attempted. *)
Theorem rock_candidates_by_first_match :
  forall rockImg right down downRight,
    (firstMatchUnassigned rockImg right = true ->
     firstMatchUnassigned rockImg down = false ->
     rockCandidates rockImg right down downRight = ["2x1"%string])
    /\ (firstMatchUnassigned rockImg right = true ->
        firstMatchUnassigned rockImg down = true ->
        firstMatchUnassigned rockImg downRight = true ->
        rockCandidates rockImg right down downRight
        = ["2x1"%string; "1x2"%string; "2x2"%string])
    /\ (In "2x2"%string (rockCandidates rockImg right down downRight) ->
        In "2x1"%string (rockCandidates rockImg right down downRight)
        /\ In "1x2"%string (rockCandidates rockImg right down downRight))
    /\ (forall randint choice s self me seed,
          findEnt s self = Some me ->
          Z.land seed 3 <> 0 ->
          setRockFrame randint choice s self seed
          = assignFrame self (randint seed) s).
Proof.
  intros rockImg right down downRight.
  rewrite rockCandidates_closed_form.
  repeat split.
  - intros -> ->. reflexivity.
  - intros -> -> ->. reflexivity.
  - destruct (firstMatchUnassigned rockImg right),
             (firstMatchUnassigned rockImg down),
             (firstMatchUnassigned rockImg downRight); simpl in *;
      intuition discriminate.
  - destruct (firstMatchUnassigned rockImg right),
             (firstMatchUnassigned rockImg down),
             (firstMatchUnassigned rockImg downRight); simpl in *;
      intuition discriminate.
  - intros randint choice s self me seed Hme Hseed.
    unfold setRockFrame. rewrite Hme.
    apply Z.eqb_neq in Hseed. rewrite Hseed. reflexivity.
Qed.

End AutotileFacts.

(** ** The scene operations, step by step *)

Module SceneFacts.
Import RoomInfo Scene Editor Props.

Lemma uid_below_fresh (s : RoomScene) (e : Entity) :
  In e (objects s) -> (uid e < freshUid s)%nat.
Proof.
  unfold freshUid. induction (objects s) as [| o os IH]; simpl.
  - intros [].
  - intros [-> | Hin]; [ lia | specialize (IH Hin); lia ].
Qed.

Lemma fresh_not_used (s : RoomScene) :
  Forall (fun e => Nat.eqb (uid e) (freshUid s) = false) (objects s).
Proof.
  apply Forall_forall. intros e Hin.
  apply Nat.eqb_neq. pose proof (uid_below_fresh s e Hin). lia.
Qed.

Lemma find_last (u : nat) (os : list Entity) (me : Entity) :
  Forall (fun e => Nat.eqb (uid e) u = false) os ->
  uid me = u ->
  find (fun e => Nat.eqb (uid e) u) (os ++ [me]) = Some me.
Proof.
  intros Hos Hme. induction Hos as [| o os Ho _ IH]; simpl.
  - rewrite Hme, Nat.eqb_refl. reflexivity.
  - rewrite Ho. exact IH.
Qed.

Lemma updateEnt_last (u : nat) (f : Entity -> Entity) os me :
  Forall (fun e => Nat.eqb (uid e) u = false) os ->
  uid me = u ->
  updateEnt u f (os ++ [me]) = os ++ [f me].
Proof.
  intros Hos Hme. unfold updateEnt. rewrite map_app. simpl.
  rewrite Hme, Nat.eqb_refl. f_equal.
  induction Hos as [| o os Ho _ IH]; simpl.
  - reflexivity.
  - rewrite Ho, IH. reflexivity.
Qed.

Lemma remove_last (u : nat) os me :
  Forall (fun e => Nat.eqb (uid e) u = false) os ->
  uid me = u ->
  filter (fun e => negb (Nat.eqb (uid e) u)) (os ++ [me]) = os.
Proof.
  intros Hos Hme. rewrite filter_app. simpl.
  rewrite Hme, Nat.eqb_refl. simpl. rewrite app_nil_r.
  induction Hos as [| o os Ho _ IH]; simpl.
  - reflexivity.
  - rewrite Ho, IH. reflexivity.
Qed.

Lemma updateBlockedDoor_eq s self val countOnly :
  updateBlockedDoor s self val countOnly
  = setDoorItems s (doorsAfter s (blocksDoor self) (entX self) (entY self)
                               val countOnly).
Proof.
  unfold updateBlockedDoor, doorsAfter.
  destruct (blocksDoor self); [ | destruct s; reflexivity ].
  destruct (inFrontOfDoor (roomInfo s) (entX self) (entY self));
    [ reflexivity | destruct s; reflexivity ].
Qed.

Lemma roomRow_inside s y :
  0 <= y < roomHeight s -> roomRow s y = Some y.
Proof.
  intros [H0 H1]. unfold roomRow.
  apply Z.leb_le in H0. apply Z.ltb_lt in H1. rewrite H0, H1. reflexivity.
Qed.

Section WithCollaborators.
Variable getEntityInfo : Z -> Z -> Z -> EntityConfig.
Variable collidingItems : RoomScene -> Entity -> list Entity.

Lemma Entity_init_spec s x y t v st resp :
  0 <= x < roomWidth s -> 0 <= y < roomHeight s ->
  exists sd,
    Entity_init getEntityInfo collidingItems s x y t v st resp
    = Some (mkScene (roomInfo s) (roomWidth s) (roomHeight s)
              (objects s ++ [created getEntityInfo s x y t v st sd])
              (doorsAfter s (cfgBlocksDoor (getEntityInfo t v st)) x y false resp)
              (entCache s),
            freshUid s).
Proof.
  intros [Hx0 Hx1] Hy. unfold Entity_init.
  apply Z.leb_le in Hx0. apply Z.ltb_lt in Hx1. rewrite Hx0, Hx1.
  destruct Hy as [Hy0 Hy1].
  pose proof (roomRow_inside s y (conj Hy0 Hy1)) as Hrow.
  apply Z.leb_le in Hy0. apply Z.ltb_lt in Hy1. rewrite Hy0, Hy1. simpl.
  set (cfg := getEntityInfo t v st).
  set (u := freshUid s).
  set (me := mkEntity u x y t (cfgIsGridEnt cfg) (cfgBlocksDoor cfg)
               (cfgRenderRock cfg) (cfgImg cfg) None None 0 1 resp).
  pose proof (fresh_not_used s) as Hfresh. fold u in Hfresh.
  unfold updateCoords, findEnt. simpl objects.
  rewrite (find_last u (objects s) me Hfresh eq_refl). simpl parentItem.
  unfold roomRow in *. simpl roomHeight. rewrite Hrow.
  rewrite (updateEnt_last u _ (objects s) me Hfresh eq_refl).
  rewrite updateBlockedDoor_eq. simpl.
  unfold getStack, findEnt. simpl objects.
  erewrite find_last; [ | exact Hfresh | reflexivity ].
  simpl objects.
  erewrite updateEnt_last; [ | exact Hfresh | reflexivity ].
  erewrite updateEnt_last; [ | exact Hfresh | reflexivity ].
  eexists. unfold created. fold cfg. fold u.
  unfold doorsAfter. simpl. reflexivity.
Qed.

End WithCollaborators.

End SceneFacts.

(** ** The blocked-door counter *)

Module DoorFacts.
Import RoomInfo Scene Editor Props SceneFacts.

Lemma updateDoors_at blockedDoor val countOnly pre d post :
  Forall (fun p => sameXY (doorItem p) blockedDoor = false) pre ->
  sameXY (doorItem d) blockedDoor = true ->
  updateDoors blockedDoor val countOnly (pre ++ d :: post)
  = pre ++ blockDoor val countOnly d :: post.
Proof.
  intros Hpre Hd. induction Hpre as [| p pre Hp _ IH]; simpl.
  - rewrite Hd. reflexivity.
  - rewrite Hp, IH. reflexivity.
Qed.

Lemma toggle_at pre d post :
  mouseDoubleClickEvent (List.length pre) (pre ++ d :: post)
  = pre ++ setExists d (negb (exists_ d)) :: post.
Proof.
  induction pre as [| p pre IH]; simpl.
  - reflexivity.
  - rewrite IH. reflexivity.
Qed.

(** The three transitions of the scenario, on one door. *)
Lemma blockDoor_closes d :
  exists_ d = true -> blockingCount d = 0 ->
  blockDoor false false d = setBlockingCount (setExists d false) 1.
Proof.
  intros He Hc. unfold blockDoor. simpl. rewrite Hc.
  unfold exists_ in *. simpl. rewrite He. simpl.
  unfold setExists, setBlockingCount. simpl. reflexivity.
Qed.

Lemma blockDoor_leaves_closed d n :
  blockDoor true false (setBlockingCount (setExists d false) n)
  = setBlockingCount (setExists d false) (n - 1).
Proof.
  unfold blockDoor, exists_. simpl. rewrite andb_false_r. simpl.
  unfold setBlockingCount, setExists. simpl. f_equal.
Qed.

Lemma blockDoor_keeps_closed val countOnly d :
  exists_ d = false -> exists_ (blockDoor val countOnly d) = false.
Proof.
  intros He. unfold blockDoor, exists_ in *. simpl. rewrite He.
  rewrite andb_false_r. simpl. exact He.
Qed.

Lemma blockDoor_position val countOnly d :
  doorX (doorItem (blockDoor val countOnly d)) = doorX (doorItem d)
  /\ doorY (doorItem (blockDoor val countOnly d)) = doorY (doorItem d).
Proof.
  unfold blockDoor.
  destruct (Bool.eqb (blockingCount d =? 0) (exists_ d)
            && exists_ (setBlockingCount d (blockingCount d + (if val then -1 else 1)))
            && negb countOnly); simpl; split; reflexivity.
Qed.

Lemma closedStayClosed_refl ds : closedStayClosed ds ds.
Proof.
  induction ds as [| d ds IH]; constructor; [ | exact IH ].
  repeat split; auto.
Qed.

Lemma closedStayClosed_trans a b c :
  closedStayClosed a b -> closedStayClosed b c -> closedStayClosed a c.
Proof.
  intros Hab. revert c. induction Hab as [| d d' a b Hd _ IH]; intros c Hbc.
  - inversion Hbc. constructor.
  - inversion Hbc as [| d1 d'' b1 c1 Hd' Hrest]; subst.
    constructor; [ | apply IH, Hrest ].
    destruct Hd as [Hx [Hy Hc]], Hd' as [Hx' [Hy' Hc']].
    repeat split; [ congruence | congruence | auto ].
Qed.

Lemma updateDoors_closed blockedDoor val countOnly ds :
  closedStayClosed ds (updateDoors blockedDoor val countOnly ds).
Proof.
  induction ds as [| d ds IH]; simpl.
  - constructor.
  - destruct (sameXY (doorItem d) blockedDoor).
    + constructor; [ | apply closedStayClosed_refl ].
      destruct (blockDoor_position val countOnly d) as [Hx Hy].
      repeat split; [ now rewrite Hx | now rewrite Hy | ].
      apply blockDoor_keeps_closed.
    + constructor; [ repeat split; auto | exact IH ].
Qed.

Lemma doorsAfter_closed s blocks x y val countOnly :
  closedStayClosed (doorItems s) (doorsAfter s blocks x y val countOnly).
Proof.
  unfold doorsAfter. destruct blocks; [ | apply closedStayClosed_refl ].
  destruct (inFrontOfDoor (roomInfo s) x y);
    [ apply updateDoors_closed | apply closedStayClosed_refl ].
Qed.

Lemma updateBlockedDoor_closed s self val countOnly :
  closedStayClosed (doorItems s)
    (doorItems (updateBlockedDoor s self val countOnly)).
Proof.
  rewrite updateBlockedDoor_eq. simpl. apply doorsAfter_closed.
Qed.

Lemma updateCoords_closed s self x y depth s' :
  updateCoords s self x y depth = Some s' ->
  closedStayClosed (doorItems s) (doorItems s').
Proof.
  unfold updateCoords.
  destruct (findEnt s self) as [me |]; [ | discriminate ].
  destruct (parentItem me).
  - (* an entity of the scene *)
    set (moving := negb (entX me =? x) || negb (entY me =? y)).
    match goal with
    | |- match ?r with _ => _ end = _ -> _ =>
        assert (Hr : forall s1, r = Some s1 -> doorItems s1 = doorItems s);
        [ | destruct r as [s1 |]; [ | discriminate ] ]
    end.
    { intros s1.
      destruct ((depth <? 0) && moving || negb (depth =? zValue me));
        [ | intros H; injection H as <-; reflexivity ].
      destruct (roomRow s y); [ | discriminate ].
      destruct moving.
      - destruct (roomRow s (entY me)); [ | discriminate ].
        intros H; injection H as <-; reflexivity.
      - intros H; injection H as <-; reflexivity. }
    specialize (Hr s1 eq_refl).
    intros H; injection H as <-.
    destruct moving.
    + eapply closedStayClosed_trans;
        [ | apply updateBlockedDoor_closed ].
      simpl. rewrite <- Hr. apply updateBlockedDoor_closed.
    + simpl. rewrite Hr. apply closedStayClosed_refl.
  - (* the adding branch *)
    destruct (roomRow s y); [ | discriminate ].
    intros H; injection H as <-.
    apply (updateBlockedDoor_closed (setObjects s _)).
Qed.

Section WithCollaborators.
Variable getEntityInfo : Z -> Z -> Z -> EntityConfig.
Variable collidingItems : RoomScene -> Entity -> list Entity.

(** C3.  Whatever edit reaches the counter (a new entity, respawned or
    not; a removal; a move) and whatever the scene, every door keeps its
    position and a door that was closed before the edit is closed after it:
    the only assignment to [exists] in [updateBlockedDoor] is guarded by
    [door.exists], so only [mouseDoubleClickEvent] can open a door. *)
Theorem tracker_never_opens (s s' : RoomScene) (m : Mutation) :
  applyMutation getEntityInfo collidingItems s m = Some s' ->
  closedStayClosed (doorItems s) (doorItems s').
Proof.
  destruct m as [x y t v st resp | self | self x y depth]; simpl.
  - destruct (Entity_init getEntityInfo collidingItems s x y t v st resp)
      as [[s1 u] |] eqn:E; [ | discriminate ].
    intros H; injection H as <-.
    assert (Hrange : (0 <= x < roomWidth s) /\ (0 <= y < roomHeight s)).
    { unfold Entity_init in E.
      destruct ((0 <=? x) && (x <? roomWidth s) && (0 <=? y) && (y <? roomHeight s))
        eqn:R; [ | discriminate ].
      rewrite !andb_true_iff, !Z.leb_le, !Z.ltb_lt in R. lia. }
    destruct Hrange as [Hx Hy].
    destruct (Entity_init_spec getEntityInfo collidingItems s x y t v st resp Hx Hy)
      as [sd Hspec].
    rewrite Hspec in E. injection E as <- _. simpl.
    apply doorsAfter_closed.
  - unfold remove. destruct (findEnt s self) as [me |]; [ | discriminate ].
    intros H; injection H as <-. simpl.
    apply updateBlockedDoor_closed.
  - apply updateCoords_closed.
Qed.

(** C2.  Take a door that is open with nothing counted against it, and the
    cell in front of it.  Creating a door-blocking entity there (not as a
    respawn) counts 1 and closes the door; removing the entity counts back
    to 0 and leaves the door closed; a double click opens it; creating the
    entity again closes it again. *)
Theorem door_blocking_scenario
  (s : RoomScene) (x y t v st : Z) (blockedDoor : DoorItem)
  (pre post : list Door) (d : Door) :
  0 <= x < roomWidth s -> 0 <= y < roomHeight s ->
  cfgBlocksDoor (getEntityInfo t v st) = true ->
  inFrontOfDoor (roomInfo s) x y = Some blockedDoor ->
  doorItems s = pre ++ d :: post ->
  Forall (fun p => sameXY (doorItem p) blockedDoor = false) pre ->
  sameXY (doorItem d) blockedDoor = true ->
  exists_ d = true -> blockingCount d = 0 ->
  exists s1 u1 s2 s4 u4,
    Entity_init getEntityInfo collidingItems s x y t v st false = Some (s1, u1)
    /\ doorItems s1 = pre ++ setBlockingCount (setExists d false) 1 :: post
    /\ remove s1 u1 = Some s2
    /\ doorItems s2 = pre ++ setBlockingCount (setExists d false) 0 :: post
    /\ doorItems (toggleDoor s2 (List.length pre))
       = pre ++ setBlockingCount (setExists d true) 0 :: post
    /\ Entity_init getEntityInfo collidingItems
         (toggleDoor s2 (List.length pre)) x y t v st false = Some (s4, u4)
    /\ doorItems s4 = pre ++ setBlockingCount (setExists d false) 1 :: post.
Proof.
  intros Hx Hy Hblocks Hfront Hdoors Hpre Hd Hopen Hcount.
  destruct (Entity_init_spec getEntityInfo collidingItems s x y t v st false Hx Hy)
    as [sd1 H1].
  set (d1 := setBlockingCount (setExists d false) 1).
  set (d2 := setBlockingCount (setExists d false) 0).
  set (d3 := setBlockingCount (setExists d true) 0).
  assert (Hdoors1 :
    doorsAfter s (cfgBlocksDoor (getEntityInfo t v st)) x y false false
    = pre ++ d1 :: post).
  { unfold doorsAfter. rewrite Hblocks, Hfront, Hdoors.
    rewrite (updateDoors_at _ _ _ _ _ _ Hpre Hd).
    rewrite (blockDoor_closes d Hopen Hcount). reflexivity. }
  rewrite Hdoors1 in H1.
  set (s1 := mkScene (roomInfo s) (roomWidth s) (roomHeight s)
               (objects s ++ [created getEntityInfo s x y t v st sd1])
               (pre ++ d1 :: post) (entCache s)) in *.
  set (s2 := mkScene (roomInfo s) (roomWidth s) (roomHeight s)
               (objects s) (pre ++ d2 :: post) (entCache s)).
  assert (H2 : remove s1 (freshUid s) = Some s2).
  { unfold remove, findEnt. simpl objects.
    erewrite find_last; [ | apply fresh_not_used | reflexivity ].
    rewrite updateBlockedDoor_eq. simpl.
    erewrite remove_last; [ | apply fresh_not_used | reflexivity ].
    unfold doorsAfter. simpl. rewrite Hblocks, Hfront.
    assert (Hd1 : sameXY (doorItem d1) blockedDoor = true) by exact Hd.
    rewrite (updateDoors_at _ _ _ _ _ _ Hpre Hd1).
    unfold d1. rewrite blockDoor_leaves_closed. reflexivity. }
  assert (H3 : doorItems (toggleDoor s2 (List.length pre)) = pre ++ d3 :: post).
  { unfold toggleDoor. simpl. rewrite toggle_at. reflexivity. }
  destruct (Entity_init_spec getEntityInfo collidingItems
              (toggleDoor s2 (List.length pre)) x y t v st false Hx Hy)
    as [sd4 H4].
  assert (Hdoors4 :
    doorsAfter (toggleDoor s2 (List.length pre))
      (cfgBlocksDoor (getEntityInfo t v st)) x y false false
    = pre ++ d1 :: post).
  { unfold doorsAfter. rewrite Hblocks, H3. simpl roomInfo. rewrite Hfront.
    assert (Hd3 : sameXY (doorItem d3) blockedDoor = true) by exact Hd.
    rewrite (updateDoors_at _ _ _ _ _ _ Hpre Hd3).
    rewrite (blockDoor_closes d3 eq_refl eq_refl). reflexivity. }
  rewrite Hdoors4 in H4.
  eexists _, _, _, _, _.
  split; [ exact H1 | ].
  split; [ reflexivity | ].
  split; [ exact H2 | ].
  split; [ reflexivity | ].
  split; [ exact H3 | ].
  split; [ exact H4 | ].
  reflexivity.
Qed.

End WithCollaborators.

End DoorFacts.

(** ** Depths and the stack ceiling *)

Module PlacementFacts.
Import RoomInfo Scene Editor Props SceneFacts Examples.

Lemma not_dense_repeated : ~ denseDepths [0; 0].
Proof.
  unfold denseDepths. simpl. intros H.
  apply Permutation_sym in H.
  assert (Hin : In 1 [0; 0]) by (apply (Permutation_in _ H); simpl; auto).
  simpl in Hin. intuition discriminate.
Qed.

Lemma not_dense_gap : ~ denseDepths [1; 2].
Proof.
  unfold denseDepths. simpl. intros H.
  apply Permutation_sym in H.
  assert (Hin : In 0 [1; 2]) by (apply (Permutation_in _ H); simpl; auto).
  simpl in Hin. intuition discriminate.
Qed.

Section WithCollaborators.
Variable getEntityInfo : Z -> Z -> Z -> EntityConfig.
Variable collidingItems : RoomScene -> Entity -> list Entity.

(** A new entity enters at depth 0 whatever its cell holds, and no other
    depth changes. *)
Lemma Entity_init_depths s x y t v st resp :
  0 <= x < roomWidth s -> 0 <= y < roomHeight s ->
  exists s' u,
    Entity_init getEntityInfo collidingItems s x y t v st resp = Some (s', u)
    /\ depthsAt s' x y = depthsAt s x y ++ [0]
    /\ forall x' y', atCell x' y' (created getEntityInfo s x y t v st 0) = false ->
         depthsAt s' x' y' = depthsAt s x' y'.
Proof.
  intros Hx Hy.
  destruct (Entity_init_spec getEntityInfo collidingItems s x y t v st resp Hx Hy)
    as [sd H].
  eexists _, _. split; [ exact H | ].
  assert (Hents : forall x' y',
            cellEntities
              (mkScene (roomInfo s) (roomWidth s) (roomHeight s)
                 (objects s ++ [created getEntityInfo s x y t v st sd])
                 (doorsAfter s (cfgBlocksDoor (getEntityInfo t v st)) x y false resp)
                 (entCache s)) x' y'
            = cellEntities s x' y'
              ++ (if atCell x' y' (created getEntityInfo s x y t v st 0)
                  then [created getEntityInfo s x y t v st sd] else [])).
  { intros x' y'. unfold cellEntities, sceneEntities. simpl objects.
    rewrite !filter_app. reflexivity. }
  unfold depthsAt. split.
  - rewrite Hents. unfold atCell. simpl. rewrite !Z.eqb_refl. simpl.
    rewrite map_app. reflexivity.
  - intros x' y' Hne. rewrite Hents, Hne, app_nil_r. reflexivity.
Qed.

(** [remove] leaves the depth of every other entity as it was. *)
Lemma remove_depths s self s' x y :
  remove s self = Some s' ->
  depthsAt s' x y
  = map zValue (filter (fun e => negb (Nat.eqb (uid e) self)) (cellEntities s x y)).
Proof.
  unfold remove. destruct (findEnt s self) as [me |]; [ | discriminate ].
  intros H; injection H as <-.
  rewrite updateBlockedDoor_eq. simpl.
  unfold depthsAt, cellEntities, sceneEntities. simpl objects.
  f_equal.
  induction (objects s) as [| o os IH]; simpl.
  - reflexivity.
  - destruct (Nat.eqb (uid o) self) eqn:E; simpl.
    + destruct (parentItem o); simpl; [ | exact IH ].
      destruct (atCell x y o); simpl; [ rewrite E; simpl | ]; exact IH.
    + destruct (parentItem o); simpl; [ | exact IH ].
      destruct (atCell x y o); simpl; [ rewrite E; simpl; f_equal | ]; exact IH.
Qed.

(** The loop of [tryToPaint] refuses exactly when some entity of the cell
    carries [stackDepth = 25], or is a grid entity while a grid entity is
    being painted. *)
Lemma paintRefused_eq items x y paintID :
  paintRefused items x y paintID
  = existsb (fun i => atCell x y i
                      && ((stackDepth i =? MAX_STACK_DEPTH)
                          || ((entType i >? 999) && (paintID >? 999))))
            items.
Proof.
  induction items as [| i rest IH]; simpl; [ reflexivity | ].
  unfold atCell at 1.
  destruct ((entX i =? x) && (entY i =? y)); simpl; [ | exact IH ].
  destruct (stackDepth i =? MAX_STACK_DEPTH); simpl; [ reflexivity | ].
  destruct ((entType i >? 999) && (paintID >? 999)); simpl;
    [ reflexivity | exact IH ].
Qed.

Lemma tryToPaint_refused s paint cx cy lastTile :
  let x := Z.min (Z.max cx 0) (roomWidth s - 1) in
  let y := Z.min (Z.max cy 0) (roomHeight s - 1) in
  paintRefused (sceneEntities s) x y (ID paint) = true ->
  tryToPaint getEntityInfo collidingItems s (Some paint) cx cy false lastTile
  = Some (s, lastTile).
Proof.
  intros x y H. unfold tryToPaint. fold x. fold y. rewrite H. reflexivity.
Qed.

Lemma updateCoords_after_init s x y t v st sd ds :
  let s1 := mkScene (roomInfo s) (roomWidth s) (roomHeight s)
              (objects s ++ [created getEntityInfo s x y t v st sd])
              ds (entCache s) in
  updateCoords s1 (freshUid s) x y 0 = Some s1.
Proof.
  intros s1. unfold updateCoords, findEnt. simpl objects.
  erewrite find_last; [ | apply fresh_not_used | reflexivity ].
  simpl. rewrite !Z.eqb_refl. simpl.
  erewrite updateEnt_last; [ | apply fresh_not_used | reflexivity ].
  reflexivity.
Qed.

(** When the loop does not refuse, the entity is created, however many
    entities the cell holds. *)
Lemma tryToPaint_creates s paint cx cy :
  let x := Z.min (Z.max cx 0) (roomWidth s - 1) in
  let y := Z.min (Z.max cy 0) (roomHeight s - 1) in
  0 < roomWidth s -> 0 < roomHeight s ->
  paintRefused (sceneEntities s) x y (ID paint) = false ->
  exists s' sd,
    tryToPaint getEntityInfo collidingItems s (Some paint) cx cy false []
    = Some (s', [(x, y)])
    /\ cellEntities s' x y
       = cellEntities s x y
         ++ [created getEntityInfo s x y (ID paint) (variant paint) (subtype paint) sd].
Proof.
  intros x y Hw Hh Hfree.
  assert (Hx : 0 <= x < roomWidth s) by (unfold x; lia).
  assert (Hy : 0 <= y < roomHeight s) by (unfold y; lia).
  destruct (Entity_init_spec getEntityInfo collidingItems s x y
              (ID paint) (variant paint) (subtype paint) false Hx Hy) as [sd H].
  unfold tryToPaint. fold x. fold y. rewrite Hfree. simpl inLastTile. cbv iota.
  rewrite H. unfold findEnt. simpl objects.
  erewrite find_last; [ | apply fresh_not_used | reflexivity ].
  rewrite updateCoords_after_init.
  destruct (isGridEnt (created getEntityInfo s x y (ID paint) (variant paint)
                         (subtype paint) sd));
    (eexists _, sd; split; [ reflexivity | ];
     unfold cellEntities, sceneEntities; simpl objects;
     rewrite !filter_app; simpl; unfold atCell at 2; simpl;
     rewrite !Z.eqb_refl; reflexivity).
Qed.

End WithCollaborators.

(** C1, at a failing input.  Two right clicks that paint the same entity on
    the empty cell (3, 3) of a 1x1 room leave two placements there, both at
    depth 0: the adding branch of [updateCoords] returns before any depth is
    assigned, so the depths are not {0, 1}. *)
Theorem two_inserts_share_depth :
  exists s,
    twoPaints = Some s
    /\ List.length (cellEntities s 3 3) = 2%nat
    /\ depthsAt s 3 3 = [0; 0]
    /\ ~ denseDepths (depthsAt s 3 3).
Proof.
  eexists. split; [ vm_compute; reflexivity | ].
  split; [ vm_compute; reflexivity | ].
  split; [ vm_compute; reflexivity | ].
  change (~ denseDepths [0; 0]). exact not_dense_repeated.
Qed.

(** C4, at a failing input.  Cell (3, 3) holds three placements at depths
    0, 1, 2; removing the one at depth 0 leaves the other two at depths 1
    and 2, not 0 and 1: [Entity.remove] touches no z value. *)
Theorem remove_leaves_gap :
  exists s s',
    threeDeep = Some s
    /\ map (fun e => (uid e, zValue e)) (cellEntities s 3 3)
       = [(1%nat, 0); (2%nat, 1); (3%nat, 2)]
    /\ denseDepths (depthsAt s 3 3)
    /\ remove s 1 = Some s'
    /\ map (fun e => (uid e, zValue e)) (cellEntities s' 3 3)
       = [(2%nat, 1); (3%nat, 2)]
    /\ ~ denseDepths (depthsAt s' 3 3).
Proof.
  eexists _, _. split; [ vm_compute; reflexivity | ].
  split; [ vm_compute; reflexivity | ].
  split; [ vm_compute; apply Permutation_refl | ].
  split; [ vm_compute; reflexivity | ].
  split; [ vm_compute; reflexivity | ].
  change (~ denseDepths [1; 2]). exact not_dense_gap.
Qed.

(** C10, at a failing input.  Cell (3, 3) holds 25 placements whose
    [stackDepth] attributes are 1, ..., 24 and 26; [tryToPaint] looks for
    the value 25 among those attributes, finds none, and creates a 26th
    placement in the cell. *)
Theorem paint_over_full_cell :
  exists s s',
    staleCell = Some s
    /\ List.length (cellEntities s 3 3) = 25%nat
    /\ map stackDepth (cellEntities s 3 3) = map Z.of_nat (seq 1 24) ++ [26]
    /\ existsb (fun e => stackDepth e =? MAX_STACK_DEPTH) (cellEntities s 3 3)
       = false
    /\ paintAt 3 3 10 s = Some s'
    /\ List.length (cellEntities s' 3 3) = 26%nat.
Proof.
  eexists _, _. split; [ vm_compute; reflexivity | ].
  split; [ vm_compute; reflexivity | ].
  split; [ vm_compute; reflexivity | ].
  split; [ vm_compute; reflexivity | ].
  split; vm_compute; reflexivity.
Qed.

End PlacementFacts.

(** ** The neighbour query *)

Module NeighbourFacts.
Import RoomInfo Scene Editor Neighbours Props Examples.




Lemma find_by_uid os e :
  NoDup (map uid os) -> In e os ->
  find (fun o => Nat.eqb (uid o) (uid e)) os = Some e.
Proof.
  induction os as [| o os IH]; simpl; intros Hnd Hin; [ contradiction | ].
  inversion Hnd as [| ? ? Hnotin Hnd']; subst.
  destruct Hin as [-> | Hin].
  - rewrite Nat.eqb_refl. reflexivity.
  - destruct (Nat.eqb (uid o) (uid e)) eqn:E.
    + apply Nat.eqb_eq in E. exfalso. apply Hnotin. rewrite E.
      apply in_map, Hin.
    + apply IH; assumption.
Qed.



Lemma sceneEntities_all s :
  Forall (fun e => parentItem e = Some (entY e)
                   /\ 0 <= entX e < roomWidth s
                   /\ 0 <= entY e < roomHeight s) (objects s) ->
  sceneEntities s = objects s.
Proof.
  unfold sceneEntities. induction 1 as [| e os [Hp _] _ IH]; simpl.
  - reflexivity.
  - rewrite Hp, IH. reflexivity.
Qed.














(** C5, at a failing input.  In a 1x1 room (15 columns) whose only entity
    sits at (14, 3), the query for cell (0, 4) answers that entity as the
    left neighbour when it reads the cache (the index of "column -1 of row
    4" is the index of column 14 of row 3) and no neighbour at all when it
    scans the rows. *)
Theorem cached_query_wraps_rows :
  exists s e,
    edgeScene = Some s
    /\ cellEntities s 14 3 = [e]
    /\ 0 <= 0 < roomWidth s /\ 0 <= 4 < roomHeight s
    /\ getAdjacentEnts s 0 4 true = [[e]; []; []; []; []; []; []; []]
    /\ getAdjacentEnts s 0 4 false = [[]; []; []; []; []; []; []; []]
    /\ getAdjacentEnts s 0 4 true <> getAdjacentEnts s 0 4 false.
Proof.
  eexists _, _. split; [ vm_compute; reflexivity | ].
  split; [ vm_compute; reflexivity | ].
  split; [ vm_compute; split; [ discriminate | reflexivity ] | ].
  split; [ vm_compute; split; [ discriminate | reflexivity ] | ].
  split; [ vm_compute; reflexivity | ].
  split; [ vm_compute; reflexivity | ].
  vm_compute. discriminate.
Qed.

End NeighbourFacts.

(** ** The rock pairing seen from the stacks *)

Module RockFacts.
Import RoomInfo Scene Editor Neighbours Autotile Props Examples.

(** C7, as the claim states it, fails: a right stack whose first rock
    already has a frame and whose second rock has none holds a matching
    unassigned placement, the down stack holds none, and yet there is no
    candidate. *)
Lemma rock_candidates_not_by_membership :
  ~ (forall rockImg right down downRight,
       holdsUnassignedMatch rockImg right ->
       ~ holdsUnassignedMatch rockImg down ->
       rockCandidates rockImg right down downRight = ["2x1"%string]).
Proof.
  intros H.
  specialize (H "rocks.png"%string
                [rockAt 3 4 3 (Some 4); rockAt 4 4 3 None] [] []).
  assert (Hright : holdsUnassignedMatch "rocks.png"
                     [rockAt 3 4 3 (Some 4); rockAt 4 4 3 None]).
  { exists (rockAt 4 4 3 None). simpl. auto. }
  assert (Hdown : ~ holdsUnassignedMatch "rocks.png" []).
  { intros [e [[] _]]. }
  specialize (H Hright Hdown). vm_compute in H. discriminate H.
Qed.

(** Such stacks arise in one drawing pass: with two rocks on (3, 3) and two
    on (4, 3), the first rock of (3, 3) pairs with the first rock of (4, 3);
    the second rock of (3, 3), visited with the same seed, then finds those
    very stacks to its right and stays unpaired. *)
Lemma second_rock_finds_no_partner :
  exists s,
    stackedRocks = Some s
    /\ let s1 := setRockFrame (fun _ => 2) firstChoice s 1 48 in
       let right := nth 1 (getAdjacentEnts s1 3 3 true) [] in
       map (fun e => (uid e, rockFrame e)) right
       = [(3%nat, Some 4); (4%nat, None)]
       /\ rockCandidates "rocks.png" right
            (nth 3 (getAdjacentEnts s1 3 3 true) [])
            (nth 7 (getAdjacentEnts s1 3 3 true) []) = [].
Proof.
  eexists. split; [ vm_compute; reflexivity | ].
  split; vm_compute; reflexivity.
Qed.

End RockFacts.

(** ** The theorems at concrete inputs *)

Module Witnesses.
Import RoomInfo Scene Editor Neighbours Autotile Props Examples.

Lemma door_blocking_scenario_witness :
  exists s1 u1 s2 s4 u4,
    Entity_init registry sameCellItems (sceneOf 1) 7 1 10 0 0 false = Some (s1, u1)
    /\ doorItems s1 = [] ++ mkDoor (mkDoorItem 7 0 false) 1 :: otherDoors
    /\ remove s1 u1 = Some s2
    /\ doorItems s2 = [] ++ mkDoor (mkDoorItem 7 0 false) 0 :: otherDoors
    /\ doorItems (toggleDoor s2 0)
       = [] ++ mkDoor (mkDoorItem 7 0 true) 0 :: otherDoors
    /\ Entity_init registry sameCellItems (toggleDoor s2 0) 7 1 10 0 0 false
       = Some (s4, u4)
    /\ doorItems s4 = [] ++ mkDoor (mkDoorItem 7 0 false) 1 :: otherDoors.
Proof.
  apply (DoorFacts.door_blocking_scenario registry sameCellItems (sceneOf 1)
           7 1 10 0 0 (mkDoorItem 7 0 true) [] otherDoors
           (mkDoor (mkDoorItem 7 0 true) 0)).
  - vm_compute. split; [ discriminate | reflexivity ].
  - vm_compute. split; [ discriminate | reflexivity ].
  - reflexivity.
  - reflexivity.
  - reflexivity.
  - constructor.
  - reflexivity.
  - reflexivity.
  - reflexivity.
Defined.

Lemma tracker_never_opens_witness :
  exists s',
    applyMutation registry sameCellItems blockedScene (Remove 1) = Some s'
    /\ map (fun d => (exists_ d, blockingCount d)) (doorItems blockedScene)
       = [(false, 1); (true, 0); (true, 0); (true, 0)]
    /\ closedStayClosed (doorItems blockedScene) (doorItems s').
Proof.
  eexists. split; [ vm_compute; reflexivity | ].
  split; [ vm_compute; reflexivity | ].
  apply (DoorFacts.tracker_never_opens registry sameCellItems _ _ (Remove 1)).
  vm_compute. reflexivity.
Defined.

Lemma rock_candidates_by_first_match_witness :
  rockCandidates "rocks.png" [rockAt 2 4 3 None] [rockAt 3 3 4 (Some 6)] []
  = ["2x1"%string]
  /\ rockCandidates "rocks.png" [rockAt 2 4 3 None] [rockAt 3 3 4 None]
       [rockAt 4 4 4 None]
     = ["2x1"%string; "1x2"%string; "2x2"%string]
  /\ setRockFrame (fun _ => 2) firstChoice
       (setObjects (sceneOf 1) [rockAt 1 3 3 None]) 1 1
     = assignFrame 1 2 (setObjects (sceneOf 1) [rockAt 1 3 3 None]).
Proof.
  split; [ | split ].
  - apply (proj1 (AutotileFacts.rock_candidates_by_first_match
                    "rocks.png" [rockAt 2 4 3 None] [rockAt 3 3 4 (Some 6)] []));
      reflexivity.
  - apply (proj1 (proj2 (AutotileFacts.rock_candidates_by_first_match
                    "rocks.png" [rockAt 2 4 3 None] [rockAt 3 3 4 None]
                    [rockAt 4 4 4 None])));
      reflexivity.
  - apply (proj2 (proj2 (proj2 (AutotileFacts.rock_candidates_by_first_match
                    "rocks.png" [] [] [])))
             (fun _ => 2) firstChoice _ 1%nat (rockAt 1 3 3 None) 1).
    + reflexivity.
    + discriminate.
Defined.


End Witnesses.

(** * Further properties *)

(** ** More on the shape table *)

Module GeometryFacts.
Import RoomInfo DoorSprite Props Terms.

Lemma snapX_inside x y dist ws :
  forallb (fun w => _axisBounds x y w) ws = true -> snapX x y dist ws = y.
Proof.
  induction ws as [| w ws IH]; simpl; [ reflexivity | ].
  rewrite andb_true_iff. intros [Hw Hws]. rewrite Hw. simpl. apply IH, Hws.
Qed.

Lemma snapY_inside x y dist ws :
  forallb (fun w => _axisBounds y x w) ws = true -> snapY x y dist ws = x.
Proof.
  induction ws as [| w ws IH]; simpl; [ reflexivity | ].
  rewrite andb_true_iff. intros [Hw Hws]. rewrite Hw. simpl. apply IH, Hws.
Qed.

(** X1.  A point that is in bounds is left where it is by [snapToBounds],
    for every room and every snapping distance. *)
Theorem snap_keeps_inside (info : Info) (x y dist : Z) :
  isInBounds info x y = true -> snapToBounds info x y dist = (x, y).
Proof.
  unfold isInBounds, snapToBounds. rewrite andb_true_iff. intros [HX HY].
  rewrite (snapX_inside x y dist _ HX), (snapY_inside x y dist _ HY).
  reflexivity.
Qed.

Lemma zrange_In n x : 0 <= x < n -> In x (zrange n).
Proof.
  intros H. unfold zrange. apply in_map_iff. exists (Z.to_nat x).
  split; [ lia | ]. apply in_seq. lia.
Qed.

Lemma gridCells_In info x y :
  inGrid info x y = true -> In (x, y) (gridCells info).
Proof.
  unfold inGrid. rewrite !andb_true_iff, !Z.leb_le, !Z.ltb_lt.
  intros [[[Hx0 Hx1] Hy0] Hy1]. unfold gridCells.
  apply in_flat_map. exists y. split; [ apply zrange_In; lia | ].
  apply in_map_iff. exists x. split; [ reflexivity | apply zrange_In; lia ].
Qed.

Lemma newInfo_in id info :
  newInfo id = Some info ->
  exists sh, In (id, sh) Shapes /\ shape info = id /\ shapeData info = sh.
Proof.
  unfold newInfo. destruct (shapeOf id) as [sh |] eqn:E; [ | discriminate ].
  intros H; injection H as <-. exists sh.
  split; [ apply ShapeFacts.shapeOf_in, E | split; reflexivity ].
Qed.

Lemma tableCheck_sound check id info :
  tableCheck check = true -> newInfo id = Some info -> check info = true.
Proof.
  unfold tableCheck. rewrite forallb_forall. intros Hall Hinfo.
  destruct (newInfo_in id info Hinfo) as [sh [Hin _]].
  specialize (Hall (id, sh) Hin). simpl in Hall. rewrite Hinfo in Hall.
  exact Hall.
Qed.

Lemma snap_table :
  tableCheck (fun info => forallb (snapOk info) (gridCells info)) = true.
Proof. vm_compute. reflexivity. Qed.

(** Snapping a cell of the grid of a shape of the table gives a cell of the
    grid. *)
Lemma snap_in_grid (id : Z) (info : Info) (x y : Z) :
  newInfo id = Some info ->
  inGrid info x y = true ->
  inGrid info (fst (snapToBounds info x y 1)) (snd (snapToBounds info x y 1))
  = true.
Proof.
  intros Hinfo Hin.
  pose proof (tableCheck_sound _ id info snap_table Hinfo) as Hall.
  rewrite forallb_forall in Hall.
  specialize (Hall (x, y) (gridCells_In info x y Hin)).
  unfold snapOk in Hall. simpl fst in Hall. simpl snd in Hall.
  rewrite !andb_true_iff in Hall. destruct Hall as [[Hg _] _]. exact Hg.
Qed.

(** X2.  In each of the twelve shapes, snapping a cell of the grid (with the
    default distance 1) gives a cell of the grid; snapping that cell once
    more gives a cell that is in bounds; and except in the two vertical
    closets (shapes 3 and 5) the first snap is already in bounds. *)
Theorem snap_lands_inside (id : Z) (info : Info) (x y : Z) :
  newInfo id = Some info ->
  inGrid info x y = true ->
  let p := snapToBounds info x y 1 in
  let q := snapToBounds info (fst p) (snd p) 1 in
  inGrid info (fst p) (snd p) = true
  /\ isInBounds info (fst q) (snd q) = true
  /\ (id <> 3 -> id <> 5 -> isInBounds info (fst p) (snd p) = true).
Proof.
  intros Hinfo Hin.
  pose proof (tableCheck_sound _ id info snap_table Hinfo) as Hall.
  rewrite forallb_forall in Hall.
  specialize (Hall (x, y) (gridCells_In info x y Hin)).
  unfold snapOk in Hall. simpl fst in Hall. simpl snd in Hall.
  rewrite !andb_true_iff in Hall. destruct Hall as [[Hg Hq] Hp].
  simpl. split; [ exact Hg | split; [ exact Hq | ] ].
  intros H3 H5.
  destruct (newInfo_in id info Hinfo) as [sh [_ [Hid _]]].
  rewrite Hid in Hp.
  apply Z.eqb_neq in H3. apply Z.eqb_neq in H5. rewrite H3, H5 in Hp.
  exact Hp.
Qed.

Lemma door_table :
  tableCheck (fun info => forallb (doorFrontOk info) (DoorWalls (shapeData info))) = true.
Proof. vm_compute. reflexivity. Qed.

(** X3.  In each of the twelve shapes, every door is out of bounds itself;
    the cell one step from it along the normal of its wall is in bounds, and
    [inFrontOfDoor] answers that very door for that cell. *)
Theorem front_cell_finds_door (id : Z) (info : Info)
  (door : DoorItem) (wall : Wall) (axis : Axis) :
  newInfo id = Some info ->
  In (door, wall, axis) (DoorWalls (shapeData info)) ->
  let c := frontCell door wall axis in
  isInBounds info (doorX door) (doorY door) = false
  /\ isInBounds info (fst c) (snd c) = true
  /\ inFrontOfDoor info (fst c) (snd c) = Some door.
Proof.
  intros Hinfo Hin.
  pose proof (tableCheck_sound _ id info door_table Hinfo) as Hall.
  rewrite forallb_forall in Hall. specialize (Hall _ Hin).
  unfold doorFrontOk in Hall. rewrite !andb_true_iff in Hall.
  destruct Hall as [[[Hout Hfront] Hback] _].
  simpl. split; [ apply negb_true_iff, Hout | split; [ exact Hfront | ] ].
  destruct (inFrontOfDoor info (fst (frontCell door wall axis))
              (snd (frontCell door wall axis))) as [d |]; [ | discriminate ].
  apply ShapeFacts.doorItem_eqb_eq in Hback. subst. reflexivity.
Qed.

(** X4.  In each of the twelve shapes, the rotation [Door.__init__] picks
    from a door's coordinates turns the door towards the inside of the wall
    it was associated with. *)
Theorem door_faces_inside (id : Z) (info : Info)
  (door : DoorItem) (wall : Wall) (axis : Axis) :
  newInfo id = Some info ->
  In (door, wall, axis) (DoorWalls (shapeData info)) ->
  doorRotation door = facing wall axis.
Proof.
  intros Hinfo Hin.
  pose proof (tableCheck_sound _ id info door_table Hinfo) as Hall.
  rewrite forallb_forall in Hall. specialize (Hall _ Hin).
  unfold doorFrontOk in Hall. rewrite !andb_true_iff in Hall.
  destruct Hall as [_ Hrot]. apply Z.eqb_eq, Hrot.
Qed.

End GeometryFacts.

Module GeometryWitnesses.
Import RoomInfo DoorSprite Props Terms.

Lemma snap_keeps_inside_witness :
  isInBounds (infoOf 9) 5 9 = true /\ snapToBounds (infoOf 9) 5 9 1 = (5, 9).
Proof.
  split; [ reflexivity | ].
  apply (GeometryFacts.snap_keeps_inside (infoOf 9) 5 9 1). reflexivity.
Defined.

Lemma snap_lands_inside_witness :
  newInfo 3 = Some (infoOf 3)
  /\ inGrid (infoOf 3) 0 0 = true
  /\ snapToBounds (infoOf 3) 0 0 1 = (5, 0)
  /\ isInBounds (infoOf 3) 5 0 = false
  /\ snapToBounds (infoOf 3) 5 0 1 = (5, 1)
  /\ isInBounds (infoOf 3) 5 1 = true.
Proof.
  split; [ reflexivity | ]. split; [ reflexivity | ].
  split; [ reflexivity | ]. split; [ reflexivity | ].
  split; [ reflexivity | ].
  exact (proj1 (proj2 (GeometryFacts.snap_lands_inside 3 (infoOf 3) 0 0
                         eq_refl eq_refl))).
Defined.

Lemma front_cell_finds_door_witness :
  In (mkDoorItem 7 7 true, W 0 13 7 1, AxisX) (DoorWalls (shapeData (infoOf 9)))
  /\ isInBounds (infoOf 9) 7 7 = false
  /\ isInBounds (infoOf 9) 7 8 = true
  /\ inFrontOfDoor (infoOf 9) 7 8 = Some (mkDoorItem 7 7 true).
Proof.
  assert (Hin : In (mkDoorItem 7 7 true, W 0 13 7 1, AxisX)
                   (DoorWalls (shapeData (infoOf 9)))).
  { vm_compute. do 7 right. left. reflexivity. }
  split; [ exact Hin | ].
  exact (GeometryFacts.front_cell_finds_door 9 (infoOf 9) _ _ _ eq_refl Hin).
Defined.

Lemma door_faces_inside_witness :
  In (mkDoorItem 13 4 true, W 0 7 13 1, AxisY) (DoorWalls (shapeData (infoOf 9)))
  /\ doorRotation (mkDoorItem 13 4 true) = 270.
Proof.
  assert (Hin : In (mkDoorItem 13 4 true, W 0 7 13 1, AxisY)
                   (DoorWalls (shapeData (infoOf 9)))).
  { vm_compute. do 4 right. left. reflexivity. }
  split; [ exact Hin | ].
  exact (GeometryFacts.door_faces_inside 9 (infoOf 9) _ _ _ eq_refl Hin).
Defined.

End GeometryWitnesses.

(** ** Painting *)

Module PaintFacts.
Import RoomInfo Scene Editor Props Terms SceneFacts.

Section WithCollaborators.
Variable getEntityInfo : Z -> Z -> Z -> EntityConfig.
Variable collidingItems : RoomScene -> Entity -> list Entity.

Lemma Entity_init_inside s x y t v st resp r :
  Entity_init getEntityInfo collidingItems s x y t v st resp = Some r ->
  0 <= x < roomWidth s /\ 0 <= y < roomHeight s.
Proof.
  unfold Entity_init.
  destruct ((0 <=? x) && (x <? roomWidth s) && (0 <=? y) && (y <? roomHeight s))
    eqn:R; [ | discriminate ].
  rewrite !andb_true_iff, !Z.leb_le, !Z.ltb_lt in R. lia.
Qed.

(** What a call of [tryToPaint] that returns has done: nothing, when the
    loop refused or the cell was painted in this drag already; otherwise it
    has added one entity at the target cell, updated the door in front of
    which it stands, and noted the cell. *)
Lemma tryToPaint_result s paint cx cy snap lastTile s' lastTile' :
  tryToPaint getEntityInfo collidingItems s (Some paint) cx cy snap lastTile
  = Some (s', lastTile') ->
  let x := fst (paintTarget s cx cy snap) in
  let y := snd (paintTarget s cx cy snap) in
  (paintRefused (sceneEntities s) x y (ID paint) || inLastTile x y lastTile = true
   /\ s' = s /\ lastTile' = lastTile)
  \/ (paintRefused (sceneEntities s) x y (ID paint) = false
      /\ inLastTile x y lastTile = false
      /\ lastTile' = (x, y) :: lastTile
      /\ (0 <= x < roomWidth s /\ 0 <= y < roomHeight s)
      /\ exists sd,
           s' = mkScene (roomInfo s) (roomWidth s) (roomHeight s)
                  (objects s
                   ++ [created getEntityInfo s x y (ID paint) (variant paint)
                         (subtype paint) sd])
                  (doorsAfter s
                     (cfgBlocksDoor (getEntityInfo (ID paint) (variant paint)
                                       (subtype paint))) x y false false)
                  (entCache s)).
Proof.
  unfold tryToPaint, paintTarget.
  destruct (if snap
            then snapToBounds (roomInfo s) (Z.min (Z.max cx 0) (roomWidth s - 1))
                   (Z.min (Z.max cy 0) (roomHeight s - 1)) 1
            else (Z.min (Z.max cx 0) (roomWidth s - 1),
                  Z.min (Z.max cy 0) (roomHeight s - 1))) as [x y].
  simpl fst. simpl snd.
  destruct (paintRefused (sceneEntities s) x y (ID paint)) eqn:Href.
  { intros H; injection H as <- <-. left. auto. }
  destruct (inLastTile x y lastTile) eqn:Hlast.
  { intros H; injection H as <- <-. left. auto. }
  destruct (Entity_init getEntityInfo collidingItems s x y (ID paint)
              (variant paint) (subtype paint) false) as [[s1 en] |] eqn:Hinit;
    [ | discriminate ].
  destruct (Entity_init_inside _ _ _ _ _ _ _ _ Hinit) as [Hx Hy].
  destruct (Entity_init_spec getEntityInfo collidingItems s x y (ID paint)
              (variant paint) (subtype paint) false Hx Hy) as [sd Hspec].
  rewrite Hspec in Hinit. injection Hinit as <- <-.
  unfold findEnt. simpl objects.
  erewrite find_last; [ | apply fresh_not_used | reflexivity ].
  rewrite (PlacementFacts.updateCoords_after_init getEntityInfo).
  intros H. right. split; [ reflexivity | ]. split; [ reflexivity | ].
  destruct (isGridEnt _); injection H as <- <-;
    (split; [ reflexivity | split; [ split; assumption | exists sd; reflexivity ] ]).
Qed.

(** X5.  Within one drag a cell is painted at most once: a call of
    [tryToPaint] repeated with the same click and the [lastTile] the first
    call returned changes neither the scene nor [lastTile]. *)
Theorem paint_once_per_drag s paint cx cy snap lastTile s' lastTile' :
  tryToPaint getEntityInfo collidingItems s (Some paint) cx cy snap lastTile
  = Some (s', lastTile') ->
  tryToPaint getEntityInfo collidingItems s' (Some paint) cx cy snap lastTile'
  = Some (s', lastTile').
Proof.
  intros H. pose proof (tryToPaint_result _ _ _ _ _ _ _ _ H) as Hres.
  simpl in Hres.
  destruct Hres as [[_ [-> ->]] | [_ [_ [-> [_ [sd ->]]]]]]; [ exact H | ].
  clear H. unfold tryToPaint.
  change (paintTarget s cx cy snap)
    with (if snap
          then snapToBounds (roomInfo s) (Z.min (Z.max cx 0) (roomWidth s - 1))
                 (Z.min (Z.max cy 0) (roomHeight s - 1)) 1
          else (Z.min (Z.max cx 0) (roomWidth s - 1),
                Z.min (Z.max cy 0) (roomHeight s - 1))).
  simpl roomWidth. simpl roomHeight. simpl roomInfo.
  destruct (if snap
            then snapToBounds (roomInfo s) (Z.min (Z.max cx 0) (roomWidth s - 1))
                   (Z.min (Z.max cy 0) (roomHeight s - 1)) 1
            else (Z.min (Z.max cx 0) (roomWidth s - 1),
                  Z.min (Z.max cy 0) (roomHeight s - 1))) as [x y].
  simpl fst. simpl snd.
  destruct (paintRefused _ x y (ID paint)); [ reflexivity | ].
  unfold inLastTile. simpl. rewrite !Z.eqb_refl. reflexivity.
Qed.

Lemma cellEntities_after_add info w h os e ds c x y :
  cellEntities (mkScene info w h (os ++ [e]) ds c) x y
  = cellEntities (mkScene info w h os ds c) x y
    ++ (if match parentItem e with Some _ => true | None => false end
           && atCell x y e
        then [e] else []).
Proof.
  unfold cellEntities, sceneEntities. simpl objects.
  rewrite !filter_app. simpl.
  destruct (parentItem e); simpl; [ | reflexivity ].
  destruct (atCell x y e); reflexivity.
Qed.

(** X6.  Painting keeps grid entities apart: if no cell holds two entities
    of a type above 999, then after a [tryToPaint] none does. *)
Theorem paint_keeps_grid_exclusive s paint cx cy snap lastTile s' lastTile' :
  gridExclusive s ->
  tryToPaint getEntityInfo collidingItems s (Some paint) cx cy snap lastTile
  = Some (s', lastTile') ->
  gridExclusive s'.
Proof.
  intros Hex H. pose proof (tryToPaint_result _ _ _ _ _ _ _ _ H) as Hres.
  simpl in Hres.
  destruct Hres as [[_ [-> _]] | [Href [_ [_ [_ [sd ->]]]]]]; [ exact Hex | ].
  set (tx := fst (paintTarget s cx cy snap)) in *.
  set (ty := snd (paintTarget s cx cy snap)) in *.
  intros x y. rewrite cellEntities_after_add.
  change (cellEntities (mkScene _ _ _ (objects s) _ _) x y)
    with (cellEntities s x y).
  rewrite filter_app, length_app.
  unfold created at 1. simpl parentItem. cbv iota. rewrite andb_true_l.
  destruct (atCell x y (created getEntityInfo s tx ty (ID paint)
                          (variant paint) (subtype paint) sd)) eqn:Hat;
    [ | simpl; rewrite Nat.add_0_r; apply Hex ].
  simpl filter. unfold created at 1. simpl entType.
  destruct (ID paint >? 999) eqn:Hid;
    [ | simpl; rewrite Nat.add_0_r; apply Hex ].
  (* a grid entity was painted: the cell held none *)
  unfold atCell in Hat. simpl in Hat.
  apply andb_true_iff in Hat. destruct Hat as [Hx Hy].
  apply Z.eqb_eq in Hx. apply Z.eqb_eq in Hy. subst x y.
  rewrite PlacementFacts.paintRefused_eq in Href.
  assert (Hnone : filter (fun e => entType e >? 999) (cellEntities s tx ty) = []).
  { unfold cellEntities. rewrite Hid in Href.
    induction (sceneEntities s) as [| e es IH]; simpl in *; [ reflexivity | ].
    apply orb_false_iff in Href. destruct Href as [He Hes].
    destruct (atCell tx ty e); simpl in *.
    - apply orb_false_iff in He. destruct He as [_ He].
      rewrite andb_true_r in He. rewrite He. apply IH, Hes.
    - apply IH, Hes. }
  rewrite Hnone. simpl. lia.
Qed.

(** X7.  Creating an entity as a respawn (a room being loaded or resized)
    changes no door: every door keeps its position and its open or closed
    state, whatever stands in front of it. *)
Theorem respawn_keeps_doors s x y t v st s' u :
  Entity_init getEntityInfo collidingItems s x y t v st true = Some (s', u) ->
  map doorItem (doorItems s') = map doorItem (doorItems s).
Proof.
  intros H. destruct (Entity_init_inside _ _ _ _ _ _ _ _ H) as [Hx Hy].
  destruct (Entity_init_spec getEntityInfo collidingItems s x y t v st true Hx Hy)
    as [sd Hspec].
  rewrite Hspec in H. injection H as <- _. simpl doorItems.
  unfold doorsAfter.
  destruct (cfgBlocksDoor (getEntityInfo t v st)); [ | reflexivity ].
  destruct (inFrontOfDoor (roomInfo s) x y) as [bd |]; [ | reflexivity ].
  induction (doorItems s) as [| d ds IH]; simpl; [ reflexivity | ].
  destruct (sameXY (doorItem d) bd); simpl.
  - f_equal. unfold blockDoor. rewrite andb_false_r. reflexivity.
  - f_equal. exact IH.
Qed.

End WithCollaborators.

End PaintFacts.

Module PaintWitnesses.
Import RoomInfo Scene Editor Props Terms Examples.

Lemma paint_once_per_drag_witness :
  exists s' lastTile',
    tryToPaint registry sameCellItems (sceneOf 1) (Some (mkPaint 10 0 0))
      3 3 true [] = Some (s', lastTile')
    /\ lastTile' = [(3, 3)]
    /\ List.length (objects s') = 1%nat
    /\ tryToPaint registry sameCellItems s' (Some (mkPaint 10 0 0))
         3 3 true lastTile' = Some (s', lastTile').
Proof.
  eexists _, _. split; [ vm_compute; reflexivity | ].
  split; [ reflexivity | ]. split; [ reflexivity | ].
  apply (PaintFacts.paint_once_per_drag registry sameCellItems (sceneOf 1)
           (mkPaint 10 0 0) 3 3 true []).
  vm_compute. reflexivity.
Defined.

Lemma paint_keeps_grid_exclusive_witness :
  exists s' lastTile',
    gridExclusive (sceneOf 1)
    /\ tryToPaint registry sameCellItems (sceneOf 1) (Some (mkPaint 1000 0 0))
         3 3 false [] = Some (s', lastTile')
    /\ map entType (objects s') = [1000]
    /\ gridExclusive s'.
Proof.
  assert (H0 : gridExclusive (sceneOf 1)).
  { intros x y. vm_compute. apply le_0_n. }
  eexists _, _. split; [ exact H0 | ].
  split; [ vm_compute; reflexivity | ]. split; [ reflexivity | ].
  refine (PaintFacts.paint_keeps_grid_exclusive registry sameCellItems
            (sceneOf 1) (mkPaint 1000 0 0) 3 3 false [] _ [(3, 3)] H0 _).
  vm_compute. reflexivity.
Defined.

Lemma respawn_keeps_doors_witness :
  exists s' u,
    Entity_init registry sameCellItems (sceneOf 1) 7 1 10 0 0 true = Some (s', u)
    /\ map blockingCount (doorItems s') = [1; 0; 0; 0]
    /\ map doorItem (doorItems s') = map doorItem (doorItems (sceneOf 1)).
Proof.
  eexists _, _. split; [ vm_compute; reflexivity | ].
  split; [ reflexivity | ].
  refine (PaintFacts.respawn_keeps_doors registry sameCellItems (sceneOf 1)
            7 1 10 0 0 _ 1%nat _).
  vm_compute. reflexivity.
Defined.

End PaintWitnesses.

(** ** What the edits keep *)

Module SessionFacts.
Import RoomInfo Scene Editor Props Terms Edits SceneFacts.

(** *** The skeleton of a scene under the primitive updates *)

Lemma skeleton_updateEnt_same u f os :
  (forall e, skeleton (f e) = skeleton e) ->
  map skeleton (updateEnt u f os) = map skeleton os.
Proof.
  intros Hf. unfold updateEnt. rewrite map_map. apply map_ext.
  intros e. destruct (Nat.eqb (uid e) u); [ apply Hf | reflexivity ].
Qed.

Lemma skeleton_updateWhere_same p f os :
  (forall e, skeleton (f e) = skeleton e) ->
  map skeleton (updateWhere p f os) = map skeleton os.
Proof.
  intros Hf. unfold updateWhere. rewrite map_map. apply map_ext.
  intros e. destruct (p e); [ apply Hf | reflexivity ].
Qed.

Lemma skeleton_updateEnt_move u x y r os :
  map skeleton
    (updateEnt u (fun e => setXY e x y)
       (updateEnt u (fun e => setParentItem e (Some r)) os))
  = map (relocate u x y r) (map skeleton os).
Proof.
  unfold updateEnt. rewrite !map_map. apply map_ext. intros e.
  unfold relocate. simpl.
  destruct (Nat.eqb (uid e) u) eqn:E; simpl; [ | rewrite E; reflexivity ].
  rewrite E. reflexivity.
Qed.

Lemma updateEnt_compose u f g os :
  (forall e, uid (f e) = uid e) ->
  updateEnt u g (updateEnt u f os) = updateEnt u (fun e => g (f e)) os.
Proof.
  intros Hf. unfold updateEnt. rewrite map_map. apply map_ext. intros e.
  destruct (Nat.eqb (uid e) u) eqn:E; [ rewrite Hf, E | rewrite E ]; reflexivity.
Qed.

(** *** What each operation does to skeleton and doors *)

Section WithCollaborators.
Variable getEntityInfo : Z -> Z -> Z -> EntityConfig.
Variable collidingItems : RoomScene -> Entity -> list Entity.

Lemma getStack_effect s self :
  sameRoom s (getStack collidingItems s self)
  /\ skeletons (getStack collidingItems s self) = skeletons s
  /\ doorItems (getStack collidingItems s self) = doorItems s.
Proof.
  unfold getStack. destruct (findEnt s self);
    [ | repeat split; reflexivity ].
  repeat split. unfold skeletons. simpl objects.
  apply skeleton_updateEnt_same. reflexivity.
Qed.

Lemma Entity_init_effect s x y t v st resp s' u :
  Entity_init getEntityInfo collidingItems s x y t v st resp = Some (s', u) ->
  (0 <= x < roomWidth s /\ 0 <= y < roomHeight s)
  /\ sameRoom s s'
  /\ skeletons s'
     = skeletons s
       ++ [mkSkeleton (freshUid s) x y (Some y)
             (cfgBlocksDoor (getEntityInfo t v st))]
  /\ doorItems s'
     = doorsAfter s (cfgBlocksDoor (getEntityInfo t v st)) x y false resp.
Proof.
  intros H.
  destruct (PaintFacts.Entity_init_inside _ _ _ _ _ _ _ _ _ _ H) as [Hx Hy].
  destruct (Entity_init_spec getEntityInfo collidingItems s x y t v st resp Hx Hy)
    as [sd Hspec].
  rewrite Hspec in H. injection H as <- _.
  split; [ split; assumption | ].
  split; [ repeat split | ].
  split; [ | reflexivity ].
  unfold skeletons. simpl objects. rewrite map_app. reflexivity.
Qed.

Lemma remove_effect s self s' :
  remove s self = Some s' ->
  exists me,
    findEnt s self = Some me
    /\ sameRoom s s'
    /\ skeletons s' = filter (fun k => negb (Nat.eqb (kUid k) self)) (skeletons s)
    /\ doorItems s' = doorsAfter s (blocksDoor me) (entX me) (entY me) true false.
Proof.
  unfold remove. destruct (findEnt s self) as [me |]; [ | discriminate ].
  intros H; injection H as <-. exists me. split; [ reflexivity | ].
  rewrite updateBlockedDoor_eq. simpl.
  split; [ repeat split | ]. split; [ | reflexivity ].
  unfold skeletons. simpl objects.
  induction (objects s) as [| e os IH]; simpl; [ reflexivity | ].
  destruct (Nat.eqb (uid e) self); simpl; [ exact IH | rewrite IH; reflexivity ].
Qed.

(** [updateCoords] with [depth = -1] on an entity of the scene that changes
    cell. *)
Lemma updateCoords_move_effect s self x y me p s' :
  findEnt s self = Some me ->
  parentItem me = Some p ->
  negb (entX me =? x) || negb (entY me =? y) = true ->
  updateCoords s self x y (-1) = Some s' ->
  0 <= y < roomHeight s
  /\ sameRoom s s'
  /\ skeletons s' = map (relocate self x y y) (skeletons s)
  /\ doorItems s'
     = doorsAfter
         (setDoorItems s
            (doorsAfter s (blocksDoor me) (entX me) (entY me) true false))
         (blocksDoor me) x y false false.
Proof.
  intros Hme Hp Hmov. unfold updateCoords. rewrite Hme, Hp, Hmov.
  simpl. unfold roomRow.
  destruct ((0 <=? y) && (y <? roomHeight s)) eqn:Hy; [ | discriminate ].
  destruct ((0 <=? entY me) && (entY me <? roomHeight s)); [ | discriminate ].
  intros H; injection H as <-.
  rewrite !updateBlockedDoor_eq. simpl.
  apply andb_true_iff in Hy. destruct Hy as [Hy0 Hy1].
  apply Z.leb_le in Hy0. apply Z.ltb_lt in Hy1.
  split; [ lia | ]. split; [ repeat split | ]. split; [ | reflexivity ].
  unfold skeletons. simpl objects.
  rewrite <- (skeleton_updateWhere_same
                (fun e => inCoord self (entX me) (entY me) e
                          && (zValue e >? zValue me))
                (fun e => setZValue e (zValue e - 1)) (objects s))
    by reflexivity.
  rewrite <- skeleton_updateEnt_move.
  rewrite !updateEnt_compose by reflexivity.
  unfold updateEnt. rewrite !map_map. apply map_ext. intros e.
  destruct (Nat.eqb (uid e) self); reflexivity.
Qed.

End WithCollaborators.


(** *** The two invariants, read on the skeleton *)

Lemma wellFormed_skeletons s :
  wellFormed s <->
  NoDup (map kUid (skeletons s))
  /\ Forall (wfSkeleton (roomWidth s) (roomHeight s)) (skeletons s)
  /\ Z.of_nat (List.length (entCache s)) = roomWidth s * roomHeight s.
Proof.
  unfold wellFormed, skeletons. rewrite map_map, Forall_map. simpl. tauto.
Qed.

Lemma blockers_skeletons s d :
  blockers s d
  = Z.of_nat (List.length (filter (counted (roomInfo s) d) (skeletons s))).
Proof.
  unfold blockers, sceneEntities, skeletons. f_equal.
  induction (objects s) as [| e os IH]; simpl; [ reflexivity | ].
  unfold counted at 1. simpl.
  destruct (parentItem e); simpl; [ | exact IH ].
  destruct (blocksThis (roomInfo s) d (blocksDoor e) (entX e) (entY e)); simpl;
    rewrite IH; reflexivity.
Qed.

Lemma blocksThis_same_position info d d' blocks x y :
  doorXY d' = doorXY d ->
  blocksThis info d' blocks x y = blocksThis info d blocks x y.
Proof.
  unfold doorXY, blocksThis, sameXY. intros H. injection H as Hx Hy.
  rewrite Hx, Hy. reflexivity.
Qed.

Lemma counted_same_position info d d' k :
  doorXY d' = doorXY d -> counted info d' k = counted info d k.
Proof.
  intros H. unfold counted. rewrite (blocksThis_same_position _ _ _ _ _ _ H).
  reflexivity.
Qed.

(** Counting over a list in which one element is taken out or replaced. *)
Lemma count_without (q : Skeleton -> bool) l a :
  NoDup (map kUid l) -> In a l ->
  (List.length (filter q (filter (fun k => negb (Nat.eqb (kUid k) (kUid a))) l))
   + (if q a then 1 else 0)
   = List.length (filter q l))%nat.
Proof.
  induction l as [| k l IH]; simpl; intros Hnd Hin; [ contradiction | ].
  inversion Hnd as [| ? ? Hnotin Hnd']; subst.
  destruct Hin as [-> | Hin].
  - rewrite Nat.eqb_refl. simpl.
    assert (Hrest : filter (fun k => negb (Nat.eqb (kUid k) (kUid a))) l = l).
    { apply forallb_filter_id. apply forallb_forall. intros k Hk.
      apply negb_true_iff, Nat.eqb_neq. intros E. apply Hnotin.
      rewrite <- E. apply in_map, Hk. }
    rewrite Hrest. destruct (q a); simpl; lia.
  - assert (Hne : Nat.eqb (kUid k) (kUid a) = false).
    { apply Nat.eqb_neq. intros E. apply Hnotin. rewrite E. apply in_map, Hin. }
    rewrite Hne. simpl. specialize (IH Hnd' Hin).
    destruct (q k); simpl; lia.
Qed.

Lemma count_relocated (q : Skeleton -> bool) l a x y r :
  NoDup (map kUid l) -> In a l ->
  (List.length (filter q (map (relocate (kUid a) x y r) l))
   + (if q a then 1 else 0)
   = List.length (filter q l)
     + (if q (mkSkeleton (kUid a) x y (Some r) (kBlocks a)) then 1 else 0))%nat.
Proof.
  induction l as [| k l IH]; simpl; intros Hnd Hin; [ contradiction | ].
  inversion Hnd as [| ? ? Hnotin Hnd']; subst.
  destruct Hin as [-> | Hin].
  - unfold relocate at 1. rewrite Nat.eqb_refl.
    assert (Hrest : map (relocate (kUid a) x y r) l = l).
    { rewrite <- (map_id l) at 2. apply map_ext_in. intros k Hk.
      unfold relocate.
      replace (Nat.eqb (kUid k) (kUid a)) with false; [ reflexivity | ].
      symmetry. apply Nat.eqb_neq. intros E. apply Hnotin.
      rewrite <- E. apply in_map, Hk. }
    rewrite Hrest.
    destruct (q a), (q (mkSkeleton (kUid a) x y (Some r) (kBlocks a))); simpl; lia.
  - assert (Hne : Nat.eqb (kUid k) (kUid a) = false).
    { apply Nat.eqb_neq. intros E. apply Hnotin. rewrite E. apply in_map, Hin. }
    unfold relocate at 1. rewrite Hne. specialize (IH Hnd' Hin).
    destruct (q k); simpl; lia.
Qed.

Lemma findEnt_skeleton s self me :
  findEnt s self = Some me ->
  In (skeleton me) (skeletons s) /\ kUid (skeleton me) = self.
Proof.
  unfold findEnt. intros H. apply find_some in H. destruct H as [Hin Hu].
  split; [ apply in_map, Hin | apply Nat.eqb_eq, Hu ].
Qed.

(** *** The doors after one call of [updateBlockedDoor] *)

Lemma blockDoor_count val countOnly d :
  doorXY (blockDoor val countOnly d) = doorXY d
  /\ blockingCount (blockDoor val countOnly d)
     = blockingCount d + (if val then -1 else 1).
Proof.
  unfold blockDoor.
  destruct (Bool.eqb (blockingCount d =? 0) (exists_ d)
            && exists_ (setBlockingCount d (blockingCount d + (if val then -1 else 1)))
            && negb countOnly); split; reflexivity.
Qed.

Lemma sameXY_doorXY d bd :
  sameXY (doorItem d) bd = true <-> doorXY d = (doorX bd, doorY bd).
Proof.
  unfold sameXY, doorXY. rewrite andb_true_iff, !Z.eqb_eq.
  split; [ intros [-> ->]; reflexivity | intros H; injection H; auto ].
Qed.

Lemma updateDoors_stepped (bd : DoorItem) (val countOnly : bool) ds :
  NoDup (map doorXY ds) ->
  Forall2 (fun d d' =>
             doorXY d' = doorXY d
             /\ blockingCount d'
                = blockingCount d
                  + (if val then -1 else 1) * Z.b2z (sameXY (doorItem d) bd))
          ds (updateDoors bd val countOnly ds).
Proof.
  induction ds as [| d ds IH]; simpl; intros Hnd; [ constructor | ].
  inversion Hnd as [| ? ? Hnotin Hnd']; subst.
  destruct (sameXY (doorItem d) bd) eqn:E.
  - constructor.
    + destruct (blockDoor_count val countOnly d) as [Hxy Hc].
      split; [ exact Hxy | ]. rewrite Hc, E. destruct val; simpl; lia.
    + clear IH Hnd Hnd'. apply sameXY_doorXY in E.
      induction ds as [| r ds IH]; constructor.
      * split; [ reflexivity | ].
        replace (sameXY (doorItem r) bd) with false; [ destruct val; simpl; lia | ].
        symmetry. apply not_true_iff_false. intros Hr.
        apply sameXY_doorXY in Hr. apply Hnotin. left. congruence.
      * apply IH. intros Hin. apply Hnotin. right. exact Hin.
  - constructor; [ split; [ reflexivity | rewrite E; destruct val; simpl; lia ] | apply IH, Hnd' ].
Qed.

Lemma Forall2_same {A} (R : A -> A -> Prop) l :
  (forall a, R a a) -> Forall2 R l l.
Proof. intros H. induction l; constructor; auto. Qed.

Lemma doorsAfter_stepped s blocks x y val countOnly :
  NoDup (map doorXY (doorItems s)) ->
  Forall2 (stepped (roomInfo s) blocks x y val)
          (doorItems s) (doorsAfter s blocks x y val countOnly).
Proof.
  intros Hnd. unfold doorsAfter, stepped, blocksThis.
  destruct blocks; simpl.
  - destruct (inFrontOfDoor (roomInfo s) x y) as [bd |].
    + apply updateDoors_stepped, Hnd.
    + apply Forall2_same. intros d. split; [ reflexivity | destruct val; simpl; lia ].
  - apply Forall2_same. intros d. split; [ reflexivity | destruct val; simpl; lia ].
Qed.

Lemma Forall2_positions (R : Door -> Door -> Prop) ds ds' :
  Forall2 R ds ds' ->
  (forall d d', R d d' -> doorXY d' = doorXY d) ->
  map doorXY ds' = map doorXY ds.
Proof.
  intros H HR. induction H; simpl; [ reflexivity | ].
  rewrite (HR _ _ H), IHForall2. reflexivity.
Qed.


(** *** Each kind of change keeps the invariants *)

Lemma blockers_same_position s d d' :
  doorXY d' = doorXY d -> blockers s d' = blockers s d.
Proof.
  intros H. rewrite !blockers_skeletons. do 2 f_equal.
  apply filter_ext. intros k. apply counted_same_position, H.
Qed.

Lemma counts_step s s' ds ds' (delta : Door -> Z) :
  Forall (fun d => blockingCount d = blockers s d) ds ->
  Forall2 (fun d d' => doorXY d' = doorXY d
                       /\ blockingCount d' = blockingCount d + delta d) ds ds' ->
  (forall d, blockers s' d = blockers s d + delta d) ->
  Forall (fun d' => blockingCount d' = blockers s' d') ds'.
Proof.
  intros Hcount Hstep Hblock.
  induction Hstep as [| d d' ds ds' [Hxy Hc] _ IH]; [ constructor | ].
  inversion Hcount as [| ? ? Hd Hrest]; subst.
  constructor; [ | apply IH, Hrest ].
  rewrite (blockers_same_position s' d d' Hxy), Hblock, Hc, Hd. reflexivity.
Qed.

Lemma sameRoom_tableRoom s s' : sameRoom s s' -> tableRoom s -> tableRoom s'.
Proof.
  intros [Hi [Hw [Hh _]]] [Hid Hdims]. unfold tableRoom.
  rewrite Hi, Hw, Hh. split; assumption.
Qed.

(** Nothing the invariants look at has changed. *)
Lemma unchanged_keeps_tracked s s' :
  sameRoom s s' -> skeletons s' = skeletons s -> doorItems s' = doorItems s ->
  tracked s -> tracked s'.
Proof.
  intros Hroom Hsk Hdoors [Hwf [[Hnd Hcount] Htable]].
  pose proof Hroom as [Hi [Hw [Hh Hc]]].
  split; [ | split; [ | apply (sameRoom_tableRoom s); assumption ] ].
  - apply wellFormed_skeletons. apply wellFormed_skeletons in Hwf.
    rewrite Hsk, Hw, Hh, Hc. exact Hwf.
  - split; rewrite Hdoors; [ exact Hnd | ].
    eapply Forall_impl; [ | exact Hcount ].
    intros d Hd. rewrite Hd, !blockers_skeletons, Hsk, Hi. reflexivity.
Qed.

Lemma NoDup_snoc {A} (l : list A) a : NoDup l -> ~ In a l -> NoDup (l ++ [a]).
Proof.
  induction l as [| b l IH]; simpl; intros Hnd Hin.
  - constructor; [ intros [] | constructor ].
  - inversion Hnd as [| ? ? Hb Hl]; subst. constructor.
    + rewrite in_app_iff. simpl. intros [H | [H | []]]; [ auto | subst; auto ].
    + apply IH; [ exact Hl | auto ].
Qed.

Lemma fresh_not_in_skeletons s : ~ In (freshUid s) (map kUid (skeletons s)).
Proof.
  unfold skeletons. rewrite map_map. simpl. intros Hin.
  apply in_map_iff in Hin. destruct Hin as [e [Hu He]].
  pose proof (uid_below_fresh s e He). lia.
Qed.

(** An entity has been added. *)
Lemma added_keeps_tracked s s' x y blocks countOnly :
  0 <= x < roomWidth s -> 0 <= y < roomHeight s ->
  sameRoom s s' ->
  skeletons s' = skeletons s ++ [mkSkeleton (freshUid s) x y (Some y) blocks] ->
  doorItems s' = doorsAfter s blocks x y false countOnly ->
  tracked s -> tracked s'.
Proof.
  intros Hx Hy Hroom Hsk Hdoors [Hwf [[Hnd Hcount] Htable]].
  pose proof Hroom as [Hi [Hw [Hh Hc]]].
  split; [ | split; [ | apply (sameRoom_tableRoom s); assumption ] ].
  - apply wellFormed_skeletons. apply wellFormed_skeletons in Hwf.
    destruct Hwf as [Huid [Hall Hlen]].
    rewrite Hsk, Hw, Hh, Hc. split; [ | split; [ | exact Hlen ] ].
    + rewrite map_app. simpl. apply NoDup_snoc; [ exact Huid | ].
      apply fresh_not_in_skeletons.
    + apply Forall_app. split; [ exact Hall | ].
      constructor; [ | constructor ]. repeat split; simpl; lia.
  - pose proof (doorsAfter_stepped s blocks x y false countOnly Hnd) as Hstep.
    rewrite <- Hdoors in Hstep.
    split.
    + rewrite (Forall2_positions _ _ _ Hstep); [ exact Hnd | ].
      intros d d' [H _]. exact H.
    + apply (counts_step s s' (doorItems s) (doorItems s')
               (fun d => Z.b2z (blocksThis (roomInfo s) d blocks x y)) Hcount).
      * eapply Forall2_impl; [ | exact Hstep ].
        intros d d' [H1 H2]. split; [ exact H1 | rewrite H2; lia ].
      * intros d. rewrite !blockers_skeletons, Hsk, Hi, filter_app, length_app.
        simpl. unfold counted at 2. simpl.
        destruct (blocksThis (roomInfo s) d blocks x y); simpl; lia.
Qed.


Lemma NoDup_map_filter {A B} (f : A -> B) (p : A -> bool) l :
  NoDup (map f l) -> NoDup (map f (filter p l)).
Proof.
  induction l as [| a l IH]; simpl; intros Hnd; [ constructor | ].
  inversion Hnd as [| ? ? Ha Hl]; subst.
  destruct (p a); simpl; [ | apply IH, Hl ].
  constructor; [ | apply IH, Hl ].
  intros Hin. apply Ha. apply in_map_iff in Hin.
  destruct Hin as [b [Hb Hin]]. apply filter_In in Hin.
  rewrite <- Hb. apply in_map, Hin.
Qed.

Lemma wellFormed_found s self me :
  wellFormed s -> findEnt s self = Some me ->
  parentItem me = Some (entY me)
  /\ 0 <= entX me < roomWidth s /\ 0 <= entY me < roomHeight s.
Proof.
  intros [_ [Hall _]] Hme. unfold findEnt in Hme.
  apply find_some in Hme. rewrite Forall_forall in Hall.
  apply Hall, Hme.
Qed.

(** An entity has been taken out. *)
Lemma removed_keeps_tracked s s' self me :
  findEnt s self = Some me ->
  sameRoom s s' ->
  skeletons s' = filter (fun k => negb (Nat.eqb (kUid k) self)) (skeletons s) ->
  doorItems s' = doorsAfter s (blocksDoor me) (entX me) (entY me) true false ->
  tracked s -> tracked s'.
Proof.
  intros Hme Hroom Hsk Hdoors [Hwf [[Hnd Hcount] Htable]].
  pose proof Hroom as [Hi [Hw [Hh Hc]]].
  destruct (wellFormed_found s self me Hwf Hme) as [Hp _].
  destruct (findEnt_skeleton s self me Hme) as [Hin Huid].
  split; [ | split; [ | apply (sameRoom_tableRoom s); assumption ] ].
  - apply wellFormed_skeletons. apply wellFormed_skeletons in Hwf.
    destruct Hwf as [Hu [Hall Hlen]].
    rewrite Hsk, Hw, Hh, Hc. split; [ | split; [ | exact Hlen ] ].
    + apply NoDup_map_filter, Hu.
    + apply Forall_forall. intros k Hk. apply filter_In in Hk.
      rewrite Forall_forall in Hall. apply Hall, Hk.
  - pose proof (doorsAfter_stepped s (blocksDoor me) (entX me) (entY me)
                  true false Hnd) as Hstep.
    rewrite <- Hdoors in Hstep.
    split.
    + rewrite (Forall2_positions _ _ _ Hstep); [ exact Hnd | ].
      intros d d' [H _]. exact H.
    + apply (counts_step s s' (doorItems s) (doorItems s')
               (fun d => - Z.b2z (blocksThis (roomInfo s) d (blocksDoor me)
                                    (entX me) (entY me))) Hcount).
      * eapply Forall2_impl; [ | exact Hstep ].
        intros d d' [H1 H2]. split; [ exact H1 | rewrite H2; lia ].
      * intros d. rewrite !blockers_skeletons, Hsk, Hi.
        apply wellFormed_skeletons in Hwf. destruct Hwf as [Hu _].
        pose proof (count_without (counted (roomInfo s) d) (skeletons s)
                      (skeleton me) Hu Hin) as Hcnt.
        rewrite Huid in Hcnt.
        unfold counted at 2 in Hcnt. simpl in Hcnt. rewrite Hp in Hcnt.
        simpl in Hcnt.
        destruct (blocksThis (roomInfo s) d (blocksDoor me) (entX me) (entY me));
          simpl; lia.
Qed.

(** An entity has been given a cell (its own or another), and the doors
    have counted it out of the old cell and into the new one. *)
Lemma relocated_keeps_tracked s s' self me x y :
  findEnt s self = Some me ->
  0 <= x < roomWidth s -> 0 <= y < roomHeight s ->
  sameRoom s s' ->
  skeletons s' = map (relocate self x y y) (skeletons s) ->
  Forall2 (fun d d' =>
             doorXY d' = doorXY d
             /\ blockingCount d'
                = blockingCount d
                  - Z.b2z (blocksThis (roomInfo s) d (blocksDoor me)
                             (entX me) (entY me))
                  + Z.b2z (blocksThis (roomInfo s) d (blocksDoor me) x y))
          (doorItems s) (doorItems s') ->
  tracked s -> tracked s'.
Proof.
  intros Hme Hx Hy Hroom Hsk Hstep [Hwf [[Hnd Hcount] Htable]].
  pose proof Hroom as [Hi [Hw [Hh Hc]]].
  destruct (wellFormed_found s self me Hwf Hme) as [Hp _].
  destruct (findEnt_skeleton s self me Hme) as [Hin Huid].
  split; [ | split; [ | apply (sameRoom_tableRoom s); assumption ] ].
  - apply wellFormed_skeletons. apply wellFormed_skeletons in Hwf.
    destruct Hwf as [Hu [Hall Hlen]].
    rewrite Hsk, Hw, Hh, Hc. split; [ | split; [ | exact Hlen ] ].
    + rewrite map_map.
      replace (map (fun k => kUid (relocate self x y y k)) (skeletons s))
        with (map kUid (skeletons s)); [ exact Hu | ].
      apply map_ext. intros k. unfold relocate.
      destruct (Nat.eqb (kUid k) self); reflexivity.
    + apply Forall_map. eapply Forall_impl; [ | exact Hall ].
      intros k Hk. unfold relocate.
      destruct (Nat.eqb (kUid k) self); [ | exact Hk ].
      repeat split; simpl; lia.
  - split.
    + rewrite (Forall2_positions _ _ _ Hstep); [ exact Hnd | ].
      intros d d' [H _]. exact H.
    + apply (counts_step s s' (doorItems s) (doorItems s')
               (fun d => - Z.b2z (blocksThis (roomInfo s) d (blocksDoor me)
                                    (entX me) (entY me))
                         + Z.b2z (blocksThis (roomInfo s) d (blocksDoor me) x y))
               Hcount).
      * eapply Forall2_impl; [ | exact Hstep ].
        intros d d' [H1 H2]. split; [ exact H1 | rewrite H2; lia ].
      * intros d. rewrite !blockers_skeletons, Hsk, Hi.
        apply wellFormed_skeletons in Hwf. destruct Hwf as [Hu _].
        pose proof (count_relocated (counted (roomInfo s) d) (skeletons s)
                      (skeleton me) x y y Hu Hin) as Hcnt.
        rewrite Huid in Hcnt.
        unfold counted at 2 4 in Hcnt. simpl in Hcnt. rewrite Hp in Hcnt.
        simpl in Hcnt.
        destruct (blocksThis (roomInfo s) d (blocksDoor me) (entX me) (entY me)),
                 (blocksThis (roomInfo s) d (blocksDoor me) x y);
          simpl in *; lia.
Qed.


Lemma same_uid_same_skeleton l a b :
  NoDup (map kUid l) -> In a l -> In b l -> kUid a = kUid b -> a = b.
Proof.
  induction l as [| k l IH]; simpl; intros Hnd Ha Hb Hu; [ contradiction | ].
  inversion Hnd as [| ? ? Hk Hl]; subst.
  destruct Ha as [-> | Ha], Hb as [-> | Hb]; auto.
  - exfalso. apply Hk. rewrite Hu. apply in_map, Hb.
  - exfalso. apply Hk. rewrite <- Hu. apply in_map, Ha.
Qed.

Lemma skeleton_updateEnt_relocate u x y r g os :
  (forall e, skeleton (g e) = mkSkeleton (uid e) x y (Some r) (blocksDoor e)) ->
  map skeleton (updateEnt u g os) = map (relocate u x y r) (map skeleton os).
Proof.
  intros Hg. unfold updateEnt. rewrite !map_map. apply map_ext. intros e.
  unfold relocate. simpl.
  destruct (Nat.eqb (uid e) u); [ apply Hg | reflexivity ].
Qed.

(** [updateCoords(x, y)] on an entity of a well-formed scene: the entity
    gets the cell, its row becomes its parent, and when the cell is a new
    one the doors count it out of the old cell and into the new one. *)
Lemma updateCoords_top_effect s self x y s' :
  wellFormed s ->
  updateCoords s self x y (-1) = Some s' ->
  exists me,
    findEnt s self = Some me
    /\ 0 <= y < roomHeight s
    /\ sameRoom s s'
    /\ skeletons s' = map (relocate self x y y) (skeletons s)
    /\ doorItems s'
       = if negb (entX me =? x) || negb (entY me =? y)
         then doorsAfter
                (setDoorItems s
                   (doorsAfter s (blocksDoor me) (entX me) (entY me) true false))
                (blocksDoor me) x y false false
         else doorItems s.
Proof.
  intros Hwf H.
  destruct (findEnt s self) as [me |] eqn:Hme;
    [ | unfold updateCoords in H; rewrite Hme in H; discriminate ].
  exists me. split; [ reflexivity | ].
  destruct (wellFormed_found s self me Hwf Hme) as [Hp [Hx0 Hy0]].
  destruct (negb (entX me =? x) || negb (entY me =? y)) eqn:Hmov.
  { exact (updateCoords_move_effect s self x y me (entY me) s' Hme Hp Hmov H). }
  apply orb_false_iff in Hmov. destruct Hmov as [Ex Ey].
  apply negb_false_iff, Z.eqb_eq in Ex. apply negb_false_iff, Z.eqb_eq in Ey.
  subst x y.
  split; [ exact Hy0 | ].
  unfold updateCoords in H. rewrite Hme, Hp, !Z.eqb_refl in H.
  rewrite (roomRow_inside s (entY me) Hy0) in H.
  destruct (-1 =? zValue me) eqn:Ez; simpl in H; injection H as <-.
  - split; [ repeat split | ]. split; [ | reflexivity ].
    unfold skeletons. simpl objects.
    unfold updateEnt. rewrite !map_map. apply map_ext_in. intros e He.
    unfold relocate. simpl.
    destruct (Nat.eqb (uid e) self) eqn:E; [ | reflexivity ].
    (* the only object with this uid is [me] *)
    apply Nat.eqb_eq in E.
    apply wellFormed_skeletons in Hwf. destruct Hwf as [Hu _].
    destruct (findEnt_skeleton s self me Hme) as [Hin Huid].
    assert (Hsame : skeleton e = skeleton me).
    { apply (same_uid_same_skeleton (skeletons s)); auto.
      - apply in_map, He.
      - simpl. simpl in Huid. congruence. }
    unfold skeleton in Hsame. injection Hsame as _ _ Hy Hpar _.
    unfold skeleton. simpl. rewrite Hpar, Hp. reflexivity.
  - split; [ repeat split | ]. split; [ | reflexivity ].
    unfold skeletons. simpl objects.
    rewrite updateEnt_compose by reflexivity.
    apply skeleton_updateEnt_relocate. reflexivity.
Qed.

Lemma toggle_keeps_doors i ds :
  Forall2 (fun d d' => doorXY d' = doorXY d
                       /\ blockingCount d' = blockingCount d + 0)
          ds (mouseDoubleClickEvent i ds).
Proof.
  revert i. induction ds as [| d ds IH]; intros i; [ destruct i; constructor | ].
  destruct i as [| i]; simpl.
  - constructor; [ split; [ reflexivity | simpl; lia ] | ].
    apply Forall2_same. intros d'. split; [ reflexivity | lia ].
  - constructor; [ split; [ reflexivity | lia ] | apply IH ].
Qed.

(** A double click on a door changes neither a position nor a count. *)
Lemma toggled_keeps_tracked s i : tracked s -> tracked (toggleDoor s i).
Proof.
  intros [Hwf [[Hnd Hcount] Htable]].
  split; [ exact Hwf | split; [ | exact Htable ] ].
  split; simpl.
  - rewrite (Forall2_positions _ _ _ (toggle_keeps_doors i (doorItems s)));
      [ exact Hnd | ].
    intros d d' [H _]. exact H.
  - apply (counts_step s (toggleDoor s i) (doorItems s) _ (fun _ => 0) Hcount
             (toggle_keeps_doors i (doorItems s))).
    intros d. rewrite Z.add_0_r. reflexivity.
Qed.

Lemma Forall2_chain {A} (R1 R2 R3 : A -> A -> Prop) a b c :
  Forall2 R1 a b -> Forall2 R2 b c ->
  (forall x y z, R1 x y -> R2 y z -> R3 x z) ->
  Forall2 R3 a c.
Proof.
  intros H1. revert c. induction H1 as [| x y a b Hxy _ IH]; intros c H2 Hc.
  - inversion H2. constructor.
  - inversion H2 as [| ? z ? c' Hyz Hrest]; subst.
    constructor; [ eapply Hc; eassumption | apply IH; assumption ].
Qed.

(** The doors after an entity has gone from one cell to another. *)
Lemma doors_out_and_in s blocks x0 y0 x y :
  NoDup (map doorXY (doorItems s)) ->
  Forall2 (fun d d' =>
             doorXY d' = doorXY d
             /\ blockingCount d'
                = blockingCount d
                  - Z.b2z (blocksThis (roomInfo s) d blocks x0 y0)
                  + Z.b2z (blocksThis (roomInfo s) d blocks x y))
          (doorItems s)
          (doorsAfter
             (setDoorItems s (doorsAfter s blocks x0 y0 true false))
             blocks x y false false).
Proof.
  intros Hnd.
  pose proof (doorsAfter_stepped s blocks x0 y0 true false Hnd) as H1.
  assert (Hnd1 : NoDup (map doorXY (doorsAfter s blocks x0 y0 true false))).
  { rewrite (Forall2_positions _ _ _ H1); [ exact Hnd | ].
    intros d d' [H _]. exact H. }
  pose proof (doorsAfter_stepped
                (setDoorItems s (doorsAfter s blocks x0 y0 true false))
                blocks x y false false Hnd1) as H2.
  simpl doorItems in H2. simpl roomInfo in H2.
  eapply Forall2_chain; [ exact H1 | exact H2 | ].
  intros d d1 d2 [Hxy1 Hc1] [Hxy2 Hc2]. split; [ congruence | ].
  rewrite Hc2, Hc1.
  rewrite (blocksThis_same_position (roomInfo s) d d1 blocks x y Hxy1). lia.
Qed.

Section WithEdits.
Variable getEntityInfo : Z -> Z -> Z -> EntityConfig.
Variable collidingItems : RoomScene -> Entity -> list Entity.

Lemma itemChange_effect s self cx cy snap s' :
  itemChange collidingItems s self cx cy snap = Some s' ->
  exists me,
    findEnt s self = Some me
    /\ (s' = getStack collidingItems s self
        \/ exists s1,
             updateCoords s self (fst (paintTarget s cx cy snap))
               (snd (paintTarget s cx cy snap)) (-1) = Some s1
             /\ s' = getStack collidingItems s1 self).
Proof.
  unfold itemChange, paintTarget.
  destruct (findEnt s self) as [me |]; [ | discriminate ].
  intros H. exists me. split; [ reflexivity | ].
  destruct (negb (Z.min (Z.max cx 0) (roomWidth s - 1) =? entX me)
            || negb (Z.min (Z.max cy 0) (roomHeight s - 1) =? entY me)).
  - right.
    destruct (if snap
              then snapToBounds (roomInfo s) (Z.min (Z.max cx 0) (roomWidth s - 1))
                     (Z.min (Z.max cy 0) (roomHeight s - 1)) 1
              else (Z.min (Z.max cx 0) (roomWidth s - 1),
                    Z.min (Z.max cy 0) (roomHeight s - 1))) as [x y].
    simpl. destruct (updateCoords s self x y (-1)) as [s1 |]; [ | discriminate ].
    injection H as <-. exists s1. split; reflexivity.
  - left. injection H as <-. reflexivity.
Qed.

(** The cell an edit aims at is a cell of the grid. *)
Lemma paintTarget_inGrid s cx cy snap :
  tableRoom s -> 0 < roomWidth s -> 0 < roomHeight s ->
  0 <= fst (paintTarget s cx cy snap) < roomWidth s
  /\ 0 <= snd (paintTarget s cx cy snap) < roomHeight s.
Proof.
  intros [[id Hid] Hdims] Hw Hh. unfold paintTarget.
  set (x := Z.min (Z.max cx 0) (roomWidth s - 1)).
  set (y := Z.min (Z.max cy 0) (roomHeight s - 1)).
  assert (Hx : 0 <= x < roomWidth s) by (unfold x; lia).
  assert (Hy : 0 <= y < roomHeight s) by (unfold y; lia).
  destruct snap; [ | simpl; split; assumption ].
  assert (Hin : inGrid (roomInfo s) x y = true).
  { unfold inGrid. rewrite Hdims. simpl.
    rewrite !andb_true_iff, !Z.leb_le, !Z.ltb_lt.
    destruct Hx, Hy. repeat split; assumption. }
  pose proof (GeometryFacts.snap_in_grid id (roomInfo s) x y Hid Hin) as Hg.
  unfold inGrid in Hg. rewrite Hdims in Hg. simpl in Hg.
  rewrite !andb_true_iff, !Z.leb_le, !Z.ltb_lt in Hg.
  destruct Hg as [[[H1 H2] H3] H4]. repeat split; assumption.
Qed.

(** One edit: a scene whose bookkeeping is sound is still so after a paint,
    a drag, a deletion, a spawn or a double click on a door. *)
Lemma edit_keeps_tracked (s s' : RoomScene) (e : Edit) :
  tracked s ->
  applyEdit getEntityInfo collidingItems s e = Some s' ->
  tracked s'.
Proof.
  intros Htr H.
  destruct e as [paint cx cy snap | self cx cy snap | self | x y t v st resp | i];
    cbn [applyEdit] in H.
  - (* Paint *)
    destruct (tryToPaint getEntityInfo collidingItems s (Some paint) cx cy snap [])
      as [[s1 lt] |] eqn:E; [ | discriminate ].
    injection H as <-.
    apply PaintFacts.tryToPaint_result in E. simpl in E.
    destruct E as [[_ [-> _]] | [_ [_ [_ [[Hx Hy] [sd ->]]]]]]; [ exact Htr | ].
    eapply (added_keeps_tracked s _ _ _ _ false Hx Hy); [ | | | exact Htr ].
    + repeat split.
    + unfold skeletons. simpl objects. rewrite map_app. reflexivity.
    + reflexivity.
  - (* Drag *)
    destruct (itemChange_effect _ _ _ _ _ _ H) as [me [Hme [-> | [s1 [Hup ->]]]]].
    + destruct (getStack_effect collidingItems s self) as [Hroom [Hsk Hdoors]].
      exact (unchanged_keeps_tracked _ _ Hroom Hsk Hdoors Htr).
    + pose proof Htr as [Hwf [[Hnd Hcount] Htable]].
      destruct (updateCoords_top_effect _ _ _ _ _ Hwf Hup)
        as [me' [Hme' [Hy [Hroom [Hsk Hdoors]]]]].
      rewrite Hme in Hme'. injection Hme' as <-.
      destruct (wellFormed_found s self me Hwf Hme) as [_ [Hx0 Hy0]].
      assert (Hx : 0 <= fst (paintTarget s cx cy snap) < roomWidth s).
      { apply paintTarget_inGrid; [ exact Htable | lia | lia ]. }
      assert (Htr1 : tracked s1).
      { apply (relocated_keeps_tracked s s1 self me _ _ Hme Hx Hy Hroom Hsk);
          [ | exact Htr ].
        rewrite Hdoors.
        destruct (negb (entX me =? fst (paintTarget s cx cy snap))
                  || negb (entY me =? snd (paintTarget s cx cy snap))) eqn:Hmov.
        - apply doors_out_and_in, Hnd.
        - apply orb_false_iff in Hmov. destruct Hmov as [Ex Ey].
          apply negb_false_iff, Z.eqb_eq in Ex.
          apply negb_false_iff, Z.eqb_eq in Ey.
          rewrite <- Ex, <- Ey. apply Forall2_same.
          intros d. split; [ reflexivity | lia ]. }
      destruct (getStack_effect collidingItems s1 self) as [Hroom1 [Hsk1 Hdoors1]].
      exact (unchanged_keeps_tracked _ _ Hroom1 Hsk1 Hdoors1 Htr1).
  - (* Delete *)
    destruct (remove_effect _ _ _ H) as [me [Hme [Hroom [Hsk Hdoors]]]].
    exact (removed_keeps_tracked _ _ _ _ Hme Hroom Hsk Hdoors Htr).
  - (* Spawn *)
    destruct (Entity_init getEntityInfo collidingItems s x y t v st resp)
      as [[s1 u] |] eqn:E; [ | discriminate ].
    injection H as <-.
    destruct (Entity_init_effect getEntityInfo collidingItems _ _ _ _ _ _ _ _ _ E)
      as [[Hx Hy] [Hroom [Hsk Hdoors]]].
    exact (added_keeps_tracked _ _ _ _ _ _ Hx Hy Hroom Hsk Hdoors Htr).
  - (* Toggle *)
    injection H as <-. exact (toggled_keeps_tracked s i Htr).
Qed.

Lemma distinctb_NoDup l : distinctb l = true -> NoDup l.
Proof.
  induction l as [| p l IH]; simpl; intros H; [ constructor | ].
  apply andb_true_iff in H. destruct H as [Hp Hl].
  constructor; [ | exact (IH Hl) ].
  intros Hin. apply negb_true_iff in Hp.
  assert (Hex : existsb (fun q => (fst p =? fst q) && (snd p =? snd q)) l = true).
  { apply existsb_exists. exists p. split; [ exact Hin | ].
    rewrite !Z.eqb_refl. reflexivity. }
  congruence.
Qed.

Lemma newRoomOk_table : tableCheck newRoomOk = true.
Proof. vm_compute. reflexivity. Qed.

(** The empty scene of a shape of the table is well formed, its doors
    count nothing, and it shows that shape. *)
Lemma newRoomSize_tracked id s : newRoomSize id = Some s -> tracked s.
Proof.
  unfold newRoomSize. destruct (newInfo id) as [info |] eqn:Hinfo; [ | discriminate ].
  pose proof (GeometryFacts.tableCheck_sound _ id info newRoomOk_table Hinfo) as Hok.
  unfold newRoomOk in Hok. apply andb_true_iff in Hok. destruct Hok as [Hsize Hdist].
  apply Z.leb_le in Hsize. apply distinctb_NoDup in Hdist.
  destruct (dims info) as [w h] eqn:Hdims. simpl in Hsize.
  intros H; injection H as <-.
  split; [ | split ].
  - split; [ constructor | split; [ constructor | ] ].
    simpl. rewrite repeat_length. lia.
  - split; simpl.
    + rewrite map_map. unfold doorXY. simpl. exact Hdist.
    + apply Forall_forall. intros d Hd.
      apply in_map_iff in Hd. destruct Hd as [di [<- _]]. reflexivity.
  - split; simpl; [ exists id; exact Hinfo | exact Hdims ].
Qed.

(** X8.  Starting from the empty scene of any shape of the table, after any
    sequence of paints, drags, deletions, spawns and door double clicks that
    the editor carries out, the scene is well formed (distinct entities, each
    under the row of its [y] and inside the room) and every door counts
    exactly the entities standing against it. *)
Theorem session_keeps_tracked (id : Z) (s0 s : RoomScene) (es : list Edit) :
  newRoomSize id = Some s0 ->
  applyEdits getEntityInfo collidingItems s0 es = Some s ->
  wellFormed s /\ countsExact s.
Proof.
  intros H0 H.
  assert (Htr : tracked s).
  { pose proof (newRoomSize_tracked id s0 H0) as Htr0. clear H0.
    revert s0 Htr0 H. induction es as [| e es IH]; intros s0 Htr0 H; simpl in H.
    - injection H as <-. exact Htr0.
    - destruct (applyEdit getEntityInfo collidingItems s0 e) as [s1 |] eqn:E;
        [ | discriminate ].
      exact (IH s1 (edit_keeps_tracked s0 s1 e Htr0 E) H). }
  destruct Htr as [Hwf [Hc _]]. split; assumption.
Qed.

End WithEdits.

End SessionFacts.

Module SessionWitnesses.
Import RoomInfo Scene Editor Props Terms Edits Examples.

(** A 1x1 room: an entity painted in front of the top door, a second one
    painted elsewhere and dragged onto the first, the first deleted, the top
    door double clicked, a third entity spawned. *)
Lemma session_keeps_tracked_witness :
  let es := [Paint (mkPaint 10 0 0) 7 1 false;
             Paint (mkPaint 10 0 0) 3 3 true;
             Drag 2%nat 7 1 true;
             Delete 1%nat;
             Toggle 0%nat;
             Spawn 7 1 1000 0 0 true] in
  let s := orEmpty (applyEdits registry sameCellItems (sceneOf 1) es) in
  wellFormed s /\ countsExact s.
Proof.
  intros es s.
  refine (SessionFacts.session_keeps_tracked registry sameCellItems 1
            (sceneOf 1) s es _ _).
  - vm_compute. reflexivity.
  - vm_compute. reflexivity.
Defined.

End SessionWitnesses.

(** ** Depths under a move *)

Module StackFacts.
Import RoomInfo Scene Editor Props Terms SceneFacts NeighbourFacts SessionFacts.

(** *** Lists of depths *)

Lemma dense_Permutation ds ds' :
  Permutation ds ds' -> denseDepths ds -> denseDepths ds'.
Proof.
  unfold denseDepths. intros Hp Hd.
  rewrite <- (Permutation_length Hp).
  exact (Permutation_trans (Permutation_sym Hp) Hd).
Qed.

(** One more depth on top of a dense stack. *)
Lemma dense_add ds :
  denseDepths ds -> denseDepths (Z.of_nat (List.length ds) :: ds).
Proof.
  unfold denseDepths. intros Hd. simpl List.length.
  rewrite seq_S, map_app. simpl.
  apply Permutation_cons_app. rewrite app_nil_r. exact Hd.
Qed.

Lemma closeGap_below z :
  map (closeGap (Z.of_nat z)) (map Z.of_nat (seq 0 z)) = map Z.of_nat (seq 0 z).
Proof.
  rewrite map_map. apply map_ext_in. intros k Hk. apply in_seq in Hk.
  unfold closeGap. destruct (Z.gtb_spec (Z.of_nat k) (Z.of_nat z)); lia.
Qed.

Lemma closeGap_above z len :
  map (closeGap (Z.of_nat z)) (map Z.of_nat (seq (S z) len))
  = map Z.of_nat (seq z len).
Proof.
  rewrite <- seq_shift, !map_map. apply map_ext_in. intros k Hk.
  apply in_seq in Hk. unfold closeGap.
  destruct (Z.gtb_spec (Z.of_nat (S k)) (Z.of_nat z)); lia.
Qed.

(** A depth taken out of a dense stack, and the depths above it lowered. *)
Lemma dense_remove z ds :
  denseDepths (z :: ds) -> denseDepths (map (closeGap z) ds).
Proof.
  unfold denseDepths. simpl List.length. intros Hd.
  rewrite length_map. set (n := List.length ds) in *.
  assert (Hz : In z (map Z.of_nat (seq 0 (S n)))).
  { apply (Permutation_in _ Hd). left. reflexivity. }
  apply in_map_iff in Hz. destruct Hz as [k [<- Hk]]. apply in_seq in Hk.
  assert (Hseq : seq 0 (S n) = seq 0 k ++ k :: seq (S k) (n - k)).
  { replace (S n) with (k + S (n - k))%nat by lia.
    rewrite seq_app. reflexivity. }
  rewrite Hseq, map_app in Hd. simpl in Hd.
  apply Permutation_cons_app_inv in Hd.
  apply (Permutation_map (closeGap (Z.of_nat k))) in Hd.
  rewrite map_app, (closeGap_below k), closeGap_above, <- map_app in Hd.
  rewrite <- seq_app in Hd.
  replace (k + (n - k))%nat with n in Hd by lia. exact Hd.
Qed.

(** *** The objects after a move *)

Lemma updateCoords_move_objects s self x y me s' :
  findEnt s self = Some me ->
  parentItem me = Some (entY me) ->
  negb (entX me =? x) || negb (entY me =? y) = true ->
  updateCoords s self x y (-1) = Some s' ->
  objects s'
  = map (afterMove self (entX me) (entY me) (zValue me) x y
           (Z.of_nat (List.length (entsInCoord s self x y))))
        (objects s).
Proof.
  intros Hme Hp Hmov. unfold updateCoords. rewrite Hme, Hp, Hmov.
  simpl. unfold roomRow.
  destruct ((0 <=? y) && (y <? roomHeight s)); [ | discriminate ].
  destruct ((0 <=? entY me) && (entY me <? roomHeight s)); [ | discriminate ].
  intros H; injection H as <-.
  rewrite !updateBlockedDoor_eq. simpl.
  unfold updateEnt, updateWhere. rewrite !map_map. apply map_ext. intros e.
  unfold afterMove.
  destruct (inCoord self (entX me) (entY me) e && (zValue e >? zValue me)) eqn:Hin.
  - simpl. destruct (Nat.eqb (uid e) self) eqn:Hu; simpl; [ | rewrite Hu; reflexivity ].
    unfold inCoord in Hin. rewrite Hu in Hin. simpl in Hin.
    rewrite andb_false_r in Hin. discriminate.
  - destruct (Nat.eqb (uid e) self) eqn:Hu; simpl; rewrite Hu; reflexivity.
Qed.

(** The entity found by its [uid], and the others. *)
Lemma split_by_uid os self me :
  NoDup (map uid os) ->
  find (fun e => Nat.eqb (uid e) self) os = Some me ->
  Permutation os (me :: filter (fun e => negb (Nat.eqb (uid e) self)) os).
Proof.
  induction os as [| e os IH]; simpl; intros Hnd Hf; [ discriminate | ].
  inversion Hnd as [| ? ? Hnot Hnd']; subst.
  destruct (Nat.eqb (uid e) self) eqn:Hu; simpl.
  - injection Hf as <-. apply perm_skip.
    rewrite forallb_filter_id; [ reflexivity | ].
    apply forallb_forall. intros o Ho. apply negb_true_iff, Nat.eqb_neq.
    apply Nat.eqb_eq in Hu. intros Heq. apply Hnot.
    rewrite Hu, <- Heq. apply in_map, Ho.
  - apply (Permutation_trans (perm_skip e (IH Hnd' Hf))). apply perm_swap.
Qed.

Lemma Forall_others (P : Entity -> Prop) os self :
  Forall P os ->
  Forall (fun e => P e /\ Nat.eqb (uid e) self = false)
         (filter (fun e => negb (Nat.eqb (uid e) self)) os).
Proof.
  intros H. apply Forall_forall. intros e He. apply filter_In in He.
  destruct He as [He Hu]. rewrite Forall_forall in H.
  split; [ exact (H e He) | apply negb_true_iff, Hu ].
Qed.

Lemma afterMove_other self x0 y0 z x y m e :
  parentItem e = Some (entY e) -> Nat.eqb (uid e) self = false ->
  afterMove self x0 y0 z x y m e
  = if atCell x0 y0 e && (zValue e >? z) then setZValue e (zValue e - 1) else e.
Proof.
  intros Hp Hu. unfold afterMove, inCoord, isChildOf, atCell.
  rewrite Hu, Hp. simpl negb. rewrite andb_true_r.
  rewrite (andb_comm (entY e =? y0)). reflexivity.
Qed.

(** The depths of a cell among entities other than the mover. *)
Lemma others_after_move self x0 y0 z x y m cx cy os :
  Forall (fun e => parentItem e = Some (entY e)
                   /\ Nat.eqb (uid e) self = false) os ->
  map zValue (filter (atCell cx cy) (map (afterMove self x0 y0 z x y m) os))
  = map (if (cx =? x0) && (cy =? y0) then closeGap z else fun v : Z => v)
        (map zValue (filter (atCell cx cy) os)).
Proof.
  induction 1 as [| e os [Hp Hu] _ IH]; [ reflexivity | ].
  cbn [map filter]. rewrite (afterMove_other _ _ _ _ _ _ _ _ Hp Hu).
  assert (Hat : atCell cx cy (if atCell x0 y0 e && (zValue e >? z)
                              then setZValue e (zValue e - 1) else e)
                = atCell cx cy e).
  { destruct (atCell x0 y0 e && (zValue e >? z)); reflexivity. }
  rewrite Hat. destruct (atCell cx cy e) eqn:Hc; [ | exact IH ].
  cbn [map]. rewrite IH. f_equal.
  unfold atCell in Hc. apply andb_true_iff in Hc. destruct Hc as [Ex Ey].
  apply Z.eqb_eq in Ex. apply Z.eqb_eq in Ey. subst cx cy.
  unfold atCell, closeGap.
  destruct ((entX e =? x0) && (entY e =? y0)); simpl;
    [ destruct (zValue e >? z); reflexivity | reflexivity ].
Qed.

Lemma filter_Permutation {A} (f : A -> bool) l l' :
  Permutation l l' -> Permutation (filter f l) (filter f l').
Proof.
  induction 1 as [| a l l' _ IH | a b l | l l' l'' _ IH1 _ IH2]; simpl.
  - constructor.
  - destruct (f a); [ apply perm_skip | ]; exact IH.
  - destruct (f a), (f b); try reflexivity. apply perm_swap.
  - exact (Permutation_trans IH1 IH2).
Qed.

Lemma depths_Permutation cx cy os os' :
  Permutation os os' ->
  Permutation (map zValue (filter (atCell cx cy) os))
              (map zValue (filter (atCell cx cy) os')).
Proof. intros H. apply Permutation_map, filter_Permutation, H. Qed.

Lemma afterMove_parent self x0 y0 z x y m e :
  parentItem e <> None -> parentItem (afterMove self x0 y0 z x y m e) <> None.
Proof.
  intros H. unfold afterMove.
  destruct (Nat.eqb (uid e) self); [ discriminate | ].
  destruct (inCoord self x0 y0 e && (zValue e >? z)); exact H.
Qed.

Lemma sceneEntities_parents s :
  Forall (fun e => parentItem e <> None) (objects s) ->
  sceneEntities s = objects s.
Proof.
  unfold sceneEntities. induction 1 as [| e os He _ IH]; simpl; [ reflexivity | ].
  destruct (parentItem e); [ rewrite IH; reflexivity | contradiction ].
Qed.

(** The depths of a cell before and after a move, over the mover and the
    others. *)
Lemma depths_by_mover s self x y me s' :
  wellFormed s -> findEnt s self = Some me ->
  entX me <> x \/ entY me <> y ->
  updateCoords s self x y (-1) = Some s' ->
  let others := filter (fun e => negb (Nat.eqb (uid e) self)) (objects s) in
  let at_ cx cy := map zValue (filter (atCell cx cy) others) in
  forall cx cy,
    Permutation (depthsAt s cx cy)
      ((if atCell cx cy me then [zValue me] else []) ++ at_ cx cy)
    /\ Permutation (depthsAt s' cx cy)
         ((if (x =? cx) && (y =? cy)
           then [Z.of_nat (List.length (at_ x y))] else [])
          ++ map (if atCell cx cy me then closeGap (zValue me) else fun v : Z => v)
                 (at_ cx cy)).
Proof.
  intros Hwf Hme Hxy Hup others at_ cx cy.
  destruct (wellFormed_found s self me Hwf Hme) as [Hp _].
  pose proof Hwf as [Hnd [Hall _]].
  assert (Hmov : negb (entX me =? x) || negb (entY me =? y) = true).
  { destruct (Z.eqb_spec (entX me) x); destruct (Z.eqb_spec (entY me) y);
      simpl; try reflexivity. lia. }
  pose proof (updateCoords_move_objects s self x y me s' Hme Hp Hmov Hup) as Hobj.
  pose proof (split_by_uid (objects s) self me Hnd Hme) as Hperm.
  fold others in Hperm.
  assert (Hu : Nat.eqb (uid me) self = true).
  { unfold findEnt in Hme. apply find_some in Hme. apply Hme. }
  assert (Hothers : Forall (fun e => parentItem e = Some (entY e)
                                     /\ Nat.eqb (uid e) self = false) others).
  { apply (Forall_others (fun e => parentItem e = Some (entY e))).
    eapply Forall_impl; [ | exact Hall ]. intros e [H _]. exact H. }
  assert (Hm : List.length (entsInCoord s self x y) = List.length (at_ x y)).
  { unfold entsInCoord, at_. rewrite length_map.
    rewrite (Permutation_length (filter_Permutation (inCoord self x y) _ _ Hperm)).
    simpl. unfold inCoord at 1. rewrite Hu, andb_false_r. f_equal.
    apply filter_ext_in. intros e He.
    rewrite Forall_forall in Hothers. destruct (Hothers e He) as [Hpe Hue].
    unfold inCoord, isChildOf, atCell. rewrite Hpe, Hue. simpl.
    rewrite andb_true_r. apply andb_comm. }
  split.
  - unfold depthsAt, cellEntities. rewrite (sceneEntities_all s Hall).
    rewrite (depths_Permutation cx cy _ _ Hperm). simpl.
    destruct (atCell cx cy me); reflexivity.
  - unfold depthsAt, cellEntities.
    rewrite sceneEntities_parents.
    2:{ rewrite Hobj. apply Forall_map. eapply Forall_impl; [ | exact Hall ].
        intros e [He _]. apply afterMove_parent. rewrite He. discriminate. }
    rewrite Hobj.
    rewrite (depths_Permutation cx cy _ _
               (Permutation_map (afterMove _ _ _ _ _ _ _) Hperm)).
    cbn [map filter]. unfold afterMove at 1. rewrite Hu.
    unfold atCell at 1. cbn [entX entY setXY].
    replace ((cx =? entX me) && (cy =? entY me)) with (atCell cx cy me)
      by (unfold atCell; rewrite (Z.eqb_sym cx), (Z.eqb_sym cy); reflexivity).
    destruct ((x =? cx) && (y =? cy)); cbn [map app];
      rewrite others_after_move by exact Hothers; fold (at_ cx cy);
      replace ((cx =? entX me) && (cy =? entY me)) with (atCell cx cy me)
        by (unfold atCell; rewrite (Z.eqb_sym cx), (Z.eqb_sym cy); reflexivity);
      [ | reflexivity ].
    unfold afterMove. rewrite Hu. cbn [zValue setXY setZValue]. rewrite Hm.
    reflexivity.
Qed.

(** X9.  A move keeps stacks dense.  When [updateCoords] (with the default
    depth) takes an entity of a well-formed scene to another cell, the entity
    lands on top of the destination (its depth is the number of entities that
    were there, the others keep theirs), and every cell whose depths were
    exactly 0 .. N-1 before the move has depths exactly 0 .. N'-1 after it,
    the cell that was left included. *)
Theorem move_keeps_dense s self x y me s' :
  wellFormed s -> findEnt s self = Some me ->
  entX me <> x \/ entY me <> y ->
  updateCoords s self x y (-1) = Some s' ->
  Permutation (depthsAt s' x y)
              (Z.of_nat (List.length (depthsAt s x y)) :: depthsAt s x y)
  /\ forall cx cy,
       denseDepths (depthsAt s cx cy) -> denseDepths (depthsAt s' cx cy).
Proof.
  intros Hwf Hme Hxy Hup.
  pose proof (depths_by_mover s self x y me s' Hwf Hme Hxy Hup) as Hd.
  cbv zeta in Hd.
  assert (Hnot : forall cx cy,
             atCell cx cy me = true -> (x =? cx) && (y =? cy) = false).
  { intros cx cy Hat. unfold atCell in Hat. apply andb_true_iff in Hat.
    destruct Hat as [Ex Ey]. apply Z.eqb_eq in Ex. apply Z.eqb_eq in Ey.
    destruct (Z.eqb_spec x cx); destruct (Z.eqb_spec y cy);
      simpl; try reflexivity. lia. }
  split.
  - destruct (Hd x y) as [Hb Ha].
    rewrite !Z.eqb_refl in Ha. simpl in Ha.
    destruct (atCell x y me) eqn:Hat.
    { apply Hnot in Hat. rewrite !Z.eqb_refl in Hat. discriminate. }
    simpl in Hb. rewrite map_id in Ha.
    rewrite Ha, (Permutation_length Hb).
    apply perm_skip. symmetry. exact Hb.
  - intros cx cy Hdense. destruct (Hd cx cy) as [Hb Ha].
    apply (dense_Permutation _ _ (Permutation_sym Ha)).
    apply (dense_Permutation _ _ Hb) in Hdense.
    destruct (atCell cx cy me) eqn:Hat.
    + rewrite (Hnot cx cy Hat). simpl. simpl in Hdense.
      apply dense_remove, Hdense.
    + simpl in Hdense. rewrite map_id.
      destruct ((x =? cx) && (y =? cy)) eqn:Hc; [ | exact Hdense ].
      apply andb_true_iff in Hc. destruct Hc as [Ex Ey].
      apply Z.eqb_eq in Ex. apply Z.eqb_eq in Ey. subst cx cy.
      simpl. apply dense_add, Hdense.
Qed.

End StackFacts.

Module StackWitnesses.
Import RoomInfo Scene Editor Props Terms Examples.

(** A 1x1 room with one entity on (3, 3) and one on (4, 3); the first is
    moved onto the second. *)
Lemma move_keeps_dense_witness :
  exists s me s',
    andThen (paintAt 3 3 10 (sceneOf 1)) (paintAt 4 3 10) = Some s
    /\ findEnt s 1 = Some me
    /\ updateCoords s 1 4 3 (-1) = Some s'
    /\ Permutation (depthsAt s' 4 3)
                   (Z.of_nat (List.length (depthsAt s 4 3)) :: depthsAt s 4 3)
    /\ forall cx cy,
         denseDepths (depthsAt s cx cy) -> denseDepths (depthsAt s' cx cy).
Proof.
  eexists _, _, _.
  split; [ vm_compute; reflexivity | ].
  split; [ vm_compute; reflexivity | ].
  split; [ vm_compute; reflexivity | ].
  refine (StackFacts.move_keeps_dense _ 1%nat 4 3 _ _ _ _ _ _).
  - split; [ | split ].
    + vm_compute. repeat constructor; simpl; intuition discriminate.
    + vm_compute. repeat constructor; discriminate.
    + vm_compute. reflexivity.
  - vm_compute. reflexivity.
  - left. vm_compute. discriminate.
  - vm_compute. reflexivity.
Defined.

End StackWitnesses.

(** ** More on the pit frames *)

Module PitFacts.
Import RoomInfo Scene Neighbours Autotile.

Lemma pitFrame_range L R U D UL DL UR DR x :
  0 <= pitFrame L R U D UL DL UR DR x <= 49
  /\ pitFrame L R U D UL DL UR DR false <= 32.
Proof.
  destruct L, R, U, D, UL, DL, UR, DR, x; vm_compute; repeat split; discriminate.
Qed.

(** X10.  Whatever stands around a pit, [getPitFrame] answers a frame of
    the sheet: between 0 and 49, and at most 32 for a sheet without the
    extra frames. *)
Theorem pit_frame_in_sheet (s : RoomScene) (self : Entity) (pitImg : string)
  (hasExtraFrames : bool) :
  0 <= getPitFrame s self pitImg hasExtraFrames <= 49
  /\ getPitFrame s self pitImg false <= 32.
Proof.
  unfold getPitFrame. split.
  - apply pitFrame_range.
  - apply (pitFrame_range _ _ _ _ _ _ _ _ false).
Qed.

(** X11.  A diagonal neighbour counts for the frame of a pit only when the
    two orthogonal neighbours beside it match as well; and when all four
    diagonals match, the frame is the sum of the orthogonal bits (L = 1,
    U = 2, R = 4, D = 8). *)
Theorem pit_diagonal_needs_both_sides (L R U D UL DL UR DR x : bool) :
  pitFrame L R U D UL DL UR DR x
  = pitFrame L R U D (UL && U && L) (DL && D && L) (UR && U && R) (DR && D && R) x
  /\ pitFrame L R U D true true true true x
     = Z.b2z L + 2 * Z.b2z U + 4 * Z.b2z R + 8 * Z.b2z D.
Proof.
  destruct L, R, U, D, UL, DL, UR, DR, x; vm_compute; split; reflexivity.
Qed.

End PitFacts.

(** ** Rooms: what the iterator lists, what reshaping and mirroring keep *)

Module RoomFacts.
Import RoomInfo Neighbours Terms Rooms.

(** *** Python's list reads and writes *)

Lemma setSpot_length {A} i (v : A) l :
  List.length (setSpot i v l) = List.length l.
Proof.
  revert i. induction l as [| a l IH]; intros [| i]; simpl; auto.
Qed.

Lemma setSpot_same {A} i (v : A) l :
  (i < List.length l)%nat -> nth_error (setSpot i v l) i = Some v.
Proof.
  revert i. induction l as [| a l IH]; intros [| i]; simpl; intros H;
    try lia; [ reflexivity | apply IH; lia ].
Qed.

Lemma setSpot_other {A} i j (v : A) l :
  i <> j -> nth_error (setSpot i v l) j = nth_error l j.
Proof.
  revert i j. induction l as [| a l IH]; intros [| i] [| j] H; simpl;
    try reflexivity; try congruence. apply IH. congruence.
Qed.

Lemma pyIndex_inside len idx :
  0 <= idx < len -> pyIndex len idx = Some (Z.to_nat idx).
Proof.
  intros H. unfold pyIndex.
  destruct (Z.leb_spec 0 idx); destruct (Z.ltb_spec idx len); simpl;
    try lia; reflexivity.
Qed.

Lemma getItem_inside {A} (l : list A) idx :
  0 <= idx -> getItem l idx = nth_error l (Z.to_nat idx).
Proof.
  intros H. unfold getItem, pyIndex.
  destruct (Z.leb_spec 0 idx); [ | lia ].
  destruct (Z.ltb_spec idx (Z.of_nat (List.length l))); simpl.
  - reflexivity.
  - destruct (Z.ltb_spec idx 0); [ lia | ]. simpl.
    symmetry. apply nth_error_None. lia.
Qed.

Lemma setItem_inside {A} (l : list A) idx v :
  0 <= idx < Z.of_nat (List.length l) ->
  setItem l idx v = Some (setSpot (Z.to_nat idx) v l).
Proof. intros H. unfold setItem. rewrite pyIndex_inside by exact H. reflexivity. Qed.

(** *** The iterator *)

Lemma spawnsFrom_In {A} w h k (g : list (list A)) st x y :
  0 < w -> 0 <= k ->
  In (st, x, y) (spawnsFrom w h k g) <->
  exists j, nth_error g j = Some st /\ st <> []
            /\ k + Z.of_nat j < w * h
            /\ x = (k + Z.of_nat j) mod w /\ y = (k + Z.of_nat j) / w.
Proof.
  intros Hw. revert k. induction g as [| stack rest IH]; intros k Hk; simpl.
  - split; [ intros [] | intros [[| j] [H _]]; discriminate ].
  - destruct (Z.geb_spec k (w * h)) as [Hge | Hlt].
    + split; [ intros [] | intros [j [_ [_ [H _]]]]; lia ].
    + rewrite in_app_iff, (IH (k + 1)) by lia. split.
      * intros [H | [j [Hn [Hne [Hlt' [Hx Hy]]]]]].
        -- destruct stack as [| a stack]; simpl in H; [ contradiction | ].
           destruct H as [H | []]. injection H as <- <- <-.
           exists 0%nat. rewrite Z.add_0_r, Z.quot_div_nonneg by lia.
           repeat split; [ discriminate | exact Hlt ].
        -- exists (S j). replace (k + Z.of_nat (S j)) with (k + 1 + Z.of_nat j) by lia.
           repeat split; assumption.
      * intros [[| j] [Hn [Hne [Hlt' [Hx Hy]]]]].
        -- left. simpl in Hn. injection Hn as ->.
           rewrite Z.add_0_r in Hx, Hy. subst x y.
           destruct st; [ contradiction | ]. simpl. left.
           rewrite Z.quot_div_nonneg by lia. reflexivity.
        -- right. exists j.
           replace (k + 1 + Z.of_nat j) with (k + Z.of_nat (S j)) by lia.
           repeat split; assumption.
Qed.

(** What the iterator answers. *)
Lemma spawns_cells {A} (room : Room A) (st : list A) (x y : Z) :
  0 < fst (dims (info room)) ->
  In (st, x, y) (spawns room) <->
  0 <= x < fst (dims (info room)) /\ 0 <= y < snd (dims (info room))
  /\ st <> []
  /\ getItem (gridSpawns room) (gridIndex x y (fst (dims (info room)))) = Some st.
Proof.
  intros Hw. unfold spawns.
  set (w := fst (dims (info room))) in *. set (h := snd (dims (info room))).
  rewrite spawnsFrom_In by lia. unfold gridIndex. split.
  - intros [j [Hn [Hne [Hlt [-> ->]]]]]. simpl in *.
    pose proof (Z.mod_pos_bound (Z.of_nat j) w Hw).
    pose proof (Z.div_pos (Z.of_nat j) w ltac:(lia) Hw).
    assert (Z.of_nat j / w < h) by (apply Z.div_lt_upper_bound; lia).
    repeat split; try lia; try exact Hne.
    rewrite (Z.mul_comm _ w), <- Z.div_mod by lia.
    rewrite getItem_inside, Nat2Z.id by lia. exact Hn.
  - intros [Hx [Hy [Hne Hg]]].
    rewrite getItem_inside in Hg by nia.
    exists (Z.to_nat (y * w + x)). rewrite Z2Nat.id by nia. simpl.
    repeat split; try assumption.
    + nia.
    + rewrite Z.add_comm, Z.mod_add, Z.mod_small by lia. reflexivity.
    + rewrite Z.add_comm, Z.div_add, Z.div_small by lia. reflexivity.
Qed.

(** X13.  [Room.spawns] lists exactly the filled cells of the room: a stack
    is answered with the cell [(x, y)] if and only if that cell lies in the
    grid, the stack is not empty, and it is what [gridSpawns] holds at
    [gridIndex(x, y, width)]. *)
Theorem spawns_are_the_filled_cells {A} (room : Room A) (st : list A) (x y : Z) :
  0 < fst (dims (info room)) ->
  In (st, x, y) (spawns room) <->
  0 <= x < fst (dims (info room)) /\ 0 <= y < snd (dims (info room))
  /\ st <> []
  /\ getItem (gridSpawns room) (gridIndex x y (fst (dims (info room)))) = Some st.
Proof. apply spawns_cells. Qed.

(** *** Reshaping *)

Lemma index_grows w w' a b :
  0 < w <= w' -> 0 <= a < b ->
  gridIndex (a mod w) (a / w) w' < gridIndex (b mod w) (b / w) w'.
Proof.
  intros Hw Hab. unfold gridIndex.
  pose proof (Z.div_mod a w ltac:(lia)) as Ha.
  pose proof (Z.div_mod b w ltac:(lia)) as Hb.
  pose proof (Z.mod_pos_bound a w ltac:(lia)).
  pose proof (Z.mod_pos_bound b w ltac:(lia)).
  assert (Hq : a / w <= b / w) by (apply Z.div_le_mono; lia).
  destruct (Z.eq_dec (a / w) (b / w)) as [E | E]; [ rewrite E in *; lia | ].
  assert (a / w + 1 <= b / w) by lia. nia.
Qed.

Lemma spawnsFrom_NoDup {A} w h w' k (g : list (list A)) :
  0 < w <= w' -> 0 <= k ->
  NoDup (map (fun t => gridIndex (snd (fst t)) (snd t) w') (spawnsFrom w h k g)).
Proof.
  intros Hw. revert k. induction g as [| stack rest IH]; intros k Hk; simpl;
    [ constructor | ].
  destruct (k >=? w * h); [ constructor | ].
  destruct (nonEmpty stack); simpl; [ | apply IH; lia ].
  constructor; [ | apply IH; lia ].
  rewrite in_map_iff. intros [[[st x] y] [Hidx Hin]]. simpl in Hidx.
  rewrite spawnsFrom_In in Hin by lia.
  destruct Hin as [j [_ [_ [_ [-> ->]]]]].
  rewrite Z.quot_div_nonneg in Hidx by lia.
  pose proof (index_grows w w' k (k + 1 + Z.of_nat j) Hw ltac:(lia)). lia.
Qed.

(** The loop of [reshape] over stacks that go to distinct cells. *)
Lemma reshape_loop {A} w' n (L : list (list A * Z * Z)) (acc : list (list A)) :
  Z.of_nat (List.length acc) = n ->
  (forall st x y, In (st, x, y) L -> 0 <= gridIndex x y w') ->
  NoDup (map (fun t => gridIndex (snd (fst t)) (snd t) w') L) ->
  exists g,
    fold_left (reshapeStep w' n) L (Some acc) = Some g
    /\ List.length g = List.length acc
    /\ forall i,
         (forall st x y, In (st, x, y) L -> gridIndex x y w' = Z.of_nat i ->
                         (i < List.length acc)%nat -> nth_error g i = Some st)
         /\ ((forall st x y, In (st, x, y) L -> gridIndex x y w' <> Z.of_nat i) ->
             nth_error g i = nth_error acc i).
Proof.
  revert acc. induction L as [| [[st0 x0] y0] L IH]; intros acc Hlen Hpos Hnd.
  - exists acc. simpl. split; [ reflexivity | ]. split; [ reflexivity | ].
    intros i. split; [ intros st x y [] | reflexivity ].
  - simpl map in Hnd. inversion Hnd as [| ? ? Hnot Hnd']; subst.
    simpl in Hnot.
    assert (Hpos' : forall st x y, In (st, x, y) L -> 0 <= gridIndex x y w').
    { intros st x y H. apply (Hpos st x y). right. exact H. }
    pose proof (Hpos st0 x0 y0 (or_introl eq_refl)) as H0.
    assert (Hstep : exists acc1,
               reshapeStep w' (Z.of_nat (List.length acc)) (Some acc) (st0, x0, y0)
               = Some acc1
               /\ List.length acc1 = List.length acc
               /\ (forall i, gridIndex x0 y0 w' <> Z.of_nat i ->
                             nth_error acc1 i = nth_error acc i)
               /\ (forall i, gridIndex x0 y0 w' = Z.of_nat i ->
                             (i < List.length acc)%nat ->
                             nth_error acc1 i = Some st0)).
    { unfold reshapeStep.
      destruct (Z.ltb_spec (gridIndex x0 y0 w') (Z.of_nat (List.length acc))).
      - rewrite setItem_inside by lia. eexists. split; [ reflexivity | ].
        split; [ apply setSpot_length | ]. split.
        + intros i Hi. apply setSpot_other. lia.
        + intros i Hi Hlt. rewrite Hi, Nat2Z.id. apply setSpot_same, Hlt.
      - exists acc. repeat split; try reflexivity. intros i Hi Hlt. lia. }
    destruct Hstep as [acc1 [Hs [Hl1 [Hother Hsame]]]].
    destruct (IH acc1 ltac:(rewrite Hl1; reflexivity) Hpos' Hnd')
      as [g [Hfold [Hlg Hg]]].
    exists g. cbn [fold_left]. rewrite Hs, Hl1 in *.
    split; [ exact Hfold | ]. split; [ exact Hlg | ].
    intros i. destruct (Hg i) as [Hin Hout]. split.
    + intros st x y [Heq | HinL] Hidx Hlt.
      * injection Heq as <- <- <-.
        rewrite Hout; [ apply Hsame; assumption | ].
        intros st x y HinL Hidx'. apply Hnot. apply in_map_iff.
        exists (st, x, y). simpl. split; [ congruence | exact HinL ].
      * apply (Hin st x y HinL Hidx). exact Hlt.
    + intros Hnone. rewrite Hout.
      * apply Hother. apply (Hnone st0 x0 y0). left. reflexivity.
      * intros st x y HinL. apply (Hnone st x y). right. exact HinL.
Qed.

Lemma same_cell w' x y x' y' :
  0 <= x < w' -> 0 <= x' < w' ->
  gridIndex x' y' w' = gridIndex x y w' -> x' = x /\ y' = y.
Proof.
  unfold gridIndex. intros Hx Hx' H.
  destruct (Z.lt_trichotomy y y') as [Hlt | [-> | Hgt]]; [ nia | lia | nia ].
Qed.

(** [reshape] towards a shape that is at least as wide. *)
Lemma reshape_cells {A} (room : Room A) (sh : Z)
  (doors : option (list DoorItem)) (info1 : Info) :
  newInfo sh = Some info1 ->
  0 < fst (dims (info room)) <= fst (dims info1) ->
  exists room',
    reshape room sh doors = Some room'
    /\ info room' = match doors with
                    | Some (d :: ds) => setDoors info1 (d :: ds)
                    | _ => info1
                    end
    /\ Z.of_nat (List.length (gridSpawns room')) = gridLen info1
    /\ forall x y,
         0 <= x < fst (dims info1) -> 0 <= y < snd (dims info1) ->
         getItem (gridSpawns room') (gridIndex x y (fst (dims info1)))
         = Some (if (x <? fst (dims (info room))) && (y <? snd (dims (info room)))
                 then stackAt (gridSpawns room) (fst (dims (info room))) x y
                 else []).
Proof.
  intros Hinfo Hw. unfold reshape. rewrite Hinfo.
  set (info2 := match doors with
                | Some (d :: ds) => setDoors info1 (d :: ds)
                | _ => info1
                end).
  assert (Hdims : dims info2 = dims info1).
  { unfold info2. destruct doors as [[| d ds] |]; reflexivity. }
  unfold gridLen. rewrite Hdims.
  set (w := fst (dims (info room))) in *. set (h := snd (dims (info room))).
  set (w' := fst (dims info1)) in *. set (h' := snd (dims info1)).
  assert (Hn : 0 <= w' * h').
  { pose proof (GeometryFacts.tableCheck_sound _ sh info1
                  SessionFacts.newRoomOk_table Hinfo) as Hok.
    unfold newRoomOk in Hok. apply andb_true_iff in Hok.
    destruct Hok as [Hok _]. apply Z.leb_le in Hok. exact Hok. }
  destruct (reshape_loop w' (w' * h') (spawns room)
              (repeat [] (Z.to_nat (w' * h'))))
    as [g [Hfold [Hlen Hg]]].
  - rewrite repeat_length. lia.
  - intros st x y Hin. apply spawns_cells in Hin; [ | exact (proj1 Hw) ].
    unfold gridIndex. nia.
  - apply spawnsFrom_NoDup; [ exact Hw | lia ].
  - rewrite Hfold. eexists. split; [ reflexivity | ]. simpl.
    rewrite repeat_length in Hlen.
    split; [ reflexivity | ].
    split; [ unfold gridLen; rewrite Hlen; fold w' h'; lia | ].
    intros x y Hx Hy.
    assert (Hidx : 0 <= gridIndex x y w' < w' * h') by (unfold gridIndex; nia).
    rewrite getItem_inside by lia.
    destruct (Hg (Z.to_nat (gridIndex x y w'))) as [Hin Hout].
    rewrite Z2Nat.id in Hin, Hout by lia.
    assert (Hempty : nth_error (repeat (@nil A) (Z.to_nat (w' * h')))
                               (Z.to_nat (gridIndex x y w')) = Some []).
    { apply nth_error_repeat. lia. }
    assert (Hwriter : forall st x1 y1,
               In (st, x1, y1) (spawns room) ->
               gridIndex x1 y1 w' = gridIndex x y w' ->
               x1 = x /\ y1 = y /\ x < w /\ y < h /\ st <> []
               /\ stackAt (gridSpawns room) w x y = st).
    { intros st x1 y1 Hsp Hsame.
      apply spawns_cells in Hsp; [ | exact (proj1 Hw) ].
      fold w h in Hsp. destruct Hsp as [Hx1 [Hy1 [Hne Hget]]].
      destruct (same_cell w' x y x1 y1 Hx ltac:(lia) Hsame) as [-> ->].
      unfold stackAt. rewrite Hget. repeat split; try lia; exact Hne. }
    destruct ((x <? w) && (y <? h)) eqn:Hfit.
    + apply andb_true_iff in Hfit. destruct Hfit as [Hxw Hyh].
      apply Z.ltb_lt in Hxw. apply Z.ltb_lt in Hyh.
      destruct (stackAt (gridSpawns room) w x y) as [| a st] eqn:Hst.
      * rewrite Hout; [ exact Hempty | ].
        intros st x1 y1 Hsp Hsame.
        destruct (Hwriter st x1 y1 Hsp Hsame) as [_ [_ [_ [_ [Hne Heq]]]]].
        congruence.
      * apply (Hin (a :: st) x y); [ | reflexivity | rewrite repeat_length; lia ].
        apply spawns_cells; [ exact (proj1 Hw) | ].
        fold w h. repeat split; try lia; [ discriminate | ].
        unfold stackAt in Hst.
        destruct (getItem (gridSpawns room) (gridIndex x y w));
          [ congruence | discriminate ].
    + rewrite Hout; [ exact Hempty | ].
      intros st x1 y1 Hsp Hsame.
      destruct (Hwriter st x1 y1 Hsp Hsame) as [_ [_ [Hxw [Hyh _]]]].
      apply andb_false_iff in Hfit.
      destruct Hfit as [H | H]; apply Z.ltb_ge in H; lia.
Qed.

(** X14.  Reshaping a room to a shape of the table that is at least as wide
    as the room is keeps every stack in its cell: [reshape] returns, the new
    grid has one entry per cell of the new shape, and each cell of the new
    grid holds what the old grid held at the same [(x, y)] if the old room had
    that cell, and nothing otherwise. *)
Theorem reshape_keeps_what_fits {A} (room : Room A) (sh : Z)
  (doors : option (list DoorItem)) (info1 : Info) :
  newInfo sh = Some info1 ->
  0 < fst (dims (info room)) <= fst (dims info1) ->
  exists room',
    reshape room sh doors = Some room'
    /\ shape (info room') = sh
    /\ dims (info room') = dims info1
    /\ RoomInfo.doors (info room')
       = match doors with
         | Some (d :: ds) => d :: ds
         | _ => RoomInfo.doors info1
         end
    /\ Z.of_nat (List.length (gridSpawns room')) = gridLen (info room')
    /\ forall x y,
         0 <= x < fst (dims info1) -> 0 <= y < snd (dims info1) ->
         getItem (gridSpawns room') (gridIndex x y (fst (dims info1)))
         = Some (if (x <? fst (dims (info room))) && (y <? snd (dims (info room)))
                 then stackAt (gridSpawns room) (fst (dims (info room))) x y
                 else []).
Proof.
  intros Hinfo Hw.
  destruct (reshape_cells room sh doors info1 Hinfo Hw)
    as [room' [Hre [Hi [Hl Hc]]]].
  exists room'. split; [ exact Hre | ].
  assert (Hs : shape info1 = sh).
  { unfold newInfo in Hinfo. destruct (shapeOf sh); [ | discriminate ].
    injection Hinfo as <-. reflexivity. }
  rewrite Hi.
  split; [ destruct doors as [[| d ds] |]; exact Hs | ].
  split; [ destruct doors as [[| d ds] |]; reflexivity | ].
  split; [ destruct doors as [[| d ds] |]; reflexivity | ].
  split; [ rewrite Hl; destruct doors as [[| d ds] |]; reflexivity | ].
  exact Hc.
Qed.


(** *** Mirroring *)

Lemma swapItems_spec {A} (g : list A) o m :
  0 <= o < Z.of_nat (List.length g) -> 0 <= m < Z.of_nat (List.length g) ->
  exists g',
    swapItems g o m = Some g'
    /\ List.length g' = List.length g
    /\ getItem g' o = getItem g m
    /\ getItem g' m = getItem g o
    /\ forall i, 0 <= i -> i <> o -> i <> m -> getItem g' i = getItem g i.
Proof.
  intros Ho Hm. unfold swapItems.
  rewrite (getItem_inside g o), (getItem_inside g m) by lia.
  destruct (nth_error g (Z.to_nat o)) as [os |] eqn:Eo;
    [ | apply nth_error_None in Eo; lia ].
  destruct (nth_error g (Z.to_nat m)) as [ms |] eqn:Em;
    [ | apply nth_error_None in Em; lia ].
  rewrite setItem_inside by lia.
  rewrite setItem_inside by (rewrite setSpot_length; lia).
  eexists. split; [ reflexivity | ].
  split; [ rewrite !setSpot_length; reflexivity | ].
  rewrite !getItem_inside by lia.
  split; [ | split ].
  - destruct (Z.eq_dec o m) as [-> | Hne].
    + rewrite setSpot_same by (rewrite setSpot_length; lia). congruence.
    + rewrite setSpot_other by lia. apply setSpot_same. lia.
  - apply setSpot_same. rewrite setSpot_length. lia.
  - intros i Hi Hio Him. rewrite getItem_inside by lia.
    rewrite !setSpot_other by lia. symmetry. apply getItem_inside. lia.
Qed.

Section SwapLoops.
Context {A : Type}.

(** Two nested loops [for a in range(N): for b in range(K)] that swap the
    entries [c1 a b] and [c2 a b] of a list of length [len], where the
    indices are in range and no index comes up twice. *)
Variables (c1 c2 : Z -> Z -> Z) (N K len : Z).
Hypothesis c1_range : forall a b, 0 <= a < N -> 0 <= b < K -> 0 <= c1 a b < len.
Hypothesis c2_range : forall a b, 0 <= a < N -> 0 <= b < K -> 0 <= c2 a b < len.
Hypothesis c1_c2 : forall a b a' b',
  0 <= a < N -> 0 <= b < K -> 0 <= a' < N -> 0 <= b' < K -> c1 a b <> c2 a' b'.
Hypothesis c1_inj : forall a b a' b',
  0 <= a < N -> 0 <= b < K -> 0 <= a' < N -> 0 <= b' < K ->
  c1 a b = c1 a' b' -> a = a' /\ b = b'.
Hypothesis c2_inj : forall a b a' b',
  0 <= a < N -> 0 <= b < K -> 0 <= a' < N -> 0 <= b' < K ->
  c2 a b = c2 a' b' -> a = a' /\ b = b'.

Lemma inner_loop a (k : nat) (g : list A) :
  0 <= a < N -> Z.of_nat k <= Z.max K 0 -> Z.of_nat (List.length g) = len ->
  exists g',
    fold_left (fun acc b => swapStep (c1 a b) (c2 a b) acc)
              (map Z.of_nat (seq 0 k)) (Some g) = Some g'
    /\ List.length g' = List.length g
    /\ (forall b, 0 <= b < Z.of_nat k ->
                  getItem g' (c1 a b) = getItem g (c2 a b)
                  /\ getItem g' (c2 a b) = getItem g (c1 a b))
    /\ (forall i, 0 <= i ->
                  (forall b, 0 <= b < Z.of_nat k -> i <> c1 a b /\ i <> c2 a b) ->
                  getItem g' i = getItem g i).
Proof.
  intros Ha Hk Hlen. induction k as [| k IH].
  - exists g. simpl. split; [ reflexivity | ]. split; [ reflexivity | ].
    split; [ intros b Hb; lia | reflexivity ].
  - destruct (IH ltac:(lia)) as [gk [Hfold [Hl [Hsw Hun]]]].
    rewrite seq_S, map_app, fold_left_app, Hfold. simpl.
    assert (Hkr : 0 <= Z.of_nat k < K) by lia.
    destruct (swapItems_spec gk (c1 a (Z.of_nat k)) (c2 a (Z.of_nat k)))
      as [g' [Hs [Hl' [Ho [Hm Hother]]]]].
    { rewrite Hl, Hlen. apply c1_range; lia. }
    { rewrite Hl, Hlen. apply c2_range; lia. }
    exists g'. split; [ exact Hs | ]. split; [ congruence | ]. split.
    + intros b Hb. destruct (Z.eq_dec b (Z.of_nat k)) as [-> | Hne].
      * rewrite Ho, Hm. split; apply Hun.
        -- apply c2_range; lia.
        -- intros b Hb'. split.
           ++ intros H. symmetry in H. revert H. apply c1_c2; lia.
           ++ intros H. apply c2_inj in H; lia.
        -- apply c1_range; lia.
        -- intros b Hb'. split.
           ++ intros H. apply c1_inj in H; lia.
           ++ apply c1_c2; lia.
      * assert (Hb' : 0 <= b < Z.of_nat k) by lia.
        destruct (Hsw b Hb') as [H1 H2]. rewrite <- H1, <- H2.
        split; apply Hother.
        -- apply c1_range; lia.
        -- intros H. apply c1_inj in H; lia.
        -- apply c1_c2; lia.
        -- apply c2_range; lia.
        -- intros H. symmetry in H. revert H. apply c1_c2; lia.
        -- intros H. apply c2_inj in H; lia.
    + intros i Hi Hnone. rewrite Hother.
      * apply Hun; [ exact Hi | ]. intros b Hb. apply Hnone. lia.
      * exact Hi.
      * apply (Hnone (Z.of_nat k)). lia.
      * apply (Hnone (Z.of_nat k)). lia.
Qed.

Lemma swap_loops (g : list A) :
  Z.of_nat (List.length g) = len ->
  exists g',
    fold_left
      (fun acc a =>
         fold_left (fun acc b => swapStep (c1 a b) (c2 a b) acc) (zrange K) acc)
      (zrange N) (Some g) = Some g'
    /\ List.length g' = List.length g
    /\ (forall a b, 0 <= a < N -> 0 <= b < K ->
                    getItem g' (c1 a b) = getItem g (c2 a b)
                    /\ getItem g' (c2 a b) = getItem g (c1 a b))
    /\ (forall i, 0 <= i ->
                  (forall a b, 0 <= a < N -> 0 <= b < K ->
                               i <> c1 a b /\ i <> c2 a b) ->
                  getItem g' i = getItem g i).
Proof.
  intros Hlen. unfold zrange at 2.
  assert (Hgen : forall j : nat, Z.of_nat j <= Z.max N 0 ->
    exists g',
      fold_left
        (fun acc a =>
           fold_left (fun acc b => swapStep (c1 a b) (c2 a b) acc) (zrange K) acc)
        (map Z.of_nat (seq 0 j)) (Some g) = Some g'
      /\ List.length g' = List.length g
      /\ (forall a b, 0 <= a < Z.of_nat j -> 0 <= b < K ->
                      getItem g' (c1 a b) = getItem g (c2 a b)
                      /\ getItem g' (c2 a b) = getItem g (c1 a b))
      /\ (forall i, 0 <= i ->
                    (forall a b, 0 <= a < Z.of_nat j -> 0 <= b < K ->
                                 i <> c1 a b /\ i <> c2 a b) ->
                    getItem g' i = getItem g i)).
  { induction j as [| j IH]; intros Hj.
    - exists g. simpl. split; [ reflexivity | ]. split; [ reflexivity | ].
      split; [ intros a b Ha; lia | reflexivity ].
    - destruct (IH ltac:(lia)) as [gj [Hfold [Hl [Hsw Hun]]]].
      rewrite seq_S, map_app, fold_left_app, Hfold. simpl.
      assert (Hjr : 0 <= Z.of_nat j < N) by lia.
      destruct (inner_loop (Z.of_nat j) (Z.to_nat K) gj Hjr ltac:(lia)
                  ltac:(congruence))
        as [g' [Hs [Hl' [Hrow Hother]]]].
      fold (zrange K) in Hs.
      exists g'. split; [ exact Hs | ]. split; [ congruence | ]. split.
      + intros a b Ha Hb. destruct (Z.eq_dec a (Z.of_nat j)) as [-> | Hne].
        * destruct (Hrow b ltac:(lia)) as [H1 H2]. rewrite H1, H2.
          split; apply Hun.
          -- apply c2_range; lia.
          -- intros a b' Ha' Hb'. split.
             ++ intros H. symmetry in H. revert H. apply c1_c2; lia.
             ++ intros H. apply c2_inj in H; lia.
          -- apply c1_range; lia.
          -- intros a b' Ha' Hb'. split.
             ++ intros H. apply c1_inj in H; lia.
             ++ apply c1_c2; lia.
        * assert (Ha' : 0 <= a < Z.of_nat j) by lia.
          destruct (Hsw a b Ha' Hb) as [H1 H2]. rewrite <- H1, <- H2.
          split; apply Hother.
          -- apply c1_range; lia.
          -- intros b' Hb'. split.
             ++ intros H. apply c1_inj in H; lia.
             ++ apply c1_c2; lia.
          -- apply c2_range; lia.
          -- intros b' Hb'. split.
             ++ intros H. symmetry in H. revert H. apply c1_c2; lia.
             ++ intros H. apply c2_inj in H; lia.
      + intros i Hi Hnone. rewrite Hother.
        * apply Hun; [ exact Hi | ]. intros a b Ha Hb. apply Hnone; lia.
        * exact Hi.
        * intros b Hb. apply Hnone; lia. }
  destruct (Hgen (Z.to_nat N) ltac:(lia)) as [g' [Hfold [Hl [Hsw Hun]]]].
  exists g'. split; [ exact Hfold | ]. split; [ exact Hl | ]. split.
  - intros a b Ha Hb. apply Hsw; lia.
  - intros i Hi Hnone. apply Hun; [ exact Hi | ].
    intros a b Ha Hb. apply Hnone; lia.
Qed.

End SwapLoops.

Lemma half w : 0 <= w -> 2 * Z.quot w 2 <= w <= 2 * Z.quot w 2 + 1.
Proof.
  intros Hw. rewrite Z.quot_div_nonneg by lia.
  pose proof (Z.div_mod w 2 ltac:(lia)).
  pose proof (Z.mod_pos_bound w 2 ltac:(lia)). lia.
Qed.

Lemma index_range w h x y :
  0 <= x < w -> 0 <= y < h -> 0 <= gridIndex x y w < w * h.
Proof. unfold gridIndex. intros Hx Hy. nia. Qed.

(** "Flip Spawns" of [mirrorX], cell by cell. *)
Lemma flipSpawnsX_cells {A} w h (g : list (list A)) :
  0 <= w -> Z.of_nat (List.length g) = w * h ->
  exists g',
    flipSpawnsX w h g = Some g'
    /\ List.length g' = List.length g
    /\ forall x y, 0 <= x < w -> 0 <= y < h ->
         getItem g' (gridIndex x y w) = getItem g (gridIndex (w - x - 1) y w).
Proof.
  intros Hw Hlen. pose proof (half w Hw) as Hhalf.
  destruct (swap_loops (A := list A) (fun y x => gridIndex x y w)
              (fun y x => gridIndex (w - x - 1) y w) h (Z.quot w 2) (w * h))
    with (g := g) as [g' [Hfold [Hl [Hsw Hun]]]].
  - intros y x Hy Hx. apply index_range; lia.
  - intros y x Hy Hx. apply index_range; lia.
  - intros y x y' x' Hy Hx Hy' Hx' H.
    apply same_cell in H; lia.
  - intros y x y' x' Hy Hx Hy' Hx' H.
    apply same_cell in H; lia.
  - intros y x y' x' Hy Hx Hy' Hx' H.
    apply same_cell in H; lia.
  - exact Hlen.
  - exists g'. split; [ exact Hfold | ]. split; [ exact Hl | ].
    intros x y Hx Hy.
    destruct (Z.lt_ge_cases x (Z.quot w 2)) as [Hlo | Hlo].
    { apply (Hsw y x); lia. }
    destruct (Z.lt_ge_cases x (w - Z.quot w 2)) as [Hhi | Hhi].
    + replace (w - x - 1) with x by lia.
      apply Hun; [ apply (index_range w h); lia | ].
      intros y' x' Hy' Hx'. split; intros H; apply same_cell in H; lia.
    + destruct (Hsw y (w - x - 1) ltac:(lia) ltac:(lia)) as [_ H].
      replace (w - (w - x - 1) - 1) with x in H by lia. exact H.
Qed.

(** "Flip Spawns" of [mirrorY], cell by cell. *)
Lemma flipSpawnsY_cells {A} w h (g : list (list A)) :
  0 <= h -> Z.of_nat (List.length g) = w * h ->
  exists g',
    flipSpawnsY w h g = Some g'
    /\ List.length g' = List.length g
    /\ forall x y, 0 <= x < w -> 0 <= y < h ->
         getItem g' (gridIndex x y w) = getItem g (gridIndex x (h - y - 1) w).
Proof.
  intros Hh Hlen. pose proof (half h Hh) as Hhalf.
  destruct (swap_loops (A := list A) (fun x y => gridIndex x y w)
              (fun x y => gridIndex x (h - y - 1) w) w (Z.quot h 2) (w * h))
    with (g := g) as [g' [Hfold [Hl [Hsw Hun]]]].
  - intros x y Hx Hy. apply index_range; lia.
  - intros x y Hx Hy. apply index_range; lia.
  - intros x y x' y' Hx Hy Hx' Hy' H.
    apply same_cell in H; lia.
  - intros x y x' y' Hx Hy Hx' Hy' H.
    apply same_cell in H; lia.
  - intros x y x' y' Hx Hy Hx' Hy' H.
    apply same_cell in H; lia.
  - exact Hlen.
  - exists g'. split; [ exact Hfold | ]. split; [ exact Hl | ].
    intros x y Hx Hy.
    destruct (Z.lt_ge_cases y (Z.quot h 2)) as [Hlo | Hlo].
    { apply (Hsw x y); lia. }
    destruct (Z.lt_ge_cases y (h - Z.quot h 2)) as [Hhi | Hhi].
    + replace (h - y - 1) with y by lia.
      apply Hun; [ apply (index_range w h); lia | ].
      intros x' y' Hx' Hy'. split; intros H; apply same_cell in H; lia.
    + destruct (Hsw x (h - y - 1) ltac:(lia) ltac:(lia)) as [_ H].
      replace (h - (h - y - 1) - 1) with y in H by lia. exact H.
Qed.

Lemma flipFrom_all {A} (f : A -> A) w h k (g : list (list A)) :
  k + Z.of_nat (List.length g) <= w * h ->
  flipFrom f w h k g = map (map f) g.
Proof.
  revert k. induction g as [| stack rest IH]; intros k Hk; [ reflexivity | ].
  simpl in *. destruct (Z.geb_spec k (w * h)); [ lia | ].
  rewrite IH by lia. reflexivity.
Qed.

Lemma stackAt_map {A} (f : A -> A) (g : list (list A)) w x y :
  0 <= gridIndex x y w ->
  stackAt (map (map f) g) w x y = map f (stackAt g w x y).
Proof.
  intros H. unfold stackAt. rewrite !getItem_inside by exact H.
  rewrite nth_error_map. destruct (nth_error g _); reflexivity.
Qed.

Lemma mirrorOk_table : tableCheck mirrorOk = true.
Proof. vm_compute. reflexivity. Qed.

Lemma newInfo_shape id i0 : newInfo id = Some i0 -> shape i0 = id.
Proof.
  unfold newInfo. destruct (shapeOf id); [ | discriminate ].
  intros H. injection H as <-. reflexivity.
Qed.

(** What [mirrorX] and [mirrorY] do once the stacks have been swapped. *)
Lemma mirror_finish {A} (f : A -> A) id i0 ds doors1 (g1 : list (list A)) m :
  newInfo id = Some i0 ->
  mirrorTarget i0 m = true ->
  doors1 <> [] ->
  0 < fst (dims i0) -> 0 < snd (dims i0) ->
  Z.of_nat (List.length g1) = fst (dims i0) * snd (dims i0) ->
  let w := fst (dims i0) in
  let h := snd (dims i0) in
  let room1 := mkRoom (setDoors (setDoors i0 ds) doors1) (flipFrom f w h 0 g1) in
  exists room' i1,
    match m with
    | Some sh => if sh =? 0 then Some room1 else reshape room1 sh (Some doors1)
    | None => Some room1
    end = Some room'
    /\ newInfo (match m with Some sh => sh | None => id end) = Some i1
    /\ dims i1 = dims i0
    /\ info room' = setDoors i1 doors1
    /\ Z.of_nat (List.length (gridSpawns room')) = w * h
    /\ forall x y, 0 <= x < w -> 0 <= y < h ->
         stackAt (gridSpawns room') w x y = map f (stackAt g1 w x y).
Proof.
  intros Hinfo Hm Hd Hw Hh Hlen w h room1.
  assert (Hflip : flipFrom f w h 0 g1 = map (map f) g1)
    by (apply flipFrom_all; lia).
  assert (Hcells : forall x y, 0 <= x < w -> 0 <= y < h ->
             stackAt (gridSpawns room1) w x y = map f (stackAt g1 w x y)).
  { intros x y Hx Hy. simpl. rewrite Hflip. apply stackAt_map.
    pose proof (index_range w h x y Hx Hy). lia. }
  destruct m as [sh |].
  - simpl in Hm. apply andb_true_iff in Hm. destruct Hm as [Hnz Hm].
    apply negb_true_iff in Hnz. rewrite Hnz.
    destruct (newInfo sh) as [i1 |] eqn:Hi1; [ | discriminate ].
    apply andb_true_iff in Hm. destruct Hm as [Hw1 Hh1].
    apply Z.eqb_eq in Hw1. apply Z.eqb_eq in Hh1.
    assert (Hdims1 : dims i1 = dims i0).
    { destruct (dims i1), (dims i0). simpl in *. congruence. }
    destruct (reshape_cells room1 sh (Some doors1) i1 Hi1)
      as [room' [Hre [Hi [Hl Hc]]]].
    { simpl. change (dims (setDoors (setDoors i0 ds) doors1)) with (dims i0).
      rewrite Hdims1. lia. }
    exists room', i1. split; [ exact Hre | ]. split; [ reflexivity | ].
    split; [ exact Hdims1 | ].
    split; [ rewrite Hi; destruct doors1; [ contradiction | reflexivity ] | ].
    split; [ rewrite Hl; unfold gridLen; rewrite Hdims1; reflexivity | ].
    intros x y Hx Hy. rewrite <- Hcells by assumption.
    specialize (Hc x y). rewrite Hdims1 in Hc. fold w h in Hc.
    specialize (Hc Hx Hy).
    change (dims (info room1)) with (dims i0) in Hc. fold w h in Hc.
    replace ((x <? w) && (y <? h)) with true in Hc.
    2:{ symmetry. apply andb_true_iff. split; apply Z.ltb_lt; lia. }
    unfold stackAt at 1. rewrite Hc. reflexivity.
  - exists room1, i0. split; [ reflexivity | ]. split; [ exact Hinfo | ].
    split; [ reflexivity | ]. split; [ reflexivity | ].
    split; [ simpl; rewrite Hflip, !length_map; exact Hlen | ].
    exact Hcells.
Qed.

Section WithRegistry.
Context {Weight : Type}.
Variable mirrorXOf : Z -> Z -> Z -> option (Z * Z * Z).
Variable mirrorYOf : Z -> Z -> Z -> option (Z * Z * Z).

Lemma mirrorX_cells (room : Room (Spawn Weight)) id i0 :
  newInfo id = Some i0 ->
  info room = setDoors i0 (doors (info room)) ->
  doors (info room) <> [] ->
  Z.of_nat (List.length (gridSpawns room)) = gridLen i0 ->
  let w := fst (dims i0) in
  let h := snd (dims i0) in
  exists room' i1,
    mirrorX mirrorXOf room = Some room'
    /\ newInfo (match MirrorX (shapeData i0) with Some sh => sh | None => id end)
       = Some i1
    /\ dims i1 = dims i0
    /\ info room'
       = setDoors i1 (map (fun door => setDoorX door (w - doorX door - 1))
                          (doors (info room)))
    /\ Z.of_nat (List.length (gridSpawns room')) = gridLen i0
    /\ forall x y, 0 <= x < w -> 0 <= y < h ->
         stackAt (gridSpawns room') w x y
         = map (flipSpawn mirrorXOf) (stackAt (gridSpawns room) w (w - x - 1) y).
Proof.
  intros Hinfo Hroom Hd Hlen w h.
  pose proof (GeometryFacts.tableCheck_sound _ id i0 mirrorOk_table Hinfo) as Hok.
  unfold mirrorOk in Hok. rewrite !andb_true_iff in Hok.
  destruct Hok as [[[Hw Hh] Hmx] _].
  apply Z.ltb_lt in Hw. apply Z.ltb_lt in Hh.
  unfold mirrorX. rewrite Hroom.
  change (dims (setDoors i0 (doors (info room)))) with (dims i0).
  destruct (dims i0) as [w0 h0] eqn:Hdims. simpl in w, h, Hw, Hh.
  subst w h. unfold gridLen in Hlen. rewrite Hdims in Hlen. simpl in Hlen.
  destruct (flipSpawnsX_cells w0 h0 (gridSpawns room) ltac:(lia) Hlen)
    as [g1 [Hflip [Hl1 Hc1]]].
  rewrite Hflip.
  change (doors (setDoors i0 (doors (info room)))) with (doors (info room)).
  change (shapeData (setDoors i0 (doors (info room)))) with (shapeData i0).
  set (doors1 := map (fun door => setDoorX door (w0 - doorX door - 1))
                     (doors (info room))).
  destruct (mirror_finish (flipSpawn mirrorXOf) id i0 (doors (info room)) doors1
              g1 (MirrorX (shapeData i0)) Hinfo Hmx)
    as [room' [i1 [Hre [Hi1 [Hdm [Hi [Hl Hc]]]]]]].
  - unfold doors1. destruct (doors (info room)); [ contradiction | discriminate ].
  - rewrite Hdims. exact Hw.
  - rewrite Hdims. exact Hh.
  - rewrite Hdims, Hl1. exact Hlen.
  - rewrite Hdims in Hre, Hl, Hc. simpl in Hre, Hl, Hc.
    exists room', i1. split; [ exact Hre | ]. split; [ exact Hi1 | ].
    split; [ rewrite Hdm; exact Hdims | ]. split; [ exact Hi | ].
    split; [ unfold gridLen; rewrite Hdims; exact Hl | ].
    intros x y Hx Hy. rewrite (Hc x y Hx Hy). f_equal.
    unfold stackAt. rewrite (Hc1 x y Hx Hy). reflexivity.
Qed.

Lemma mirrorY_cells (room : Room (Spawn Weight)) id i0 :
  newInfo id = Some i0 ->
  info room = setDoors i0 (doors (info room)) ->
  doors (info room) <> [] ->
  Z.of_nat (List.length (gridSpawns room)) = gridLen i0 ->
  let w := fst (dims i0) in
  let h := snd (dims i0) in
  exists room' i1,
    mirrorY mirrorYOf room = Some room'
    /\ newInfo (match MirrorY (shapeData i0) with Some sh => sh | None => id end)
       = Some i1
    /\ dims i1 = dims i0
    /\ info room'
       = setDoors i1 (map (fun door => setDoorY door (h - doorY door - 1))
                          (doors (info room)))
    /\ Z.of_nat (List.length (gridSpawns room')) = gridLen i0
    /\ forall x y, 0 <= x < w -> 0 <= y < h ->
         stackAt (gridSpawns room') w x y
         = map (flipSpawn mirrorYOf) (stackAt (gridSpawns room) w x (h - y - 1)).
Proof.
  intros Hinfo Hroom Hd Hlen w h.
  pose proof (GeometryFacts.tableCheck_sound _ id i0 mirrorOk_table Hinfo) as Hok.
  unfold mirrorOk in Hok. rewrite !andb_true_iff in Hok.
  destruct Hok as [[[Hw Hh] _] Hmy].
  apply Z.ltb_lt in Hw. apply Z.ltb_lt in Hh.
  unfold mirrorY. rewrite Hroom.
  change (dims (setDoors i0 (doors (info room)))) with (dims i0).
  destruct (dims i0) as [w0 h0] eqn:Hdims. simpl in w, h, Hw, Hh.
  subst w h. unfold gridLen in Hlen. rewrite Hdims in Hlen. simpl in Hlen.
  destruct (flipSpawnsY_cells w0 h0 (gridSpawns room) ltac:(lia) Hlen)
    as [g1 [Hflip [Hl1 Hc1]]].
  rewrite Hflip.
  change (doors (setDoors i0 (doors (info room)))) with (doors (info room)).
  change (shapeData (setDoors i0 (doors (info room)))) with (shapeData i0).
  set (doors1 := map (fun door => setDoorY door (h0 - doorY door - 1))
                     (doors (info room))).
  destruct (mirror_finish (flipSpawn mirrorYOf) id i0 (doors (info room)) doors1
              g1 (MirrorY (shapeData i0)) Hinfo Hmy)
    as [room' [i1 [Hre [Hi1 [Hdm [Hi [Hl Hc]]]]]]].
  - unfold doors1. destruct (doors (info room)); [ contradiction | discriminate ].
  - rewrite Hdims. exact Hw.
  - rewrite Hdims. exact Hh.
  - rewrite Hdims, Hl1. exact Hlen.
  - rewrite Hdims in Hre, Hl, Hc. simpl in Hre, Hl, Hc.
    exists room', i1. split; [ exact Hre | ]. split; [ exact Hi1 | ].
    split; [ rewrite Hdm; exact Hdims | ]. split; [ exact Hi | ].
    split; [ unfold gridLen; rewrite Hdims; exact Hl | ].
    intros x y Hx Hy. rewrite (Hc x y Hx Hy). f_equal.
    unfold stackAt. rewrite (Hc1 x y Hx Hy). reflexivity.
Qed.

(** X15.  [mirrorX] mirrors a room of the table left to right: it returns,
    the room has the mirror shape (its own shape if the table names none) and
    the same size, every door has moved from column [x] to column
    [width - x - 1], and each cell [(x, y)] holds the stack that stood at
    [(width - x - 1, y)], each of its spawns replaced by its mirror image if
    the registry names one. *)
Theorem mirrorX_mirrors (room : Room (Spawn Weight)) (id : Z) (i0 : Info) :
  newInfo id = Some i0 ->
  info room = setDoors i0 (doors (info room)) ->
  doors (info room) <> [] ->
  Z.of_nat (List.length (gridSpawns room)) = gridLen i0 ->
  let w := fst (dims i0) in
  let h := snd (dims i0) in
  exists room',
    mirrorX mirrorXOf room = Some room'
    /\ shape (info room')
       = match MirrorX (shapeData i0) with Some sh => sh | None => id end
    /\ dims (info room') = dims i0
    /\ doors (info room')
       = map (fun door => setDoorX door (w - doorX door - 1)) (doors (info room))
    /\ Z.of_nat (List.length (gridSpawns room')) = gridLen i0
    /\ forall x y, 0 <= x < w -> 0 <= y < h ->
         stackAt (gridSpawns room') w x y
         = map (flipSpawn mirrorXOf) (stackAt (gridSpawns room) w (w - x - 1) y).
Proof.
  intros Hinfo Hroom Hd Hlen w h.
  destruct (mirrorX_cells room id i0 Hinfo Hroom Hd Hlen)
    as [room' [i1 [Hre [Hi1 [Hdm [Hi [Hl Hc]]]]]]].
  exists room'. split; [ exact Hre | ]. rewrite Hi.
  split; [ exact (newInfo_shape _ _ Hi1) | ].
  split; [ exact Hdm | ]. split; [ reflexivity | ].
  split; [ exact Hl | exact Hc ].
Qed.

(** X16.  [mirrorY] mirrors a room of the table top to bottom: it returns,
    the room has the mirror shape (its own shape if the table names none) and
    the same size, every door has moved from row [y] to row
    [height - y - 1], and each cell [(x, y)] holds the stack that stood at
    [(x, height - y - 1)], each of its spawns replaced by its mirror image if
    the registry names one. *)
Theorem mirrorY_mirrors (room : Room (Spawn Weight)) (id : Z) (i0 : Info) :
  newInfo id = Some i0 ->
  info room = setDoors i0 (doors (info room)) ->
  doors (info room) <> [] ->
  Z.of_nat (List.length (gridSpawns room)) = gridLen i0 ->
  let w := fst (dims i0) in
  let h := snd (dims i0) in
  exists room',
    mirrorY mirrorYOf room = Some room'
    /\ shape (info room')
       = match MirrorY (shapeData i0) with Some sh => sh | None => id end
    /\ dims (info room') = dims i0
    /\ doors (info room')
       = map (fun door => setDoorY door (h - doorY door - 1)) (doors (info room))
    /\ Z.of_nat (List.length (gridSpawns room')) = gridLen i0
    /\ forall x y, 0 <= x < w -> 0 <= y < h ->
         stackAt (gridSpawns room') w x y
         = map (flipSpawn mirrorYOf) (stackAt (gridSpawns room) w x (h - y - 1)).
Proof.
  intros Hinfo Hroom Hd Hlen w h.
  destruct (mirrorY_cells room id i0 Hinfo Hroom Hd Hlen)
    as [room' [i1 [Hre [Hi1 [Hdm [Hi [Hl Hc]]]]]]].
  exists room'. split; [ exact Hre | ]. rewrite Hi.
  split; [ exact (newInfo_shape _ _ Hi1) | ].
  split; [ exact Hdm | ]. split; [ reflexivity | ].
  split; [ exact Hl | exact Hc ].
Qed.

End WithRegistry.

(** *** Mirroring twice *)

Lemma mirrorBackOk_table : tableCheck mirrorBackOk = true.
Proof. vm_compute. reflexivity. Qed.

(** Two grids with one entry per cell that agree on every cell. *)
Lemma same_cells {A} w h (g g' : list (list A)) :
  0 < w ->
  Z.of_nat (List.length g) = w * h -> Z.of_nat (List.length g') = w * h ->
  (forall x y, 0 <= x < w -> 0 <= y < h -> stackAt g' w x y = stackAt g w x y) ->
  g' = g.
Proof.
  intros Hw Hl Hl' Hc. apply nth_error_ext. intros n.
  destruct (Nat.lt_ge_cases n (List.length g)) as [Hn | Hn].
  - pose proof (Z.mod_pos_bound (Z.of_nat n) w Hw) as Hx.
    pose proof (Z.div_pos (Z.of_nat n) w ltac:(lia) Hw) as Hy0.
    assert (Hy : Z.of_nat n / w < h) by (apply Z.div_lt_upper_bound; lia).
    specialize (Hc (Z.of_nat n mod w) (Z.of_nat n / w) Hx ltac:(lia)).
    unfold stackAt, gridIndex in Hc.
    rewrite (Z.mul_comm _ w), <- Z.div_mod in Hc by lia.
    rewrite !getItem_inside, Nat2Z.id in Hc by lia.
    destruct (nth_error g n) as [st |] eqn:E;
      [ | apply nth_error_None in E; lia ].
    destruct (nth_error g' n) as [st' |] eqn:E';
      [ | apply nth_error_None in E'; lia ].
    congruence.
  - rewrite (proj2 (nth_error_None g n)) by lia.
    apply nth_error_None. lia.
Qed.

Lemma mirrorsBack_target id i0 i1 pick :
  newInfo id = Some i0 ->
  mirrorsBack i0 pick = true ->
  newInfo (match pick (shapeData i0) with Some sh => sh | None => id end) = Some i1 ->
  match pick (shapeData i1) with Some sh => sh | None => shape i1 end = id.
Proof.
  intros Hinfo Hback Hi1. unfold mirrorsBack in Hback.
  rewrite (newInfo_shape id i0 Hinfo) in Hback.
  destruct (pick (shapeData i0)) as [sh |] eqn:Hp.
  - unfold newInfo in Hi1.
    destruct (shapeOf sh) as [data |]; [ | discriminate ].
    injection Hi1 as <-. simpl.
    destruct (pick data); [ apply Z.eqb_eq, Hback | discriminate ].
  - rewrite Hinfo in Hi1. injection Hi1 as <-. rewrite Hp.
    exact (newInfo_shape id i0 Hinfo).
Qed.

Lemma swapRegistry_mutual (s : Spawn unit) :
  flipSpawn RoomExamples.swapRegistry (flipSpawn RoomExamples.swapRegistry s) = s.
Proof.
  destruct s as [t v s w]. unfold flipSpawn, RoomExamples.swapRegistry. simpl.
  destruct (Z.eqb_spec t 1) as [-> | H1]; [ reflexivity | ].
  destruct (Z.eqb_spec t 2) as [-> | H2]; [ reflexivity | ].
  simpl. destruct (Z.eqb_spec t 1); [ contradiction | ].
  destruct (Z.eqb_spec t 2); [ contradiction | reflexivity ].
Qed.

Section Twice.
Context {Weight : Type}.
Variable mirrorXOf : Z -> Z -> Z -> option (Z * Z * Z).
Variable mirrorYOf : Z -> Z -> Z -> option (Z * Z * Z).

Lemma mirrorX_twice (room : Room (Spawn Weight)) id i0 :
  newInfo id = Some i0 ->
  info room = setDoors i0 (doors (info room)) ->
  doors (info room) <> [] ->
  Z.of_nat (List.length (gridSpawns room)) = gridLen i0 ->
  (forall s : Spawn Weight, flipSpawn mirrorXOf (flipSpawn mirrorXOf s) = s) ->
  exists room',
    mirrorX mirrorXOf room = Some room' /\ mirrorX mirrorXOf room' = Some room.
Proof.
  intros Hinfo Hroom Hd Hlen Hinv.
  pose proof (GeometryFacts.tableCheck_sound _ id i0 mirrorOk_table Hinfo) as Hok.
  unfold mirrorOk in Hok. rewrite !andb_true_iff in Hok.
  destruct Hok as [[[Hw _] _] _]. apply Z.ltb_lt in Hw.
  pose proof (GeometryFacts.tableCheck_sound _ id i0 mirrorBackOk_table Hinfo)
    as Hback.
  apply andb_true_iff in Hback. destruct Hback as [Hback _].
  destruct (mirrorX_cells mirrorXOf room id i0 Hinfo Hroom Hd Hlen)
    as [room' [i1 [Hre [Hi1 [Hdm [Hi [Hl Hc]]]]]]].
  exists room'. split; [ exact Hre | ].
  assert (Hg : gridLen i1 = gridLen i0) by (unfold gridLen; rewrite Hdm; reflexivity).
  destruct (mirrorX_cells mirrorXOf room' _ i1 Hi1)
    as [room'' [i2 [Hre2 [Hi2 [Hdm2 [Hi' [Hl2 Hc2]]]]]]].
  { rewrite Hi. reflexivity. }
  { rewrite Hi. simpl. destruct (doors (info room)); [ contradiction | discriminate ]. }
  { rewrite Hg. exact Hl. }
  rewrite Hre2. f_equal.
  pose proof (mirrorsBack_target id i0 i1 MirrorX Hinfo Hback Hi1) as Hid.
  rewrite (newInfo_shape _ _ Hi1) in Hid. rewrite Hid, Hinfo in Hi2.
  injection Hi2 as <-.
  rewrite Hdm in Hc2, Hi'. rewrite Hg in Hl2.
  destruct room as [ri rg]. destruct room'' as [ri'' rg'']. simpl in *.
  f_equal.
  - rewrite Hi', Hi, Hroom. simpl. unfold setDoors. simpl. f_equal.
    rewrite map_map. rewrite <- (map_id (doors ri)) at 2.
    apply map_ext. intros [dx dy de]. unfold setDoorX. simpl. f_equal. lia.
  - unfold gridLen in Hlen, Hl2.
    apply (same_cells (fst (dims i0)) (snd (dims i0))); try assumption.
    intros x y Hx Hy.
    rewrite (Hc2 x y Hx Hy), Hc by lia.
    rewrite map_map.
    replace (fst (dims i0) - (fst (dims i0) - x - 1) - 1) with x by lia.
    rewrite <- (map_id (stackAt rg (fst (dims i0)) x y)) at 2.
    apply map_ext. exact Hinv.
Qed.

Lemma mirrorY_twice (room : Room (Spawn Weight)) id i0 :
  newInfo id = Some i0 ->
  info room = setDoors i0 (doors (info room)) ->
  doors (info room) <> [] ->
  Z.of_nat (List.length (gridSpawns room)) = gridLen i0 ->
  (forall s : Spawn Weight, flipSpawn mirrorYOf (flipSpawn mirrorYOf s) = s) ->
  exists room',
    mirrorY mirrorYOf room = Some room' /\ mirrorY mirrorYOf room' = Some room.
Proof.
  intros Hinfo Hroom Hd Hlen Hinv.
  pose proof (GeometryFacts.tableCheck_sound _ id i0 mirrorOk_table Hinfo) as Hok.
  unfold mirrorOk in Hok. rewrite !andb_true_iff in Hok.
  destruct Hok as [[[Hw Hh] _] _]. apply Z.ltb_lt in Hw. apply Z.ltb_lt in Hh.
  pose proof (GeometryFacts.tableCheck_sound _ id i0 mirrorBackOk_table Hinfo)
    as Hback.
  apply andb_true_iff in Hback. destruct Hback as [_ Hback].
  destruct (mirrorY_cells mirrorYOf room id i0 Hinfo Hroom Hd Hlen)
    as [room' [i1 [Hre [Hi1 [Hdm [Hi [Hl Hc]]]]]]].
  exists room'. split; [ exact Hre | ].
  assert (Hg : gridLen i1 = gridLen i0) by (unfold gridLen; rewrite Hdm; reflexivity).
  destruct (mirrorY_cells mirrorYOf room' _ i1 Hi1)
    as [room'' [i2 [Hre2 [Hi2 [Hdm2 [Hi' [Hl2 Hc2]]]]]]].
  { rewrite Hi. reflexivity. }
  { rewrite Hi. simpl. destruct (doors (info room)); [ contradiction | discriminate ]. }
  { rewrite Hg. exact Hl. }
  rewrite Hre2. f_equal.
  pose proof (mirrorsBack_target id i0 i1 MirrorY Hinfo Hback Hi1) as Hid.
  rewrite (newInfo_shape _ _ Hi1) in Hid. rewrite Hid, Hinfo in Hi2.
  injection Hi2 as <-.
  rewrite Hdm in Hc2, Hi'. rewrite Hg in Hl2.
  destruct room as [ri rg]. destruct room'' as [ri'' rg'']. simpl in *.
  f_equal.
  - rewrite Hi', Hi, Hroom. simpl. unfold setDoors. simpl. f_equal.
    rewrite map_map. rewrite <- (map_id (doors ri)) at 2.
    apply map_ext. intros [dx dy de]. unfold setDoorY. simpl. f_equal. lia.
  - unfold gridLen in Hlen, Hl2.
    apply (same_cells (fst (dims i0)) (snd (dims i0))); try assumption.
    intros x y Hx Hy.
    rewrite (Hc2 x y Hx Hy), Hc by lia.
    rewrite map_map.
    replace (snd (dims i0) - (snd (dims i0) - y - 1) - 1) with y by lia.
    rewrite <- (map_id (stackAt rg (fst (dims i0)) x y)) at 2.
    apply map_ext. exact Hinv.
Qed.

(** X17.  Mirroring twice along the same axis gives back the room: for a
    room of the table with one stack per cell, when the registry's mirror
    images are mutual, [mirrorX] followed by [mirrorX] returns the room it
    started from (shape, doors and every stack), and so does [mirrorY]
    followed by [mirrorY]. *)
Theorem mirror_twice_restores (room : Room (Spawn Weight)) (id : Z) (i0 : Info) :
  newInfo id = Some i0 ->
  info room = setDoors i0 (doors (info room)) ->
  doors (info room) <> [] ->
  Z.of_nat (List.length (gridSpawns room)) = gridLen i0 ->
  (forall s : Spawn Weight, flipSpawn mirrorXOf (flipSpawn mirrorXOf s) = s) ->
  (forall s : Spawn Weight, flipSpawn mirrorYOf (flipSpawn mirrorYOf s) = s) ->
  (exists room',
     mirrorX mirrorXOf room = Some room' /\ mirrorX mirrorXOf room' = Some room)
  /\ (exists room',
        mirrorY mirrorYOf room = Some room' /\ mirrorY mirrorYOf room' = Some room).
Proof.
  intros Hinfo Hroom Hd Hlen HinvX HinvY. split.
  - exact (mirrorX_twice room id i0 Hinfo Hroom Hd Hlen HinvX).
  - exact (mirrorY_twice room id i0 Hinfo Hroom Hd Hlen HinvY).
Qed.

End Twice.

End RoomFacts.

Module RoomWitnesses.
Import RoomInfo Terms Rooms RoomExamples.

Lemma spawns_are_the_filled_cells_witness :
  In ([mkSpawn 1 0 0 tt; mkSpawn 5 0 0 tt], 3, 0) (spawns (sampleRoom 1))
  <-> 0 <= 3 < fst (dims (info (sampleRoom 1)))
      /\ 0 <= 0 < snd (dims (info (sampleRoom 1)))
      /\ [mkSpawn 1 0 0 tt; mkSpawn 5 0 0 tt] <> []
      /\ getItem (gridSpawns (sampleRoom 1))
                 (gridIndex 3 0 (fst (dims (info (sampleRoom 1)))))
         = Some [mkSpawn 1 0 0 tt; mkSpawn 5 0 0 tt].
Proof.
  apply (RoomFacts.spawns_are_the_filled_cells (sampleRoom 1)).
  vm_compute. reflexivity.
Defined.

(** A 1x1 room reshaped to a 1x2 room. *)
Lemma reshape_keeps_what_fits_witness :
  exists room',
    reshape (sampleRoom 1) 4 None = Some room'
    /\ shape (info room') = 4
    /\ dims (info room') = dims (infoOf 4)
    /\ doors (info room') = doors (infoOf 4)
    /\ Z.of_nat (List.length (gridSpawns room')) = gridLen (info room')
    /\ forall x y,
         0 <= x < fst (dims (infoOf 4)) -> 0 <= y < snd (dims (infoOf 4)) ->
         getItem (gridSpawns room') (gridIndex x y (fst (dims (infoOf 4))))
         = Some (if (x <? fst (dims (info (sampleRoom 1))))
                    && (y <? snd (dims (info (sampleRoom 1))))
                 then stackAt (gridSpawns (sampleRoom 1))
                              (fst (dims (info (sampleRoom 1)))) x y
                 else []).
Proof.
  apply (RoomFacts.reshape_keeps_what_fits (sampleRoom 1) 4 None (infoOf 4)).
  - vm_compute. reflexivity.
  - vm_compute. split; [ reflexivity | discriminate ].
Defined.

(** An L-shaped room (shape 9), whose mirror image has shape 10. *)
Lemma mirrorX_mirrors_witness :
  exists room',
    mirrorX swapRegistry (sampleRoom 9) = Some room'
    /\ shape (info room') = 10
    /\ dims (info room') = (28, 16).
Proof.
  destruct (RoomFacts.mirrorX_mirrors swapRegistry (sampleRoom 9) 9 (infoOf 9))
    as [room' [Hre [Hs [Hd _]]]].
  - vm_compute. reflexivity.
  - vm_compute. reflexivity.
  - vm_compute. discriminate.
  - vm_compute. reflexivity.
  - exists room'. split; [ exact Hre | ]. split; [ exact Hs | exact Hd ].
Defined.

Lemma mirrorY_mirrors_witness :
  exists room',
    mirrorY swapRegistry (sampleRoom 9) = Some room'
    /\ shape (info room') = 11
    /\ dims (info room') = (28, 16).
Proof.
  destruct (RoomFacts.mirrorY_mirrors swapRegistry (sampleRoom 9) 9 (infoOf 9))
    as [room' [Hre [Hs [Hd _]]]].
  - vm_compute. reflexivity.
  - vm_compute. reflexivity.
  - vm_compute. discriminate.
  - vm_compute. reflexivity.
  - exists room'. split; [ exact Hre | ]. split; [ exact Hs | exact Hd ].
Defined.

Lemma mirror_twice_restores_witness :
  (exists room',
     mirrorX swapRegistry (sampleRoom 9) = Some room'
     /\ mirrorX swapRegistry room' = Some (sampleRoom 9))
  /\ (exists room',
        mirrorY swapRegistry (sampleRoom 9) = Some room'
        /\ mirrorY swapRegistry room' = Some (sampleRoom 9)).
Proof.
  apply (RoomFacts.mirror_twice_restores swapRegistry swapRegistry
           (sampleRoom 9) 9 (infoOf 9)).
  - vm_compute. reflexivity.
  - vm_compute. reflexivity.
  - vm_compute. discriminate.
  - vm_compute. reflexivity.
  - apply RoomFacts.swapRegistry_mutual.
  - apply RoomFacts.swapRegistry_mutual.
Defined.

End RoomWitnesses.

(** ** The rock pass *)

Module SweepFacts.
Import RoomInfo Scene Editor Neighbours Autotile Props Terms.

Lemma frameStep_refl U e : frameStep U e e.
Proof. split; [ destruct e; reflexivity | split; auto ]. Qed.

Lemma frameStep_uid U e e' : frameStep U e e' -> uid e' = uid e.
Proof. intros [H _]. rewrite H. reflexivity. Qed.

Lemma frameStep_trans U V e e' e'' :
  frameStep U e e' -> frameStep V e' e'' -> frameStep (U ++ V) e e''.
Proof.
  intros [H1 [H2 H3]] [H1' [H2' H3']].
  split; [ | split ].
  - rewrite H1', H1. reflexivity.
  - intros Hn. rewrite H2', H2.
    + reflexivity.
    + intros Hin. apply Hn, in_or_app. left. exact Hin.
    + rewrite H1. simpl. intros Hin. apply Hn, in_or_app. right. exact Hin.
  - auto.
Qed.

Lemma Forall2_refl_on {A} (R : A -> A -> Prop) l :
  (forall a, R a a) -> Forall2 R l l.
Proof. intros H. induction l; constructor; auto. Qed.

Lemma Forall2_map_right {A} (R : A -> A -> Prop) g l :
  (forall a, R a (g a)) -> Forall2 R l (map g l).
Proof. intros H. induction l; simpl; constructor; auto. Qed.

Lemma Forall2_compose {A} (R1 R2 R3 : A -> A -> Prop) a b c :
  Forall2 R1 a b -> Forall2 R2 b c ->
  (forall x y z, In x a -> In y b -> R1 x y -> R2 y z -> R3 x z) ->
  Forall2 R3 a c.
Proof.
  intros H1. revert c. induction H1 as [| x y a b Hxy _ IH]; intros c H2 Hc.
  - inversion H2. constructor.
  - inversion H2 as [| ? z ? c' Hyz Hrest]; subst. constructor.
    + apply (Hc x y z); try assumption; left; reflexivity.
    + apply IH; [ exact Hrest | ].
      intros x' y' z' Hx Hy. apply Hc; right; assumption.
Qed.

Lemma sameExcept_refl U s : sameExcept U s s.
Proof.
  repeat split. apply Forall2_refl_on. intros e. apply frameStep_refl.
Qed.

Lemma sameExcept_trans U V s s' s'' :
  sameExcept U s s' -> sameExcept V s' s'' -> sameExcept (U ++ V) s s''.
Proof.
  intros [Hc [Hw [Hh H]]] [Hc' [Hw' [Hh' H']]].
  split; [ congruence | ]. split; [ congruence | ]. split; [ congruence | ].
  apply (Forall2_compose _ _ _ _ _ _ H H').
  intros x y z _ _. apply frameStep_trans.
Qed.

Lemma assignFrame_step u f s : sameExcept [u] s (assignFrame u f s).
Proof.
  repeat split. unfold assignFrame, updateEnt. simpl.
  apply Forall2_map_right. intros e.
  destruct (Nat.eqb (uid e) u) eqn:E.
  - split; [ reflexivity | split ].
    + intros Hn. exfalso. apply Hn. left. symmetry. apply Nat.eqb_eq, E.
    + simpl. discriminate.
  - apply frameStep_refl.
Qed.

Lemma assignPartner_step X f s : sameExcept (optUid X) s (assignPartner X f s).
Proof.
  destruct X as [e |]; simpl; [ apply assignFrame_step | apply sameExcept_refl ].
Qed.

(** An entity found before is found after, and the other way round. *)
Lemma sameExcept_found U s s' u e :
  sameExcept U s s' -> findEnt s u = Some e ->
  exists e', findEnt s' u = Some e' /\ frameStep U e e'.
Proof.
  intros [_ [_ [_ H]]]. unfold findEnt.
  induction H as [| a b l l' Hab _ IH]; simpl; [ discriminate | ].
  rewrite (frameStep_uid U a b Hab).
  destruct (Nat.eqb (uid a) u).
  - intros Heq. injection Heq as <-. exists b. split; [ reflexivity | exact Hab ].
  - exact IH.
Qed.

Lemma sameExcept_weaken U V s s' :
  (forall u, In u U -> In u V) -> sameExcept U s s' -> sameExcept V s s'.
Proof.
  intros Hincl [Hc [Hw [Hh H]]]. repeat split; try assumption.
  eapply Forall2_impl; [ | exact H ].
  intros e e' [H1 [H2 H3]]. split; [ exact H1 | split; [ | exact H3 ] ].
  intros Hn. apply H2. intros Hin. apply Hn, Hincl, Hin.
Qed.

(** *** What the cached query answers *)

Lemma deref_found s us E :
  In E (deref s us) -> findEnt s (uid E) = Some E.
Proof.
  unfold deref. rewrite in_flat_map. intros [u [_ Hin]].
  destruct (findEnt s u) as [e |] eqn:Hf; [ | contradiction ].
  destruct Hin as [<- | []].
  pose proof Hf as Hu. unfold findEnt in Hu. apply find_some in Hu.
  destruct Hu as [_ Hu]. apply Nat.eqb_eq in Hu. rewrite Hu. exact Hf.
Qed.

Lemma setSpot_Forall {A} (P : A -> Prop) spot v res :
  P v -> Forall P res -> Forall P (setSpot spot v res).
Proof.
  intros Hv H. revert spot. induction H as [| a l Ha Hl IH]; intros [| n]; simpl;
    constructor; auto.
Qed.

Lemma adjacent_found s x y k E :
  In E (nth k (getAdjacentEnts s x y true) []) ->
  findEnt s (uid E) = Some E.
Proof.
  set (P := Forall (fun E => findEnt s (uid E) = Some E)).
  assert (Hall : Forall P (getAdjacentEnts s x y true)).
  { unfold getAdjacentEnts.
    assert (Hinit : Forall P (repeat (@nil Entity) 8)).
    { apply Forall_forall. intros l Hl. apply repeat_spec in Hl. subst l.
      constructor. }
    revert Hinit. generalize (repeat (@nil Entity) 8).
    induction offsets as [| [i j] rest IH]; intros res Hres; [ exact Hres | ].
    cbn [fold_left]. apply IH. unfold cachedStep.
    destruct (spotOf i (j + 1)); [ | exact Hres ].
    destruct ((gridIndex (x + j) (y + i) (roomWidth s) <? 0)
              || (gridIndex (x + j) (y + i) (roomWidth s)
                  >=? roomWidth s * roomHeight s)); [ exact Hres | ].
    apply setSpot_Forall; [ | exact Hres ].
    apply Forall_forall. intros E' HE. unfold cacheAt in HE.
    exact (deref_found _ _ _ HE). }
  intros Hin.
  destruct (Nat.lt_ge_cases k (List.length (getAdjacentEnts s x y true)))
    as [Hk | Hk].
  - rewrite Forall_forall in Hall.
    specialize (Hall _ (nth_In _ [] Hk)). unfold P in Hall.
    rewrite Forall_forall in Hall. exact (Hall E Hin).
  - rewrite nth_overflow in Hin by lia. contradiction.
Qed.

Lemma findMatchInStack_In img stack E :
  findMatchInStack img stack = Some E -> In E stack.
Proof.
  induction stack as [| e rest IH]; simpl; [ discriminate | ].
  destruct (String.eqb (currentImg e) img).
  - intros H. injection H as <-. left. reflexivity.
  - intros H. right. exact (IH H).
Qed.

(** A partner that is offered is an entity of the scene without a frame. *)
Lemma offered_partner s x y k img X p :
  X = findMatchInStack img (nth k (getAdjacentEnts s x y true) []) ->
  unassigned X = true -> In p (optUid X) ->
  exists E, findEnt s p = Some E /\ rockFrame E = None.
Proof.
  intros HX Hun Hp. destruct X as [E |]; [ | contradiction ].
  destruct Hp as [<- | []]. exists E. split.
  - symmetry in HX. apply findMatchInStack_In in HX.
    exact (adjacent_found _ _ _ _ _ HX).
  - simpl in Hun. destruct (rockFrame E); [ discriminate | reflexivity ].
Qed.

(** The candidate that is drawn names partners that were offered. *)
Lemma drawn_partners img right down downRight c p :
  In c (rockCandidates img right down downRight) ->
  In p (partnersOf c (findMatchInStack img right) (findMatchInStack img down)
          (findMatchInStack img downRight)) ->
  (In p (optUid (findMatchInStack img right))
   /\ unassigned (findMatchInStack img right) = true)
  \/ (In p (optUid (findMatchInStack img down))
      /\ unassigned (findMatchInStack img down) = true)
  \/ (In p (optUid (findMatchInStack img downRight))
      /\ unassigned (findMatchInStack img downRight) = true).
Proof.
  rewrite AutotileFacts.rockCandidates_closed_form.
  unfold firstMatchUnassigned, partnersOf.
  destruct (unassigned (findMatchInStack img right));
    destruct (unassigned (findMatchInStack img down));
    destruct (unassigned (findMatchInStack img downRight));
    simpl; intros Hc Hp;
    repeat (destruct Hc as [<- | Hc]; simpl in Hp;
            [ rewrite ?in_app_iff in Hp; tauto | ]);
    contradiction.
Qed.

Lemma sameExcept_uids U s s' :
  sameExcept U s s' -> map uid (objects s') = map uid (objects s).
Proof.
  intros [_ [_ [_ H]]]. induction H as [| a b l l' Hab _ IH]; simpl;
    [ reflexivity | ].
  rewrite IH, (frameStep_uid U a b Hab). reflexivity.
Qed.

Lemma found_unique s e :
  NoDup (map uid (objects s)) -> In e (objects s) -> findEnt s (uid e) = Some e.
Proof. intros Hnd Hin. exact (NeighbourFacts.find_by_uid _ _ Hnd Hin). Qed.

Lemma findEnt_assignFrame s u f e :
  findEnt s u = Some e ->
  findEnt (assignFrame u f s) u = Some (setRockFrameOf e (Some f)).
Proof.
  unfold findEnt, assignFrame, updateEnt. simpl.
  induction (objects s) as [| a l IH]; simpl; [ discriminate | ].
  destruct (Nat.eqb (uid a) u) eqn:E; simpl.
  - rewrite E. intros H. injection H as <-. reflexivity.
  - rewrite E. exact IH.
Qed.

Section WithRandom.
Variable randint : Z -> Z.
Variable choice : Z -> list string -> string.

(** [setRockFrame] after its first assignment: it writes to the rock and to
    its partners. *)
Lemma setRockFrame_writes s self seed me :
  findEnt s self = Some me ->
  let s1 := assignFrame self (randint seed) s in
  sameExcept (self :: rockPartners choice s1 me seed) s1
             (setRockFrame randint choice s self seed).
Proof.
  intros Hme s1. unfold setRockFrame, rockPartners. rewrite Hme. cbv zeta. fold s1.
  destruct (negb (Z.land seed 3 =? 0)); [ apply sameExcept_refl | ].
  set (img := currentImg me).
  set (adj := getAdjacentEnts s1 (entX me) (entY me) true).
  set (R := findMatchInStack img (nth 1 adj [])).
  set (D := findMatchInStack img (nth 3 adj [])).
  set (DR := findMatchInStack img (nth 7 adj [])).
  destruct (rockCandidates img (nth 1 adj []) (nth 3 adj []) (nth 7 adj []))
    as [| c0 cs]; [ apply sameExcept_refl | ].
  set (c := choice seed (c0 :: cs)).
  unfold partnersOf.
  destruct (String.eqb c "2x1").
  { apply (sameExcept_weaken ([self] ++ optUid R));
      [ intros u Hu; exact Hu | ].
    eapply sameExcept_trans;
      [ apply assignFrame_step | apply assignPartner_step ]. }
  destruct (String.eqb c "1x2").
  { apply (sameExcept_weaken ([self] ++ optUid D));
      [ intros u Hu; exact Hu | ].
    eapply sameExcept_trans;
      [ apply assignFrame_step | apply assignPartner_step ]. }
  destruct (String.eqb c "2x2").
  { apply (sameExcept_weaken ((([self] ++ optUid R) ++ optUid D) ++ optUid DR)).
    { intros u Hu. rewrite <- !app_assoc in Hu. exact Hu. }
    eapply sameExcept_trans; [ | apply assignPartner_step ].
    eapply sameExcept_trans; [ | apply assignPartner_step ].
    eapply sameExcept_trans;
      [ apply assignFrame_step | apply assignPartner_step ]. }
  apply sameExcept_weaken with (U := []); [ intros u [] | apply sameExcept_refl ].
Qed.

(** *** Every rock gets a frame *)

Lemma sameExcept_isRock U s s' u :
  sameExcept U s s' -> (isRock s u <-> isRock s' u).
Proof.
  intros [_ [_ [_ H]]]. unfold isRock, findEnt.
  induction H as [| a b l l' Hab _ IH]; simpl.
  - split; intros [e [H _]]; discriminate.
  - rewrite (frameStep_uid U a b Hab). destruct (Nat.eqb (uid a) u); [ | exact IH ].
    destruct Hab as [Hab _].
    split; intros [e [He Hr]]; injection He as <-.
    + exists b. split; [ reflexivity | ]. rewrite Hab. exact Hr.
    + exists a. split; [ reflexivity | ]. rewrite Hab in Hr. exact Hr.
Qed.

Lemma sameExcept_framed U s s' u :
  sameExcept U s s' -> framed s u -> framed s' u.
Proof.
  intros H [e [f [He Hf]]].
  destruct (sameExcept_found U s s' u e H He) as [e' [He' [_ [_ Hmono]]]].
  destruct (rockFrame e') as [f' |] eqn:Hf'.
  - exists e', f'. split; assumption.
  - exfalso. apply Hmono; [ congruence | reflexivity ].
Qed.

Lemma rockVisit_steps seed i s u :
  exists U, sameExcept U s (rockVisit randint choice seed i s u).
Proof.
  unfold rockVisit.
  destruct (findEnt s u) as [ent |] eqn:Hent;
    [ | exists []; apply sameExcept_refl ].
  destruct (renderRock ent && match rockFrame ent with
                              | Some _ => false
                              | None => true
                              end);
    [ | exists []; apply sameExcept_refl ].
  pose proof (setRockFrame_writes s u (seed + i) ent Hent) as Hstep.
  cbv zeta in Hstep.
  eexists. eapply sameExcept_trans; [ apply assignFrame_step | exact Hstep ].
Qed.

Lemma rockVisit_frames seed i s u :
  isRock s u -> framed (rockVisit randint choice seed i s u) u.
Proof.
  intros [e [He Hr]]. unfold rockVisit. rewrite He, Hr. simpl.
  destruct (rockFrame e) as [f |] eqn:Hf.
  - exists e, f. split; assumption.
  - pose proof (setRockFrame_writes s u (seed + i) e He) as Hstep.
    cbv zeta in Hstep.
    apply (sameExcept_framed _ _ _ u Hstep).
    eexists _, _. split; [ apply findEnt_assignFrame, He | reflexivity ].
Qed.

Lemma rockStack_frames seed i stack s :
  exists U,
    sameExcept U s (fold_left (rockVisit randint choice seed i) stack s)
    /\ forall u, In u stack -> isRock s u ->
         framed (fold_left (rockVisit randint choice seed i) stack s) u.
Proof.
  revert s. induction stack as [| u0 rest IH]; intros s; simpl.
  - exists []. split; [ apply sameExcept_refl | intros u [] ].
  - destruct (rockVisit_steps seed i s u0) as [U1 H1].
    destruct (IH (rockVisit randint choice seed i s u0)) as [U2 [H2 Hall]].
    exists (U1 ++ U2). split; [ exact (sameExcept_trans _ _ _ _ _ H1 H2) | ].
    intros u [<- | Hin] Hrock.
    + apply (sameExcept_framed _ _ _ _ H2). apply rockVisit_frames, Hrock.
    + apply Hall; [ exact Hin | ]. apply (sameExcept_isRock _ _ _ u H1), Hrock.
Qed.

Lemma rockSweepFrom_frames seed i stacks s :
  exists U,
    sameExcept U s (rockSweepFrom randint choice seed i stacks s)
    /\ forall u, In u (List.concat stacks) -> isRock s u ->
         framed (rockSweepFrom randint choice seed i stacks s) u.
Proof.
  revert i s. induction stacks as [| stack rest IH]; intros i s; simpl.
  - exists []. split; [ apply sameExcept_refl | intros u [] ].
  - destruct (rockStack_frames seed i stack s) as [U1 [H1 Hstack]].
    destruct (IH (i + 1) (fold_left (rockVisit randint choice seed i) stack s))
      as [U2 [H2 Hall]].
    exists (U1 ++ U2). split; [ exact (sameExcept_trans _ _ _ _ _ H1 H2) | ].
    intros u Hin Hrock. apply in_app_or in Hin. destruct Hin as [Hin | Hin].
    + apply (sameExcept_framed _ _ _ _ H2). apply Hstack; assumption.
    + apply Hall; [ exact Hin | ]. apply (sameExcept_isRock _ _ _ u H1), Hrock.
Qed.

(** A pass over rocks that all have their frame changes nothing. *)
Lemma rockSweepFrom_idle seed i stacks s :
  (forall u, In u (List.concat stacks) -> isRock s u -> framed s u) ->
  rockSweepFrom randint choice seed i stacks s = s.
Proof.
  assert (Hvisit : forall i u, (isRock s u -> framed s u) ->
                          rockVisit randint choice seed i s u = s).
  { intros j u H. unfold rockVisit.
    destruct (findEnt s u) as [ent |] eqn:Hent; [ | reflexivity ].
    destruct (renderRock ent) eqn:Hr; [ | reflexivity ].
    destruct (H (ex_intro _ ent (conj Hent Hr))) as [e [f [He Hf]]].
    rewrite Hent in He. injection He as <-. rewrite Hf. reflexivity. }
  revert i. induction stacks as [| stack rest IH]; intros i; simpl;
    [ reflexivity | intros Hall ].
  assert (Hstack : fold_left (rockVisit randint choice seed i) stack s = s).
  { assert (Hs : forall u, In u stack -> isRock s u -> framed s u).
    { intros u Hin. apply Hall, in_or_app. left. exact Hin. }
    clear Hall IH. induction stack as [| u stack IHs]; simpl; [ reflexivity | ].
    rewrite Hvisit by (apply Hs; left; reflexivity).
    apply IHs. intros u' Hin. apply Hs. right. exact Hin. }
  rewrite Hstack. apply IH. intros u Hin. apply Hall, in_or_app. right. exact Hin.
Qed.

(** X18.  After the rock pass of [drawBackground] every rock of the cache
    has a frame, and the pass has nothing left to do: run again, with any
    seed, it leaves the scene as it is. *)
Theorem rock_pass_frames_every_rock (s : RoomScene) (seed seed' : Z) :
  (forall u, In u (List.concat (entCache s)) -> isRock s u ->
             framed (rockSweep randint choice s seed) u)
  /\ rockSweep randint choice (rockSweep randint choice s seed) seed'
     = rockSweep randint choice s seed.
Proof.
  unfold rockSweep.
  destruct (rockSweepFrom_frames seed 0 (entCache s) s) as [U [Hstep Hall]].
  split; [ exact Hall | ].
  pose proof Hstep as [Hc _]. rewrite Hc.
  apply rockSweepFrom_idle. intros u Hin Hrock.
  apply Hall; [ exact Hin | ].
  apply (sameExcept_isRock _ _ _ u Hstep), Hrock.
Qed.

(** *** No frame is overwritten *)

(** [random.choice] answers an element of its list. *)
Hypothesis choice_in : forall seed l, l <> [] -> In (choice seed l) l.

(** The partners had no frame. *)
Lemma rockPartners_unassigned s1 me seed p :
  In p (rockPartners choice s1 me seed) ->
  exists E, findEnt s1 p = Some E /\ rockFrame E = None.
Proof.
  unfold rockPartners.
  destruct (negb (Z.land seed 3 =? 0)); [ intros [] | ]. cbv zeta.
  set (img := currentImg me).
  set (adj := getAdjacentEnts s1 (entX me) (entY me) true).
  destruct (rockCandidates img (nth 1 adj []) (nth 3 adj []) (nth 7 adj []))
    as [| c0 cs] eqn:Hc; [ intros [] | ].
  intros Hp.
  assert (Hin : In (choice seed (c0 :: cs))
                   (rockCandidates img (nth 1 adj []) (nth 3 adj [])
                      (nth 7 adj []))).
  { rewrite Hc. apply choice_in. discriminate. }
  destruct (drawn_partners img _ _ _ _ p Hin Hp)
    as [[H1 H2] | [[H1 H2] | [H1 H2]]].
  - exact (offered_partner s1 (entX me) (entY me) 1 img _ p eq_refl H2 H1).
  - exact (offered_partner s1 (entX me) (entY me) 3 img _ p eq_refl H2 H1).
  - exact (offered_partner s1 (entX me) (entY me) 7 img _ p eq_refl H2 H1).
Qed.

(** A rock without a frame is given one, and no frame that was set is
    touched. *)
Lemma setRockFrame_keeps s self seed me :
  NoDup (map uid (objects s)) ->
  findEnt s self = Some me -> rockFrame me = None ->
  framesKept s (setRockFrame randint choice s self seed).
Proof.
  intros Hnd Hme Hnone.
  pose proof (setRockFrame_writes s self seed me Hme) as Hstep.
  cbv zeta in Hstep.
  pose proof (rockPartners_unassigned
                (assignFrame self (randint seed) s) me seed) as HP.
  pose proof (assignFrame_step self (randint seed) s) as H1.
  assert (Hnd1 : NoDup (map uid (objects (assignFrame self (randint seed) s)))).
  { rewrite (sameExcept_uids _ _ _ H1). exact Hnd. }
  destruct H1 as [Hc1 [_ [_ H1]]]. destruct Hstep as [Hc2 [_ [_ H2]]].
  split; [ congruence | ].
  apply (Forall2_compose _ _ _ _ _ _ H1 H2).
  intros e e1 e' Hin Hin1 [Ha [Hb _]] [Ha' [Hb' _]]. split.
  - rewrite Ha', Ha. reflexivity.
  - intros f Hf.
    assert (Hu : uid e <> self).
    { intros Heq. pose proof (found_unique s e Hnd Hin) as Hfound.
      rewrite Heq, Hme in Hfound. injection Hfound as ->. congruence. }
    assert (Hf1 : rockFrame e1 = Some f).
    { rewrite Hb; [ exact Hf | ]. intros [H | []]. congruence. }
    rewrite Hb'; [ exact Hf1 | ].
    assert (Hu1 : uid e1 = uid e) by (rewrite Ha; reflexivity).
    intros [H | H]; [ congruence | ].
    destruct (HP _ H) as [E [HE HEn]].
    rewrite (found_unique _ e1 Hnd1 Hin1) in HE. injection HE as <-. congruence.
Qed.

Lemma framesKept_refl s : framesKept s s.
Proof.
  split; [ reflexivity | ]. apply Forall2_refl_on.
  intros e. split; [ destruct e; reflexivity | auto ].
Qed.

Lemma framesKept_trans s s' s'' :
  framesKept s s' -> framesKept s' s'' -> framesKept s s''.
Proof.
  intros [Hc H] [Hc' H']. split; [ congruence | ].
  apply (Forall2_compose _ _ _ _ _ _ H H').
  intros e e1 e' _ _ [Ha Hb] [Ha' Hb']. split.
  - rewrite Ha', Ha. reflexivity.
  - intros f Hf. apply Hb', Hb, Hf.
Qed.

Lemma framesKept_uids s s' :
  framesKept s s' -> map uid (objects s') = map uid (objects s).
Proof.
  intros [_ H]. induction H as [| a b l l' [Hab _] _ IH]; simpl;
    [ reflexivity | ].
  rewrite IH, Hab. reflexivity.
Qed.

Lemma framesKept_found s s' u e f :
  framesKept s s' -> findEnt s u = Some e -> rockFrame e = Some f ->
  exists e', findEnt s' u = Some e' /\ e' = e.
Proof.
  intros [_ H]. unfold findEnt.
  induction H as [| a b l l' [Hab Hf] _ IH]; simpl; [ discriminate | ].
  replace (uid b) with (uid a) by (rewrite Hab; reflexivity).
  destruct (Nat.eqb (uid a) u).
  - intros Heq Hfr. injection Heq as <-. exists b. split; [ reflexivity | ].
    rewrite Hab, (Hf f Hfr), <- Hfr. destruct a; reflexivity.
  - exact IH.
Qed.

Lemma rockVisit_keeps seed i s u :
  NoDup (map uid (objects s)) ->
  framesKept s (rockVisit randint choice seed i s u).
Proof.
  intros Hnd. unfold rockVisit.
  destruct (findEnt s u) as [ent |] eqn:Hent; [ | apply framesKept_refl ].
  destruct (renderRock ent); [ | apply framesKept_refl ].
  destruct (rockFrame ent) eqn:Hf; [ apply framesKept_refl | ].
  exact (setRockFrame_keeps s u (seed + i) ent Hnd Hent Hf).
Qed.

Lemma rockStack_keeps seed i stack s :
  NoDup (map uid (objects s)) ->
  framesKept s (fold_left (rockVisit randint choice seed i) stack s).
Proof.
  revert s. induction stack as [| u rest IH]; intros s Hnd; simpl;
    [ apply framesKept_refl | ].
  pose proof (rockVisit_keeps seed i s u Hnd) as H1.
  apply (framesKept_trans _ _ _ H1). apply IH.
  rewrite (framesKept_uids _ _ H1). exact Hnd.
Qed.

Lemma rockSweepFrom_keeps seed i stacks s :
  NoDup (map uid (objects s)) ->
  framesKept s (rockSweepFrom randint choice seed i stacks s).
Proof.
  revert i s. induction stacks as [| stack rest IH]; intros i s Hnd; simpl;
    [ apply framesKept_refl | ].
  pose proof (rockStack_keeps seed i stack s Hnd) as H1.
  apply (framesKept_trans _ _ _ H1). apply IH.
  rewrite (framesKept_uids _ _ H1). exact Hnd.
Qed.

(** X19.  The rock pass of [drawBackground] never touches a rock that has
    its frame: in a scene of distinct entities, whatever the seed and
    whatever the random draws (a [random.choice] that answers an element of
    its list), an entity whose [rockFrame] is set before the pass is the
    same entity, with the same frame, after it. *)
Theorem rock_pass_keeps_frames (s : RoomScene) (seed : Z) (u : nat)
  (e : Entity) (f : Z) :
  NoDup (map uid (objects s)) ->
  findEnt s u = Some e -> rockFrame e = Some f ->
  findEnt (rockSweep randint choice s seed) u = Some e.
Proof.
  intros Hnd He Hf.
  destruct (framesKept_found _ _ u e f
              (rockSweepFrom_keeps seed 0 (entCache s) s Hnd) He Hf)
    as [e' [He' ->]].
  exact He'.
Qed.

End WithRandom.

End SweepFacts.

Module SweepWitnesses.
Import RoomInfo Scene Editor Neighbours Autotile Props Terms Examples.

(** Two stacks of two rocks, drawn once; the pass is run again with other
    draws. *)
Lemma rock_pass_keeps_frames_witness :
  let s := rockSweep (fun _ => 2) firstChoice (orEmpty stackedRocks) 0 in
  exists e f,
    findEnt s 1 = Some e /\ rockFrame e = Some f
    /\ findEnt (rockSweep (fun _ => 1) firstChoice s 4) 1 = Some e.
Proof.
  intros s. eexists _, _.
  split; [ vm_compute; reflexivity | ].
  split; [ vm_compute; reflexivity | ].
  refine (SweepFacts.rock_pass_keeps_frames (fun _ => 1) firstChoice _
            s 4 1%nat _ _ _ _ _).
  - intros seed [| c l] H; [ contradiction | left; reflexivity ].
  - vm_compute. repeat constructor; simpl; intuition lia.
  - vm_compute. reflexivity.
  - vm_compute. reflexivity.
Defined.

End SweepWitnesses.

(** ** Opening a room: what the scene shows *)

Module OpeningFacts.
Import RoomInfo Scene Editor Props Terms Rooms Opening SceneFacts.

Lemma countOnly_keeps_doors s blocks x y val :
  map doorItem (doorsAfter s blocks x y val true) = map doorItem (doorItems s).
Proof.
  unfold doorsAfter. destruct blocks; [ | reflexivity ].
  destruct (inFrontOfDoor (roomInfo s) x y) as [bd |]; [ | reflexivity ].
  induction (doorItems s) as [| d ds IH]; simpl; [ reflexivity | ].
  destruct (sameXY (doorItem d) bd); simpl.
  - f_equal. unfold blockDoor. rewrite andb_false_r. reflexivity.
  - f_equal. exact IH.
Qed.

Lemma typesAt_objects s x y :
  wellFormed s -> typesAt s x y = map entType (filter (atCell x y) (objects s)).
Proof.
  intros [_ [Hall _]]. unfold typesAt, cellEntities.
  rewrite (NeighbourFacts.sceneEntities_all s Hall). reflexivity.
Qed.

Section WithCollaborators.
Context {Weight : Type}.
Variable getEntityInfo : Z -> Z -> Z -> EntityConfig.
Variable collidingItems : RoomScene -> Entity -> list Entity.

(** One respawn. *)
Lemma respawn_shows i0 ds s x y t v st :
  shows i0 ds s ->
  0 <= x < fst (dims i0) -> 0 <= y < snd (dims i0) ->
  exists s' u,
    Entity_init getEntityInfo collidingItems s x y t v st true = Some (s', u)
    /\ shows i0 ds s'
    /\ forall cx cy,
         typesAt s' cx cy
         = typesAt s cx cy ++ (if (x =? cx) && (y =? cy) then [t] else []).
Proof.
  intros [Htr [Hi [Hw [Hh Hd]]]] Hx Hy.
  rewrite <- Hw in Hx. rewrite <- Hh in Hy.
  destruct (Entity_init_spec getEntityInfo collidingItems s x y t v st true Hx Hy)
    as [sd Hspec].
  eexists _, _. split; [ exact Hspec | ].
  set (s' := mkScene _ _ _ _ _ _).
  assert (Htr' : tracked s').
  { apply (SessionFacts.added_keeps_tracked s s' x y
             (cfgBlocksDoor (getEntityInfo t v st)) true Hx Hy);
      [ repeat split | | reflexivity | exact Htr ].
    unfold skeletons, s'. simpl objects. rewrite map_app. reflexivity. }
  split.
  - split; [ exact Htr' | ]. split; [ exact Hi | ]. split; [ exact Hw | ].
    split; [ exact Hh | ].
    unfold s'. simpl doorItems. rewrite countOnly_keeps_doors. exact Hd.
  - intros cx cy.
    rewrite !typesAt_objects by (first [ apply Htr' | apply Htr ]).
    unfold s'. simpl objects. rewrite filter_app, map_app. f_equal.
    simpl. unfold atCell. simpl.
    destruct ((x =? cx) && (y =? cy)); reflexivity.
Qed.

(** One stack. *)
Lemma stack_shows i0 ds (stack : list (Spawn Weight)) s x y :
  shows i0 ds s ->
  0 <= x < fst (dims i0) -> 0 <= y < snd (dims i0) ->
  exists s',
    fold_left (spawnEntity getEntityInfo collidingItems x y) stack (Some s)
    = Some s'
    /\ shows i0 ds s'
    /\ forall cx cy,
         typesAt s' cx cy
         = typesAt s cx cy
           ++ (if (x =? cx) && (y =? cy) then map sType stack else []).
Proof.
  intros Hs Hx Hy. revert s Hs.
  induction stack as [| ent rest IH]; intros s Hs.
  - exists s. split; [ reflexivity | ]. split; [ exact Hs | ].
    intros cx cy. destruct ((x =? cx) && (y =? cy)); rewrite app_nil_r; reflexivity.
  - destruct (respawn_shows i0 ds s x y (sType ent) (sVariant ent) (sSubtype ent)
                Hs Hx Hy) as [s1 [u [Hinit [Hs1 Ht1]]]].
    destruct (IH s1 Hs1) as [s' [Hfold [Hs' Ht']]].
    exists s'. cbn [fold_left]. unfold spawnEntity at 2. rewrite Hinit.
    split; [ exact Hfold | ]. split; [ exact Hs' | ].
    intros cx cy. rewrite Ht', Ht1, <- app_assoc. f_equal.
    destruct ((x =? cx) && (y =? cy)); reflexivity.
Qed.

(** All the stacks of a list. *)
Lemma stacks_show i0 ds (L : list (list (Spawn Weight) * Z * Z)) s :
  shows i0 ds s ->
  Forall (fun t => 0 <= snd (fst t) < fst (dims i0)
                   /\ 0 <= snd t < snd (dims i0)) L ->
  exists s',
    fold_left (spawnStack getEntityInfo collidingItems) L (Some s) = Some s'
    /\ shows i0 ds s'
    /\ forall cx cy, typesAt s' cx cy = typesAt s cx cy ++ stackedAt L cx cy.
Proof.
  intros Hs HL. revert s Hs.
  induction HL as [| [[stack x] y] L [Hx Hy] _ IH]; intros s Hs.
  - exists s. split; [ reflexivity | ]. split; [ exact Hs | ].
    intros cx cy. simpl. rewrite app_nil_r. reflexivity.
  - simpl in Hx, Hy.
    destruct (stack_shows i0 ds stack s x y Hs Hx Hy) as [s1 [Hfold [Hs1 Ht1]]].
    destruct (IH s1 Hs1) as [s' [Hfold' [Hs' Ht']]].
    exists s'. cbn [fold_left]. unfold spawnStack at 2. rewrite Hfold.
    split; [ exact Hfold' | ]. split; [ exact Hs' | ].
    intros cx cy. rewrite Ht', Ht1, <- app_assoc. reflexivity.
Qed.

End WithCollaborators.

(** A list of stacks on distinct cells puts on each cell the stack it names
    for it, if any. *)
Lemma stackedAt_none {Weight} (L : list (list (Spawn Weight) * Z * Z)) x y :
  (forall st, ~ In (st, x, y) L) -> stackedAt L x y = [].
Proof.
  induction L as [| [[st0 x0] y0] L IH]; intros Hnone; [ reflexivity | ].
  unfold stackedAt. cbn [flat_map fst snd]. fold (stackedAt L x y).
  rewrite IH by (intros st Hin; apply (Hnone st); right; exact Hin).
  destruct (Z.eqb_spec x0 x) as [-> | Hx]; [ | reflexivity ].
  destruct (Z.eqb_spec y0 y) as [-> | Hy]; [ | reflexivity ].
  exfalso. apply (Hnone st0). left. reflexivity.
Qed.

Lemma stackedAt_unique {Weight} w (L : list (list (Spawn Weight) * Z * Z))
  st x y :
  NoDup (map (fun t => gridIndex (snd (fst t)) (snd t) w) L) ->
  In (st, x, y) L -> stackedAt L x y = map sType st.
Proof.
  induction L as [| [[st0 x0] y0] L IH]; intros Hnd Hin; [ contradiction | ].
  simpl in Hnd. inversion Hnd as [| ? ? Hnot Hnd']; subst.
  unfold stackedAt. cbn [flat_map fst snd]. fold (stackedAt L x y).
  destruct Hin as [Heq | Hin].
  - injection Heq as -> -> ->. rewrite !Z.eqb_refl. simpl.
    rewrite stackedAt_none; [ apply app_nil_r | ].
    intros st' Hin'. apply Hnot. apply in_map_iff.
    exists (st', x, y). split; [ reflexivity | exact Hin' ].
  - rewrite (IH Hnd' Hin).
    destruct (Z.eqb_spec x0 x) as [-> | Hx]; [ | reflexivity ].
    destruct (Z.eqb_spec y0 y) as [-> | Hy]; [ | reflexivity ].
    exfalso. apply Hnot. apply in_map_iff.
    exists (st, x, y). split; [ reflexivity | exact Hin ].
Qed.

Lemma stackedAt_spawns {Weight} (room : Room (Spawn Weight)) x y :
  0 < fst (dims (info room)) ->
  0 <= x < fst (dims (info room)) -> 0 <= y < snd (dims (info room)) ->
  stackedAt (spawns room) x y
  = map sType (stackAt (gridSpawns room) (fst (dims (info room))) x y).
Proof.
  intros Hw Hx Hy.
  destruct (stackAt (gridSpawns room) (fst (dims (info room))) x y)
    as [| a st] eqn:Hst.
  - apply stackedAt_none. intros st Hin.
    apply RoomFacts.spawns_cells in Hin; [ | exact Hw ].
    destruct Hin as [_ [_ [Hne Hget]]]. unfold stackAt in Hst.
    rewrite Hget in Hst. contradiction.
  - apply (stackedAt_unique (fst (dims (info room)))).
    + unfold spawns. apply RoomFacts.spawnsFrom_NoDup; lia.
    + apply RoomFacts.spawns_cells; [ exact Hw | ].
      repeat split; try lia; [ discriminate | ].
      unfold stackAt in Hst.
      destruct (getItem (gridSpawns room) _); [ congruence | discriminate ].
Qed.

Section Opens.
Context {Weight : Type}.
Variable getEntityInfo : Z -> Z -> Z -> EntityConfig.
Variable collidingItems : RoomScene -> Entity -> list Entity.

(** X20.  Opening a room shows it.  For a room of a shape of the table whose
    doors are at distinct positions, [handleSelectedRoomChanged] returns a
    scene that is well formed and whose doors count exactly the entities in
    front of them; the doors are those of the room, open or closed as the
    room has them, whatever stands in front of them; and every cell of the
    grid holds the entities of the room's stack for that cell, in the order
    of the stack. *)
Theorem opening_shows_the_room (current : Room (Spawn Weight)) (id : Z)
  (i0 : Info) :
  newInfo id = Some i0 ->
  info current = setDoors i0 (doors (info current)) ->
  NoDup (map (fun d => (doorX d, doorY d)) (doors (info current))) ->
  exists s,
    handleSelectedRoomChanged getEntityInfo collidingItems current = Some s
    /\ wellFormed s /\ countsExact s
    /\ map doorItem (doorItems s) = doors (info current)
    /\ forall x y, 0 <= x < fst (dims i0) -> 0 <= y < snd (dims i0) ->
         map entType (cellEntities s x y)
         = map sType (stackAt (gridSpawns current) (fst (dims i0)) x y).
Proof.
  intros Hinfo Hroom Hnd.
  pose proof (GeometryFacts.tableCheck_sound _ id i0 RoomFacts.mirrorOk_table Hinfo)
    as Hok.
  unfold mirrorOk in Hok. rewrite !andb_true_iff in Hok.
  destruct Hok as [[[Hw Hh] _] _]. apply Z.ltb_lt in Hw. apply Z.ltb_lt in Hh.
  assert (Hdims : dims (info current) = dims i0) by (rewrite Hroom; reflexivity).
  unfold handleSelectedRoomChanged.
  replace (shape (info current)) with id
    by (rewrite Hroom; symmetry; exact (RoomFacts.newInfo_shape id i0 Hinfo)).
  destruct (newRoomSize id) as [s0 |] eqn:Hs0;
    [ | unfold newRoomSize in Hs0; rewrite Hinfo in Hs0;
        destruct (dims i0); discriminate ].
  set (ds := doors (info current)) in *.
  set (s1 := setDoorItems s0 (map (fun d => mkDoor d 0) ds)).
  assert (Hs1 : shows i0 ds s1).
  { pose proof (SessionFacts.newRoomSize_tracked id s0 Hs0) as [Hwf [_ Htab]].
    unfold newRoomSize in Hs0. rewrite Hinfo in Hs0.
    destruct (dims i0) as [w h] eqn:Hd. injection Hs0 as <-.
    split; [ | repeat split; simpl; rewrite ?Hd; try reflexivity;
               rewrite map_map; simpl; apply map_id ].
    split; [ exact Hwf | ]. split; [ | exact Htab ].
    split; simpl.
    - rewrite map_map. unfold doorXY. simpl. exact Hnd.
    - apply Forall_forall. intros d Hd'. apply in_map_iff in Hd'.
      destruct Hd' as [di [<- _]]. reflexivity. }
  destruct (stacks_show getEntityInfo collidingItems i0 ds (spawns current) s1 Hs1)
    as [s [Hfold [[Htr [_ [_ [_ Hdoors]]]] Ht]]].
  { apply Forall_forall. intros [[st x] y] Hin.
    apply RoomFacts.spawns_cells in Hin; [ | rewrite Hdims; exact Hw ].
    rewrite Hdims in Hin. simpl. destruct Hin as [Hx [Hy _]]. split; assumption. }
  exists s. split; [ exact Hfold | ].
  destruct Htr as [Hwf [Hcount _]].
  split; [ exact Hwf | ]. split; [ exact Hcount | ]. split; [ exact Hdoors | ].
  intros x y Hx Hy. fold (typesAt s x y). rewrite Ht.
  replace (typesAt s1 x y) with (@nil Z).
  2:{ unfold typesAt, cellEntities, sceneEntities, s1. simpl.
      unfold newRoomSize in Hs0. rewrite Hinfo in Hs0.
      destruct (dims i0). injection Hs0 as <-. reflexivity. }
  simpl. rewrite <- Hdims. apply stackedAt_spawns; rewrite Hdims; assumption.
Qed.

End Opens.

End OpeningFacts.

Module OpeningWitnesses.
Import RoomInfo Scene Editor Props Terms Rooms Opening Examples RoomExamples.

(** A 1x1 room with one stack of two spawns. *)
Lemma opening_shows_the_room_witness :
  exists s,
    handleSelectedRoomChanged registry sameCellItems (sampleRoom 1) = Some s
    /\ wellFormed s /\ countsExact s
    /\ map doorItem (doorItems s) = doors (info (sampleRoom 1))
    /\ forall x y, 0 <= x < fst (dims (infoOf 1)) -> 0 <= y < snd (dims (infoOf 1)) ->
         map entType (cellEntities s x y)
         = map sType (stackAt (gridSpawns (sampleRoom 1))
                              (fst (dims (infoOf 1))) x y).
Proof.
  apply (OpeningFacts.opening_shows_the_room registry sameCellItems
           (sampleRoom 1) 1 (infoOf 1)).
  - vm_compute. reflexivity.
  - vm_compute. reflexivity.
  - vm_compute. repeat constructor; simpl; intuition congruence.
Defined.

End OpeningWitnesses.

(** ** The room list: what numbering and sorting give *)

Module RoomListFacts.
Import RoomList.

Lemma lookup_store_same d t v : lookupType (storeType d t v) t = Some v.
Proof.
  induction d as [| [k w] d IH]; simpl.
  - rewrite Z.eqb_refl. reflexivity.
  - destruct (k =? t) eqn:E; simpl; rewrite E; [ reflexivity | exact IH ].
Qed.

Lemma lookup_store_other d t v t' :
  t <> t' -> lookupType (storeType d t v) t' = lookupType d t'.
Proof.
  intros Hne. induction d as [| [k w] d IH]; simpl.
  - destruct (Z.eqb_spec t t'); [ contradiction | reflexivity ].
  - destruct (Z.eqb_spec k t) as [-> | Hk]; simpl.
    + destruct (Z.eqb_spec t t'); [ contradiction | reflexivity ].
    + destruct (k =? t'); [ reflexivity | exact IH ].
Qed.

(** One room: the variant it gets and what the dictionary holds next. *)
Lemma renumber_spec {A} d (room : Listed A) :
  let v := match lookupType d (rType room) with
           | Some v => v
           | None => rVariant room
           end in
  snd (renumber d room) = mkListed (rType room) v (listed room)
  /\ lookupType (fst (renumber d room)) (rType room) = Some (v + 1)
  /\ forall t, t <> rType room ->
       lookupType (fst (renumber d room)) t = lookupType d t.
Proof.
  unfold renumber. destruct (lookupType d (rType room)) as [v |] eqn:E; simpl.
  - rewrite E. simpl. split; [ reflexivity | ].
    split; [ apply lookup_store_same | ].
    intros t Ht. apply lookup_store_other. congruence.
  - rewrite lookup_store_same. simpl. split; [ reflexivity | ].
    split; [ apply lookup_store_same | ].
    intros t Ht. rewrite !lookup_store_other by congruence. reflexivity.
Qed.

Lemma recomputeFrom_cons {A} d (room : Listed A) rest :
  recomputeFrom d (room :: rest)
  = snd (renumber d room) :: recomputeFrom (fst (renumber d room)) rest.
Proof. simpl. destruct (renumber d room). reflexivity. Qed.

Lemma recomputeFrom_keeps {A} d (rooms : list (Listed A)) :
  map rType (recomputeFrom d rooms) = map rType rooms
  /\ map listed (recomputeFrom d rooms) = map listed rooms.
Proof.
  revert d. induction rooms as [| room rest IH]; intros d; [ split; reflexivity | ].
  rewrite recomputeFrom_cons.
  destruct (renumber_spec d room) as [Hr _]. rewrite Hr.
  destruct (IH (fst (renumber d room))) as [H1 H2].
  cbn [map]. rewrite H1, H2. split; reflexivity.
Qed.

Lemma count_up v n :
  v :: map (fun k => v + 1 + Z.of_nat k) (seq 0 n)
  = map (fun k => v + Z.of_nat k) (seq 0 (S n)).
Proof.
  simpl. rewrite Z.add_0_r. f_equal.
  rewrite <- seq_shift, map_map. apply map_ext. intros k. lia.
Qed.

(** The variants of the rooms of one type. *)
Lemma recomputeFrom_variants {A} d (rooms : list (Listed A)) t :
  map rVariant (ofType t (recomputeFrom d rooms))
  = match lookupType d t, ofType t rooms with
    | Some v, l => map (fun k => v + Z.of_nat k) (seq 0 (List.length l))
    | None, [] => []
    | None, first :: l =>
        map (fun k => rVariant first + Z.of_nat k) (seq 0 (S (List.length l)))
    end.
Proof.
  revert d. induction rooms as [| room rest IH]; intros d.
  - simpl. destruct (lookupType d t); reflexivity.
  - rewrite recomputeFrom_cons.
    destruct (renumber_spec d room) as [Hr [Hsame Hother]].
    rewrite Hr. unfold ofType in *. cbn [filter rType].
    destruct (Z.eqb_spec (rType room) t) as [<- | Hne].
    + cbn [map rVariant]. rewrite IH, Hsame.
      destruct (lookupType d (rType room)) as [v |]; apply count_up.
    + rewrite IH, Hother by congruence. reflexivity.
Qed.

(** No room is numbered below what the dictionary holds for its type. *)
Lemma recomputeFrom_above {A} d (rooms : list (Listed A)) room v :
  In room (recomputeFrom d rooms) ->
  lookupType d (rType room) = Some v -> v <= rVariant room.
Proof.
  revert d v. induction rooms as [| r rest IH]; intros d v Hin Hd;
    [ contradiction | ].
  rewrite recomputeFrom_cons in Hin.
  destruct (renumber_spec d r) as [Hr [Hsame Hother]].
  destruct Hin as [<- | Hin].
  - rewrite Hr in *. simpl in *. rewrite Hd. lia.
  - destruct (Z.eq_dec (rType room) (rType r)) as [E | E].
    + rewrite E in Hd. rewrite Hd in Hsame.
      pose proof (IH _ _ Hin ltac:(rewrite E; exact Hsame)). lia.
    + apply (IH _ _ Hin). rewrite Hother by exact E. exact Hd.
Qed.

Lemma recomputeFrom_NoDup {A} d (rooms : list (Listed A)) :
  NoDup (map (fun room => (rType room, rVariant room)) (recomputeFrom d rooms)).
Proof.
  revert d. induction rooms as [| r rest IH]; intros d; [ constructor | ].
  rewrite recomputeFrom_cons.
  destruct (renumber_spec d r) as [Hr [Hsame _]].
  cbn [map]. constructor; [ | apply IH ].
  rewrite in_map_iff. intros [room [Heq Hin]].
  rewrite Hr in Heq. cbn [rType rVariant] in Heq. injection Heq as Ht Hv.
  pose proof (recomputeFrom_above _ _ room _ Hin
                ltac:(rewrite Ht; exact Hsame)). lia.
Qed.

Lemma recomputeFrom_again {A} d (rooms : list (Listed A)) :
  recomputeFrom d (recomputeFrom d rooms) = recomputeFrom d rooms.
Proof.
  revert d. induction rooms as [| r rest IH]; intros d; [ reflexivity | ].
  rewrite !recomputeFrom_cons.
  assert (Hsame : renumber d (snd (renumber d r)) = renumber d r).
  { unfold renumber. destruct (lookupType d (rType r)) as [v |] eqn:E; simpl.
    - rewrite E. simpl. rewrite E. reflexivity.
    - rewrite lookup_store_same. simpl. rewrite E.
      rewrite lookup_store_same. reflexivity. }
  rewrite Hsame, IH. reflexivity.
Qed.

(** X21.  [recomputeRoomIDs] numbers the rooms of each type consecutively:
    types, order and the rest of each room are kept; the rooms of a type get,
    in list order, the variant of the first of them, that variant plus one,
    plus two, and so on; so no two rooms share type and variant; and
    numbering again changes nothing. *)
Theorem recomputed_ids_are_consecutive {A} (rooms : list (Listed A)) :
  map rType (recomputeRoomIDs rooms) = map rType rooms
  /\ map listed (recomputeRoomIDs rooms) = map listed rooms
  /\ (forall t,
        map rVariant (ofType t (recomputeRoomIDs rooms))
        = match ofType t rooms with
          | [] => []
          | first :: l =>
              map (fun k => rVariant first + Z.of_nat k)
                  (seq 0 (S (List.length l)))
          end)
  /\ NoDup (map (fun room => (rType room, rVariant room))
                (recomputeRoomIDs rooms))
  /\ recomputeRoomIDs (recomputeRoomIDs rooms) = recomputeRoomIDs rooms.
Proof.
  unfold recomputeRoomIDs.
  destruct (recomputeFrom_keeps [] rooms) as [H1 H2].
  split; [ exact H1 | ]. split; [ exact H2 | ].
  split; [ intros t; exact (recomputeFrom_variants [] rooms t) | ].
  split; [ apply recomputeFrom_NoDup | apply recomputeFrom_again ].
Qed.

(** *** Sorting *)

Section Sorting.
Context {A K : Type}.
Variable key : A -> K.
Variable ltb : K -> K -> bool.

Hypothesis ltb_asym : forall a b, ltb a b = true -> ltb b a = false.
Hypothesis ltb_same : forall a b k,
  ltb b a = true -> ltb a k = false -> ltb k a = false -> ltb b k = true.

Lemma insertSorted_Permutation a l :
  Permutation (insertSorted key ltb a l) (a :: l).
Proof.
  induction l as [| b rest IH]; simpl; [ reflexivity | ].
  destruct (ltb (key b) (key a)); [ | reflexivity ].
  rewrite IH. apply perm_swap.
Qed.

Lemma sorted_Permutation l : Permutation (sorted key ltb l) l.
Proof.
  induction l as [| a rest IH]; simpl; [ reflexivity | ].
  rewrite insertSorted_Permutation, IH. reflexivity.
Qed.

Lemma insertSorted_Sorted a l :
  Sorted (fun x y => ltb (key y) (key x) = false) l ->
  Sorted (fun x y => ltb (key y) (key x) = false) (insertSorted key ltb a l).
Proof.
  induction 1 as [| b rest Hs IH Hhd]; simpl; [ repeat constructor | ].
  destruct (ltb (key b) (key a)) eqn:E.
  - constructor; [ exact IH | ].
    destruct rest as [| c rest]; simpl.
    + constructor. apply ltb_asym, E.
    + destruct (ltb (key c) (key a)).
      * inversion Hhd; subst. constructor. assumption.
      * constructor. apply ltb_asym, E.
  - constructor; [ constructor; assumption | constructor; exact E ].
Qed.

Lemma sorted_Sorted l :
  Sorted (fun x y => ltb (key y) (key x) = false) (sorted key ltb l).
Proof.
  induction l as [| a rest IH]; simpl; [ constructor | ].
  apply insertSorted_Sorted, IH.
Qed.

(** The sort is stable. *)
Lemma insertSorted_stable k a l :
  filter (sameKey key ltb k) (insertSorted key ltb a l)
  = filter (sameKey key ltb k) (a :: l).
Proof.
  induction l as [| b rest IH]; [ reflexivity | ].
  cbn [insertSorted]. destruct (ltb (key b) (key a)) eqn:E; [ | reflexivity ].
  cbn [filter] in *. rewrite IH.
  destruct (sameKey key ltb k a) eqn:Ha; [ | reflexivity ].
  replace (sameKey key ltb k b) with false; [ reflexivity | ].
  symmetry. unfold sameKey in *.
  apply andb_true_iff in Ha. destruct Ha as [H1 H2].
  apply negb_true_iff in H1. apply negb_true_iff in H2.
  rewrite (ltb_same _ _ k E H1 H2). reflexivity.
Qed.

Lemma sorted_stable k l :
  filter (sameKey key ltb k) (sorted key ltb l) = filter (sameKey key ltb k) l.
Proof.
  induction l as [| a rest IH]; [ reflexivity | ].
  cbn [sorted]. rewrite insertSorted_stable. cbn [filter]. rewrite IH.
  reflexivity.
Qed.

End Sorting.

Lemma filter_rev {A} (f : A -> bool) l : filter f (rev l) = rev (filter f l).
Proof.
  induction l as [| a l IH]; [ reflexivity | ].
  simpl. rewrite filter_app, IH. simpl. destruct (f a); simpl;
    [ reflexivity | apply app_nil_r ].
Qed.

Lemma idLt_asym a b : idLt a b = true -> idLt b a = false.
Proof.
  unfold idLt. rewrite orb_true_iff, orb_false_iff, andb_true_iff,
    andb_false_iff, !Z.ltb_lt, !Z.ltb_ge, Z.eqb_eq, Z.eqb_neq. lia.
Qed.

Lemma idLt_same a b k :
  idLt b a = true -> idLt a k = false -> idLt k a = false -> idLt b k = true.
Proof.
  unfold idLt. rewrite !orb_true_iff, !orb_false_iff, !andb_true_iff,
    !andb_false_iff, !Z.ltb_lt, !Z.ltb_ge, !Z.eqb_eq, !Z.eqb_neq. lia.
Qed.

Lemma sameKey_id {A} t v (room : Listed A) :
  sameKey idOf idLt (t, v) room = (rType room =? t) && (rVariant room =? v).
Proof.
  unfold sameKey, idLt, idOf. simpl.
  destruct (Z.ltb_spec (rType room) t); destruct (Z.ltb_spec t (rType room));
    destruct (Z.eqb_spec (rType room) t); destruct (Z.eqb_spec t (rType room));
    destruct (Z.ltb_spec (rVariant room) v);
    destruct (Z.ltb_spec v (rVariant room));
    destruct (Z.eqb_spec (rVariant room) v); simpl; try reflexivity; lia.
Qed.

(** X22.  [sortRoomIDs] sorts the list by type, then variant: the result
    holds the same rooms, in an order in which no room comes before a room
    with a smaller (type, variant); and the rooms that share type and
    variant come out in the reverse of the order they had, because the list
    is emptied from its end before the stable sort. *)
Theorem sortRoomIDs_sorts_and_reverses_ties {A} (rooms : list (Listed A)) :
  Permutation (sortRoomIDs rooms) rooms
  /\ Sorted idLe (sortRoomIDs rooms)
  /\ forall t v,
       filter (fun room => (rType room =? t) && (rVariant room =? v))
              (sortRoomIDs rooms)
       = rev (filter (fun room => (rType room =? t) && (rVariant room =? v))
                     rooms).
Proof.
  unfold sortRoomIDs, sortRoomsByKey. split; [ | split ].
  - rewrite sorted_Permutation. symmetry. apply Permutation_rev.
  - pose proof (sorted_Sorted idOf idLt idLt_asym (rev rooms)) as Hs.
    eapply Sorted_ind with (P := fun l => Sorted idLe l); [ | | exact Hs ].
    + constructor.
    + intros a l _ IH Hhd. constructor; [ exact IH | ].
      destruct Hhd as [| b l' Hab]; constructor.
      unfold idLt, idOf, idLe in *. simpl in Hab.
      rewrite orb_false_iff, andb_false_iff, Z.ltb_ge, Z.eqb_neq, Z.ltb_ge in Hab.
      lia.
  - intros t v.
    rewrite <- filter_rev.
    rewrite <- (filter_ext _ _ (sameKey_id t v)).
    rewrite <- (filter_ext _ _ (sameKey_id t v) (rev rooms)).
    apply (sorted_stable idOf idLt idLt_same).
Qed.

End RoomListFacts.
